(** * Bespoke Bags: the interactive widgets of [js/enhanced-interactions.js]

    A shallow embedding of the product filter, the comparison tray and the
    review system, with the part of the JavaScript platform they call
    ([parseInt], [Number::toString], [String.prototype.includes],
    [JSON.stringify], [JSON.parse], [localStorage]); then of the feedback
    widget, the star widget, the image gallery, [debounce] and the
    notifications, with [setTimeout] and [clearTimeout].

    Conventions of the embedding.
    - A JavaScript string is the list of its UTF-16 code units ([list N]);
      [js "abc"] is the string written with the characters of a literal.
    - A JavaScript number is a mathematical integer or [NaN]: every number
      the widgets compute comes from [parseInt], [Date.now], a counter or
      the length of an array.  The rounding of IEEE 754 doubles is not
      reproduced (it starts beyond 2^53); the mean of the ratings, the one
      division of the file, is kept as an exact rational.
    - A method is a function from the state of its object to a completion
      (normal or abrupt, that is a thrown exception) and the state it leaves
      behind, so that what was mutated before a [throw] stays mutated.
    - The page is reduced to what the methods read and write: data
      attributes, text contents, the [display] style.  The classes of the
      first part leave out CSS classes, the timers of the fade animations
      and modal windows; [ProductGrid] and [NotificationSystem] have the
      timers, as a queue that an event loop runs in the order they are
      due. *)

From Stdlib Require Import ZArith NArith QArith Qround List Bool String Ascii.
From Stdlib Require Import Decimal DecimalN DecimalPos Lia.
From stdpp Require Import base option list gmap.

Local Open Scope Z_scope.

(** ** The JavaScript platform *)

Module JS.

(** Strings: sequences of UTF-16 code units. *)
Abbreviation jsstring := (list N).

Definition js (s : string) : jsstring :=
  map N_of_ascii (list_ascii_of_string s).

(** Numbers as the widgets meet them. *)
Inductive number := NaN | Num (z : Z).

Global Instance number_eq_dec : EqDecision number.
Proof. solve_decision. Defined.

(** ToBoolean on a number: [NaN] and the zeros are falsy. *)
Definition truthy (n : number) : bool :=
  match n with
  | NaN => false
  | Num z => negb (z =? 0)
  end.

(** [a > b] on numbers: false as soon as one side is [NaN]. *)
Definition gt (a b : number) : bool :=
  match a, b with
  | Num x, Num y => y <? x
  | _, _ => false
  end.

(** [a === b] on numbers: [NaN] equals nothing, not even itself. *)
Definition strict_eq (a b : number) : bool :=
  match a, b with
  | Num x, Num y => x =? y
  | _, _ => false
  end.

(** Exceptions the modelled calls can throw. *)
Inductive error := SyntaxError | TypeError | QuotaExceededError.

Inductive completion (A : Type) :=
| Normal (a : A)
| Throw (e : error).
Global Arguments Normal {A} a.
Global Arguments Throw {A} e.

(** A method of an object whose fields are [S]. *)
Definition method (S A : Type) : Type := S → completion A * S.

Definition ret {S A} (a : A) : method S A := λ s, (Normal a, s).

Definition bind {S A B} (m : method S A) (k : A → method S B) : method S B :=
  λ s, match m s with
       | (Normal a, s') => k a s'
       | (Throw e, s') => (Throw e, s')
       end.

Definition throw {S A} (e : error) : method S A := λ s, (Throw e, s).
Definition get {S} : method S S := λ s, (Normal s, s).
Definition gets {S A} (f : S → A) : method S A := λ s, (Normal (f s), s).
Definition modify {S} (f : S → S) : method S unit := λ s, (Normal tt, f s).

(** Run a method of a component [T] held in a field of [S]. *)
Definition zoom {S T A} (rd : S → T) (wr : T → S → S) (m : method T A)
  : method S A :=
  λ s, let '(c, t) := m (rd s) in (c, wr t s).

Global Instance method_ret S : MRet (method S) := λ A, @ret S A.
Global Instance method_bind S : MBind (method S) := λ A B k m, bind m k.

(** The state a call leaves, and how it completed. *)
Definition exec {S A} (m : method S A) (s : S) : S := snd (m s).
Definition outcome {S A} (m : method S A) (s : S) : completion A := fst (m s).

(** *** String.prototype.includes *)

Fixpoint startsWith (s p : jsstring) : bool :=
  match p, s with
  | [], _ => true
  | _ :: _, [] => false
  | c :: p', d :: s' => (c =? d)%N && startsWith s' p'
  end.

Fixpoint includes (s p : jsstring) : bool :=
  startsWith s p ||
  match s with
  | [] => false
  | _ :: s' => includes s' p
  end.

(** *** parseInt (one argument: the radix is found from the prefix) *)

(** WhiteSpace and LineTerminator code units, as StrWhiteSpaceChar. *)
Definition is_white_space (c : N) : bool :=
  bool_decide (c ∈ [9; 10; 11; 12; 13; 32; 160; 5760; 8232; 8233; 8239;
                    8287; 12288; 65279]%N)
  || ((8192 <=? c) && (c <=? 8202))%N.

Fixpoint trim_start (s : jsstring) : jsstring :=
  match s with
  | c :: r => if is_white_space c then trim_start r else s
  | [] => []
  end.

Definition digit_value (c : N) : option N :=
  if ((48 <=? c) && (c <=? 57))%N then Some (c - 48)%N
  else if ((97 <=? c) && (c <=? 122))%N then Some (c - 87)%N
  else if ((65 <=? c) && (c <=? 90))%N then Some (c - 55)%N
  else None.

Definition radix_digit (R c : N) : option N :=
  match digit_value c with
  | Some d => if (d <? R)%N then Some d else None
  | None => None
  end.

(** The value of the longest prefix of radix-[R] digits; [None] when the
    prefix is empty. *)
Fixpoint read_digits (R : N) (s : jsstring) (acc : option N) : option N :=
  match s with
  | c :: r =>
      match radix_digit R c with
      | Some d => read_digits R r (Some (default 0 acc * R + d)%N)
      | None => acc
      end
  | [] => acc
  end.

(** An optional sign. *)
Definition strip_sign (s : jsstring) : Z * jsstring :=
  match s with
  | 45%N :: r => (-1, r)
  | 43%N :: r => (1, r)
  | _ => (1, s)
  end.

(** The prefix 0x or 0X announces radix 16. *)
Definition strip_radix (s : jsstring) : N * jsstring :=
  match s with
  | 48%N :: x :: r =>
      if ((x =? 120) || (x =? 88))%N then (16%N, r) else (10%N, s)
  | _ => (10%N, s)
  end.

Definition parseInt_string (s : jsstring) : number :=
  let '(sign, s) := strip_sign (trim_start s) in
  let '(R, s) := strip_radix s in
  match read_digits R s None with
  | None => NaN
  | Some n => Num (sign * Z.of_N n)
  end.

(** [parseInt(v)] for a data attribute [v]: a string, or [undefined] when
    the attribute is missing, which ToString turns into "undefined". *)
Definition parseInt (v : option jsstring) : number :=
  parseInt_string (default (js "undefined") v).

(** *** Number::toString (radix 10) *)

Fixpoint uint_chars (d : Decimal.uint) : jsstring :=
  match d with
  | Nil => []
  | D0 l => 48%N :: uint_chars l
  | D1 l => 49%N :: uint_chars l
  | D2 l => 50%N :: uint_chars l
  | D3 l => 51%N :: uint_chars l
  | D4 l => 52%N :: uint_chars l
  | D5 l => 53%N :: uint_chars l
  | D6 l => 54%N :: uint_chars l
  | D7 l => 55%N :: uint_chars l
  | D8 l => 56%N :: uint_chars l
  | D9 l => 57%N :: uint_chars l
  end.

(** The decimal digits of a natural number, most significant first. *)
Definition digits (n : N) : jsstring := uint_chars (N.to_uint n).

Fixpoint strip_zeros (rev_digits : jsstring) : jsstring :=
  match rev_digits with
  | 48%N :: r => strip_zeros r
  | _ => rev_digits
  end.

(** Steps 6 to 10 of Number::toString on a positive value [s * 10^(n-k)],
    where [s] is written with the [k] digits [ds], the last one not 0. *)
Definition positional (ds : jsstring) (n : Z) : jsstring :=
  let k := Z.of_nat (length ds) in
  if (k <=? n) && (n <=? 21) then
    ds ++ repeat 48%N (Z.to_nat (n - k))
  else if (0 <? n) && (n <=? 21) then
    take (Z.to_nat n) ds ++ 46%N :: drop (Z.to_nat n) ds
  else if (-6 <? n) && (n <=? 0) then
    48%N :: 46%N :: repeat 48%N (Z.to_nat (- n)) ++ ds
  else
    let e := n - 1 in
    let mantissa :=
      match ds with
      | d :: ((_ :: _) as more) => d :: 46%N :: more
      | _ => ds
      end in
    mantissa ++ 101%N :: (if e <? 0 then 45%N else 43%N) :: digits (Z.abs_N e).

(** An integer below 10^21 is written with all its digits (step 6 with
    [k <= n <= 21]); a larger one in exponent notation. *)
Definition Z_toString (z : Z) : jsstring :=
  let ds := digits (Z.abs_N z) in
  let body :=
    if Z.abs z <? 10 ^ 21 then ds
    else positional (rev (strip_zeros (rev ds))) (Z.of_nat (length ds)) in
  if z <? 0 then 45%N :: body else body.

(** [m / 10^k] with [m] not a multiple of 10: a number with a fraction. *)
Definition decimal_toString (m : Z) (k : positive) : jsstring :=
  let ds := digits (Z.abs_N m) in
  let body := positional ds (Z.of_nat (length ds) - Z.pos k) in
  if m <? 0 then 45%N :: body else body.

Definition Number_toString (n : number) : jsstring :=
  match n with
  | NaN => js "NaN"
  | Num z => Z_toString z
  end.

End JS.

(** ** JSON: the text format of the persisted reviews *)

Module JSON.
Import JS.

(** The values JSON texts denote.  A number is an integer [JNum z], or
    [JDec m k] for [m / 10^k] with [k > 0] and [m] not a multiple of 10.
    The members of an object are listed in the order [JSON.stringify] and
    [for ... in] enumerate them. *)
#[warnings="-register-all"]
Inductive value :=
| JNull
| JBool (b : bool)
| JNum (z : Z)
| JDec (m : Z) (k : positive)
| JStr (s : jsstring)
| JArr (elements : list value)
| JObj (members : list (jsstring * value)).

(** *** JSON.stringify (no replacer, no indentation) *)

Definition hex_digit (d : N) : N :=
  if (d <? 10)%N then (48 + d)%N else (87 + d)%N.

(** [\uXXXX], four lower-case hexadecimal digits. *)
Definition unicode_escape (c : N) : jsstring :=
  [92; 117; hex_digit (c / 4096); hex_digit (c / 256 mod 16);
   hex_digit (c / 16 mod 16); hex_digit (c mod 16)]%N.

Definition is_lead (c : N) : bool := ((55296 <=? c) && (c <=? 56319))%N.
Definition is_trail (c : N) : bool := ((56320 <=? c) && (c <=? 57343))%N.

(** QuoteJSONString on one code point that is a single code unit. *)
Definition quote_unit (c : N) : jsstring :=
  if (c =? 8)%N then [92; 98]%N
  else if (c =? 9)%N then [92; 116]%N
  else if (c =? 10)%N then [92; 110]%N
  else if (c =? 12)%N then [92; 102]%N
  else if (c =? 13)%N then [92; 114]%N
  else if (c =? 34)%N then [92; 34]%N
  else if (c =? 92)%N then [92; 92]%N
  else if (c <? 32)%N || is_lead c || is_trail c then unicode_escape c
  else [c].

(** A surrogate pair is one code point and is copied; a lone surrogate is
    escaped. *)
Fixpoint quote_units (s : jsstring) : jsstring :=
  match s with
  | [] => []
  | c :: rest =>
      match rest with
      | d :: rest' =>
          if is_lead c && is_trail d then c :: d :: quote_units rest'
          else quote_unit c ++ quote_units rest
      | [] => quote_unit c
      end
  end.

Definition quote (s : jsstring) : jsstring :=
  34%N :: quote_units s ++ [34%N].

Fixpoint commas (parts : list jsstring) : jsstring :=
  match parts with
  | [] => []
  | [p] => p
  | p :: more => p ++ 44%N :: commas more
  end.

Fixpoint stringify (v : value) : jsstring :=
  match v with
  | JNull => js "null"
  | JBool true => js "true"
  | JBool false => js "false"
  | JNum z => Z_toString z
  | JDec m k => decimal_toString m k
  | JStr s => quote s
  | JArr l => 91%N :: commas (map stringify l) ++ [93%N]
  | JObj l =>
      123%N
      :: commas (map (λ kv, quote (fst kv) ++ 58%N :: stringify (snd kv)) l)
      ++ [125%N]
  end.

(** *** JSON.parse (no reviver) *)

Definition is_ws (c : N) : bool :=
  ((c =? 32) || (c =? 9) || (c =? 10) || (c =? 13))%N.

Fixpoint skip_ws (s : jsstring) : jsstring :=
  match s with
  | c :: r => if is_ws c then skip_ws r else s
  | [] => []
  end.

Definition is_digit (c : N) : bool := ((48 <=? c) && (c <=? 57))%N.

Definition hex_value (c : N) : option N := radix_digit 16 c.

Definition hex4 (a b c d : N) : option N :=
  match hex_value a, hex_value b, hex_value c, hex_value d with
  | Some x, Some y, Some z, Some w => Some (((x * 16 + y) * 16 + z) * 16 + w)%N
  | _, _, _, _ => None
  end.

Definition unescape (e : N) : option N :=
  if (e =? 34)%N then Some 34%N
  else if (e =? 92)%N then Some 92%N
  else if (e =? 47)%N then Some 47%N
  else if (e =? 98)%N then Some 8%N
  else if (e =? 102)%N then Some 12%N
  else if (e =? 110)%N then Some 10%N
  else if (e =? 114)%N then Some 13%N
  else if (e =? 116)%N then Some 9%N
  else None.

(** The code units of a string literal, read after its opening quote, and
    what follows the closing quote. *)
Fixpoint parse_string (s : jsstring) : option (jsstring * jsstring) :=
  match s with
  | [] => None
  | c :: rest =>
      if (c =? 34)%N then Some ([], rest)
      else if (c =? 92)%N then
        match rest with
        | [] => None
        | e :: rest' =>
            if (e =? 117)%N then
              match rest' with
              | h1 :: h2 :: h3 :: h4 :: rest'' =>
                  match hex4 h1 h2 h3 h4 with
                  | Some u =>
                      match parse_string rest'' with
                      | Some (str, r) => Some (u :: str, r)
                      | None => None
                      end
                  | None => None
                  end
              | _ => None
              end
            else
              match unescape e with
              | Some u =>
                  match parse_string rest' with
                  | Some (str, r) => Some (u :: str, r)
                  | None => None
                  end
              | None => None
              end
        end
      else if (c <? 32)%N then None
      else
        match parse_string rest with
        | Some (str, r) => Some (c :: str, r)
        | None => None
        end
  end.

Fixpoint span_digits (s : jsstring) : jsstring * jsstring :=
  match s with
  | c :: r =>
      if is_digit c then let '(ds, r') := span_digits r in (c :: ds, r')
      else ([], s)
  | [] => ([], [])
  end.

Definition digits_value (ds : jsstring) : N :=
  fold_left (λ acc c, acc * 10 + (c - 48))%N ds 0%N.

(** [m / 10^k], with the zeros at the end of [m] taken off. *)
Fixpoint reduce (k : nat) (m : N) : N * nat :=
  match k with
  | O => (m, O)
  | S k' => if (m mod 10 =? 0)%N then reduce k' (m / 10)%N else (m, k)
  end.

(** The number [± m * 10^e]. *)
Definition number_value (negative : bool) (m : N) (e : Z) : value :=
  let sign := if negative then -1 else 1 in
  if 0 <=? e then JNum (sign * Z.of_N m * 10 ^ e)
  else
    match reduce (Z.to_nat (- e)) m with
    | (m', O) => JNum (sign * Z.of_N m')
    | (m', S k) => JDec (sign * Z.of_N m') (Pos.of_succ_nat k)
    end.

(** The integer part: 0 alone, or digits that do not start with 0. *)
Definition parse_integer (s : jsstring) : option (jsstring * jsstring) :=
  match s with
  | c :: r =>
      if (c =? 48)%N then Some ([c], r)
      else if is_digit c then
        let '(ds, r') := span_digits r in Some (c :: ds, r')
      else None
  | [] => None
  end.

(** An optional fraction: a dot and at least one digit. *)
Definition parse_fraction (s : jsstring) : option (jsstring * jsstring) :=
  match s with
  | 46%N :: r =>
      match span_digits r with
      | ([], _) => None
      | (ds, r') => Some (ds, r')
      end
  | _ => Some ([], s)
  end.

(** An optional exponent: e or E, an optional sign, at least one digit. *)
Definition parse_exponent (s : jsstring) : option (Z * jsstring) :=
  match s with
  | c :: r =>
      if ((c =? 101) || (c =? 69))%N then
        let '(sign, r1) :=
          match r with
          | 45%N :: r1 => (-1, r1)
          | 43%N :: r1 => (1, r1)
          | _ => (1, r)
          end in
        match span_digits r1 with
        | ([], _) => None
        | (ds, r2) => Some (sign * Z.of_N (digits_value ds), r2)
        end
      else Some (0, s)
  | [] => Some (0, s)
  end.

Definition strip_minus (s : jsstring) : bool * jsstring :=
  match s with
  | 45%N :: r => (true, r)
  | _ => (false, s)
  end.

(** A number: an optional minus sign, the integer part, an optional
    fraction and an optional exponent. *)
Definition parse_number (s : jsstring) : option (value * jsstring) :=
  let '(negative, s) := strip_minus s in
  match parse_integer s with
  | Some (int, s) =>
      match parse_fraction s with
      | Some (frac, s) =>
          match parse_exponent s with
          | Some (e, s) =>
              Some (number_value negative (digits_value (int ++ frac))
                      (e - Z.of_nat (length frac)), s)
          | None => None
          end
      | None => None
      end
  | None => None
  end.

Fixpoint strip_prefix (p s : jsstring) : option jsstring :=
  match p, s with
  | [], _ => Some s
  | c :: p', d :: s' => if (c =? d)%N then strip_prefix p' s' else None
  | _ :: _, [] => None
  end.

(** A key that is an array index: the canonical decimal writing of an
    integer below 2^32 - 1.  Such keys are enumerated first, in
    ascending order. *)
Definition array_index (k : jsstring) : option N :=
  match k with
  | [] => None
  | c :: r =>
      if forallb is_digit k && ((negb (c =? 48)%N) || bool_decide (r = [])) then
        let n := digits_value k in
        if (n <? 2 ^ 32 - 1)%N then Some n else None
      else None
  end.

Fixpoint replace_value (k : jsstring) (v : value)
    (o : list (jsstring * value)) : list (jsstring * value) :=
  match o with
  | [] => []
  | (k', v') :: o' =>
      if bool_decide (k' = k) then (k, v) :: o'
      else (k', v') :: replace_value k v o'
  end.

Fixpoint insert_index (i : N) (k : jsstring) (v : value)
    (o : list (jsstring * value)) : list (jsstring * value) :=
  match o with
  | [] => [(k, v)]
  | (k', v') :: o' =>
      match array_index k' with
      | Some j =>
          if (i <? j)%N then (k, v) :: o
          else (k', v') :: insert_index i k v o'
      | None => (k, v) :: o
      end
  end.

(** CreateDataProperty on an ordinary object: an existing key keeps its
    place and takes the new value; a new key goes among the array indices
    or, otherwise, last. *)
Definition define_property (o : list (jsstring * value))
    (kv : jsstring * value) : list (jsstring * value) :=
  let '(k, v) := kv in
  if bool_decide (k ∈ o.*1) then replace_value k v o
  else
    match array_index k with
    | Some i => insert_index i k v o
    | None => o ++ [(k, v)]
    end.

Definition make_object (ms : list (jsstring * value)) : value :=
  JObj (foldl define_property [] ms).

(** The code unit [c], after optional white space. *)
Definition expect (c : N) (s : jsstring) : option jsstring :=
  match skip_ws s with
  | x :: r => if (x =? c)%N then Some r else None
  | [] => None
  end.

(** Recursive descent.  [fuel] bounds the depth of the calls; [parse]
    below gives enough of it for any text. *)
Fixpoint parse_value (fuel : nat) (s : jsstring) : option (value * jsstring) :=
  match fuel with
  | O => None
  | S fuel =>
      match skip_ws s with
      | [] => None
      | c :: r =>
          if (c =? 123)%N then
            match expect 125 r with
            | Some r' => Some (JObj [], r')
            | None =>
                match parse_members fuel r with
                | Some (ms, r') => Some (make_object ms, r')
                | None => None
                end
            end
          else if (c =? 91)%N then
            match expect 93 r with
            | Some r' => Some (JArr [], r')
            | None =>
                match parse_elements fuel r with
                | Some (vs, r') => Some (JArr vs, r')
                | None => None
                end
            end
          else if (c =? 34)%N then
            match parse_string r with
            | Some (str, r') => Some (JStr str, r')
            | None => None
            end
          else if (c =? 116)%N then
            match strip_prefix (js "rue") r with
            | Some r' => Some (JBool true, r')
            | None => None
            end
          else if (c =? 102)%N then
            match strip_prefix (js "alse") r with
            | Some r' => Some (JBool false, r')
            | None => None
            end
          else if (c =? 110)%N then
            match strip_prefix (js "ull") r with
            | Some r' => Some (JNull, r')
            | None => None
            end
          else parse_number (c :: r)
      end
  end
with parse_elements (fuel : nat) (s : jsstring)
    : option (list value * jsstring) :=
  match fuel with
  | O => None
  | S fuel =>
      match parse_value fuel s with
      | Some (v, r) =>
          match expect 44 r with
          | Some r' =>
              match parse_elements fuel r' with
              | Some (vs, r'') => Some (v :: vs, r'')
              | None => None
              end
          | None =>
              match expect 93 r with
              | Some r' => Some ([v], r')
              | None => None
              end
          end
      | None => None
      end
  end
with parse_members (fuel : nat) (s : jsstring)
    : option (list (jsstring * value) * jsstring) :=
  match fuel with
  | O => None
  | S fuel =>
      match expect 34 s with
      | Some r =>
          match parse_string r with
          | Some (k, r1) =>
              match expect 58 r1 with
              | Some r2 =>
                  match parse_value fuel r2 with
                  | Some (v, r3) =>
                      match expect 44 r3 with
                      | Some r4 =>
                          match parse_members fuel r4 with
                          | Some (ms, r5) => Some ((k, v) :: ms, r5)
                          | None => None
                          end
                      | None =>
                          match expect 125 r3 with
                          | Some r4 => Some ([(k, v)], r4)
                          | None => None
                          end
                      end
                  | None => None
                  end
              | None => None
              end
          | None => None
          end
      | None => None
      end
  end.

(** [JSON.parse(text)]: one value between optional white space, or a
    SyntaxError. *)
Definition parse (text : jsstring) : completion value :=
  match parse_value (2 * length text + 1) text with
  | Some (v, r) =>
      match skip_ws r with
      | [] => Normal v
      | _ :: _ => Throw SyntaxError
      end
  | None => Throw SyntaxError
  end.

End JSON.

(** ** window.localStorage *)

Module Storage.
Import JS.

(** The stored items and the room the user agent grants them, counted in
    code units of keys and values. *)
Record t := { entries : gmap jsstring jsstring; quota : nat }.

Definition usage (m : gmap jsstring jsstring) : nat :=
  map_fold (λ k v n, length k + length v + n)%nat 0%nat m.

(** [getItem(key)]: the stored string, or [null]. *)
Definition getItem (key : jsstring) (st : t) : option jsstring :=
  entries st !! key.

(** [setItem(key, value)] throws when the new value does not fit. *)
Definition setItem (key value : jsstring) : method t unit :=
  λ st,
    let m := <[key := value]> (entries st) in
    if decide (usage m ≤ quota st)%nat
    then (Normal tt, {| entries := m; quota := quota st |})
    else (Throw QuotaExceededError, st).

End Storage.

(** ** The notification surface *)

Module Notifications.
Import JS.

(** A message and its type (info, success, warning, error), as appended
    to the notification container by [NotificationSystem.show]. *)
Definition notification : Type := jsstring * jsstring.

(** The global [showNotification(message, type)]. *)
Definition showNotification (message type : string)
    (shown : list notification) : list notification :=
  shown ++ [(js message, js type)].

End Notifications.

(** ** class ProductFilter *)

Module ProductFilter.
Import JS.

(** A [.product-card] element: its data attributes ([undefined] when the
    attribute is missing), the text of its title and description, and
    whether [applyFilters] left it displayed. *)
Record card := {
  dataset_category : option jsstring;
  dataset_material : option jsstring;
  dataset_price : option jsstring;
  product_title : jsstring;
  product_description : jsstring;
  displayed : bool
}.

(** A [.filter-btn] element. *)
Record button := {
  dataset_filter : option jsstring;
  dataset_value : option jsstring
}.

(** What a property of [this.filters] holds: a string, written by the
    constructor or read from the [data-value] of a button; [undefined],
    for a button without that attribute; a number, written by the price
    slider. *)
Inductive setting :=
| Undefined
| Text (s : jsstring)
| Number (n : number).

(** A data attribute, as a value. *)
Definition attribute (a : option jsstring) : setting :=
  match a with
  | Some s => Text s
  | None => Undefined
  end.

(** [a === b]. *)
Definition same (a b : setting) : bool :=
  match a, b with
  | Undefined, Undefined => true
  | Text s, Text s' => bool_decide (s = s')
  | Number n, Number m => strict_eq n m
  | _, _ => false
  end.

(** ToBoolean: [undefined], the empty string, [NaN] and 0 are falsy. *)
Definition to_boolean (v : setting) : bool :=
  match v with
  | Undefined => false
  | Text s => negb (bool_decide (s = []))
  | Number n => truthy n
  end.

(** [this.filters] is an object used as a map: the buttons write the
    property their [data-filter] names, whatever it is. *)
Record t := {
  filters : gmap jsstring setting;
  searchTerm : option jsstring;
  cards : list card
}.

(** Reading [this.filters.name]: [undefined] when absent. *)
Definition filter_of (self : t) (name : string) : setting :=
  default Undefined (filters self !! js name).

Definition constructor (page : list card) : t :=
  {| filters :=
       <[js "category" := Text (js "all")]>
         (<[js "priceRange" := Text (js "all")]>
            (<[js "material" := Text (js "all")]>
               (<[js "color" := Text (js "all")]> ∅)));
     searchTerm := None;
     cards := page |}.

Section Platform.
(** [String.prototype.toLowerCase], the Unicode case mapping of the
    platform: the methods below only pass strings through it. *)
Variable toLowerCase : jsstring → jsstring.

(** [n > s] for a number and a string, which the platform decides
    after ToNumber of the string.  It is met only if a button has
    written a string to [maxPrice]. *)
Variable gt_text : number → jsstring → bool.

(** [price > max], for the number [price]. *)
Definition above (price : number) (max : setting) : bool :=
  match max with
  | Undefined => false
  | Text s => gt_text price s
  | Number m => gt price m
  end.

(** The body of the loop of [applyFilters]: the value of [show] when
    the card reaches the show/hide step. *)
Definition show_card (self : t) (c : card) : bool :=
  let show := true in
  (* Category filter *)
  let show :=
    if negb (same (filter_of self "category") (Text (js "all"))) then
      let category := attribute (dataset_category c) in
      if negb (same category (filter_of self "category")) then false
      else show
    else show in
  (* Material filter *)
  let show :=
    if negb (same (filter_of self "material") (Text (js "all"))) then
      let material := attribute (dataset_material c) in
      if negb (same material (filter_of self "material")) then false
      else show
    else show in
  (* Search filter *)
  let show :=
    match searchTerm self with
    | Some ((_ :: _) as term) =>
        let title := toLowerCase (product_title c) in
        let description := toLowerCase (product_description c) in
        if negb (includes title term) && negb (includes description term)
        then false
        else show
    | _ => show
    end in
  (* Price filter *)
  let show :=
    if to_boolean (filter_of self "maxPrice") then
      let price := parseInt (dataset_price c) in
      if above price (filter_of self "maxPrice") then false else show
    else show in
  show.

Definition set_displayed (b : bool) (c : card) : card :=
  {| dataset_category := dataset_category c;
     dataset_material := dataset_material c;
     dataset_price := dataset_price c;
     product_title := product_title c;
     product_description := product_description c;
     displayed := b |}.

Definition applyFilters : method t unit :=
  modify (λ self,
    {| filters := filters self;
       searchTerm := searchTerm self;
       cards := map (λ c, set_displayed (show_card self c) c) (cards self) |}).

(** [this.filters[filterType] = filterValue]: a missing [data-filter]
    names the property "undefined".  The attribute is a word of the
    markup, from which the selector of the buttons that lose the
    class active is built. *)
Definition handleFilterClick (b : button) : method t unit :=
  let filterType := default (js "undefined") (dataset_filter b) in
  let filterValue := attribute (dataset_value b) in
  modify (λ self,
    {| filters := <[filterType := filterValue]> (filters self);
       searchTerm := searchTerm self;
       cards := cards self |});;
  applyFilters.

Definition handleSearch (term : jsstring) : method t unit :=
  modify (λ self,
    {| filters := filters self;
       searchTerm := Some (toLowerCase term);
       cards := cards self |});;
  applyFilters.

(** [value] is the value of the range input, a string; the page has
    the [#price-display] element that shows it. *)
Definition handlePriceFilter (value : jsstring) : method t unit :=
  modify (λ self,
    {| filters := <[js "maxPrice" := Number (parseInt (Some value))]> (filters self);
       searchTerm := searchTerm self;
       cards := cards self |});;
  applyFilters.
End Platform.

(** The case mapping on the code units below 256 (Basic Latin and
    Latin-1 Supplement), used to run the methods on examples. *)
Definition latin1_toLowerCase (s : jsstring) : jsstring :=
  map (λ c,
    if ((65 <=? c) && (c <=? 90))%N
       || ((192 <=? c) && (c <=? 222) && negb (c =? 215))%N
    then (c + 32)%N else c) s.

(** [n > s] on the strings that are decimal numerals, where ToNumber
    and [parseInt] agree; used to run the methods on examples. *)
Definition gt_numeral (n : number) (s : jsstring) : bool :=
  gt n (parseInt (Some s)).
End ProductFilter.

(** ** class ProductComparison *)

Module ProductComparison.
Import JS.

(** The compare bar, as [updateCompareBar] leaves it. *)
Record bar := {
  compare_count : nat;
  btn_compare_disabled : bool;
  bar_active : bool
}.

(** A product id is the [data-product-id] of a card.  The cards of the
    page have one, and a title, which is what [updateCompareBar] looks
    up for every product of the list. *)
Record t := {
  compareList : list jsstring;
  maxCompare : nat;
  compare_bar : bar
}.

Definition constructor : t :=
  {| compareList := [];
     maxCompare := 3;
     compare_bar :=
       {| compare_count := 0; btn_compare_disabled := true; bar_active := false |} |}.

Definition updateCompareBar : method t unit :=
  modify (λ self,
    {| compareList := compareList self;
       maxCompare := maxCompare self;
       compare_bar :=
         {| compare_count := length (compareList self);
            btn_compare_disabled := bool_decide (length (compareList self) < 2)%nat;
            bar_active := bool_decide (0 < length (compareList self))%nat |} |}).

Definition set_compareList (l : list jsstring) : method t unit :=
  modify (λ self,
    {| compareList := l;
       maxCompare := maxCompare self;
       compare_bar := compare_bar self |}).

Definition removeFromCompare (productId : jsstring) : method t unit :=
  self ← get;
  set_compareList
    (filter (λ id, id ≠ productId) (compareList self));;
  updateCompareBar.

(** [productId] is read from the card of the clicked button.  The last
    branch calls [this.showNotification], which the class does not
    define: calling [undefined] throws a TypeError. *)
Definition addToCompare (productId : jsstring) : method t unit :=
  self ← get;
  if bool_decide (productId ∈ compareList self) then
    removeFromCompare productId
  else if bool_decide (length (compareList self) < maxCompare self)%nat then
    set_compareList (compareList self ++ [productId]);;
    updateCompareBar
  else
    throw TypeError.

Definition clearCompare : method t unit :=
  set_compareList [];;
  updateCompareBar.

End ProductComparison.

(** ** A review, as [submitReview] builds it *)

Module Review.
Import JS JSON.

Record t := {
  id : Z;
  rating : Z;
  title : jsstring;
  review : jsstring;
  name : jsstring;
  email : jsstring;
  recommend : bool;
  date : jsstring;
  helpful : Z;
  images : list jsstring
}.

(** [review.helpful++] *)
Definition increment_helpful (r : t) : t :=
  {| id := id r; rating := rating r; title := title r; review := review r;
     name := name r; email := email r; recommend := recommend r;
     date := date r; helpful := helpful r + 1; images := images r |}.

(** The object as a JSON value: the properties in the order of the
    object literal. *)
Definition toJSON (r : t) : value :=
  JObj [(js "id", JNum (id r));
        (js "rating", JNum (rating r));
        (js "title", JStr (title r));
        (js "review", JStr (review r));
        (js "name", JStr (name r));
        (js "email", JStr (email r));
        (js "recommend", JBool (recommend r));
        (js "date", JStr (date r));
        (js "helpful", JNum (helpful r));
        (js "images", JArr (map JStr (images r)))].

End Review.

(** ** class ReviewSystem *)

Module ReviewSystem.
Import JS Notifications.

(** One [.rating-bar]: the width of its fill, in percent, and its count. *)
Record rating_bar := { fill_width : Q; count_text : nat }.

(** The [.review-summary] block: [averageRating] (shown with one
    decimal), the number of stars lit, [totalReviews], and the bars by
    their [data-stars]. *)
Record summary := {
  rating_number : Q;
  rating_stars : Z;
  rating_count : nat;
  breakdown : gmap Z rating_bar
}.

(** [style.display] of an element: not set, 'block' or 'none'. *)
Inductive display := display_unset | display_block | display_none.

Global Instance display_eq_dec : EqDecision display.
Proof. solve_decision. Defined.

(** A [.review-item] of the list: the review it was rendered from, its
    [data-rating], its display style and its Helpful button. *)
Record item := {
  rendered : Review.t;
  dataset_rating : jsstring;
  style_display : display;
  helpful_text : Z;
  helpful_disabled : bool
}.

Record t := {
  reviews : list Review.t;
  localStorage : Storage.t;
  review_summary : summary;
  reviews_list : list item;
  active_filter : option jsstring;
  notifications : list notification
}.

Definition set_reviews (f : list Review.t → list Review.t) (self : t) : t :=
  {| reviews := f (reviews self); localStorage := localStorage self;
     review_summary := review_summary self; reviews_list := reviews_list self;
     active_filter := active_filter self; notifications := notifications self |}.

Definition set_localStorage (ls : Storage.t) (self : t) : t :=
  {| reviews := reviews self; localStorage := ls;
     review_summary := review_summary self; reviews_list := reviews_list self;
     active_filter := active_filter self; notifications := notifications self |}.

Definition set_review_summary (s : summary) (self : t) : t :=
  {| reviews := reviews self; localStorage := localStorage self;
     review_summary := s; reviews_list := reviews_list self;
     active_filter := active_filter self; notifications := notifications self |}.

Definition set_reviews_list (f : list item → list item) (self : t) : t :=
  {| reviews := reviews self; localStorage := localStorage self;
     review_summary := review_summary self; reviews_list := f (reviews_list self);
     active_filter := active_filter self; notifications := notifications self |}.

Definition set_active_filter (a : option jsstring) (self : t) : t :=
  {| reviews := reviews self; localStorage := localStorage self;
     review_summary := review_summary self; reviews_list := reviews_list self;
     active_filter := a; notifications := notifications self |}.

Definition notify (message type : string) : method t unit :=
  modify (λ self,
    {| reviews := reviews self; localStorage := localStorage self;
       review_summary := review_summary self; reviews_list := reviews_list self;
       active_filter := active_filter self;
       notifications := showNotification message type (notifications self) |}).

(** The key of the persisted collection. *)
Definition storage_key : jsstring := js "bespoke-reviews".

(** [saved ? JSON.parse(saved) : []]: [null] and the empty string are
    falsy. *)
Definition loadReviews (ls : Storage.t) : completion JSON.value :=
  let saved := Storage.getItem storage_key ls in
  match saved with
  | Some ((_ :: _) as text) => JSON.parse text
  | _ => Normal (JSON.JArr [])
  end.

Definition saveReviews : method t unit :=
  self ← get;
  zoom localStorage set_localStorage
    (Storage.setItem storage_key
       (JSON.stringify (JSON.JArr (map Review.toJSON (reviews self))))).

(** The markup of [createReviewSection]: 0.0, no star, 0 reviews, five
    empty bars; the filter buttons, the first one active. *)
Definition empty_bar : rating_bar := {| fill_width := 0; count_text := 0 |}.

Definition createReviewSection : summary :=
  {| rating_number := 0;
     rating_stars := 0;
     rating_count := 0;
     breakdown :=
       <[5 := empty_bar]> (<[4 := empty_bar]> (<[3 := empty_bar]>
         (<[2 := empty_bar]> (<[1 := empty_bar]> ∅)))) |}.

Definition filter_buttons : list jsstring :=
  [js "all"; js "5"; js "4"; js "3"; js "2"; js "1"; js "images"].

Fixpoint for_each {A} (l : list A) (body : A → method t unit) : method t unit :=
  match l with
  | [] => ret tt
  | x :: l' => body x;; for_each l' body
  end.

(** [Math.round]: the integer nearest to [x], the larger one on a tie. *)
Definition Math_round (x : Q) : Z := Qfloor (x + (1 # 2))%Q.

Definition updateSummary : method t unit :=
  self ← get;
  if bool_decide (length (reviews self) = 0%nat) then ret tt
  else
    let totalReviews := length (reviews self) in
    let total :=
      fold_left (λ sum review, sum + Review.rating review) (reviews self) 0 in
    let averageRating := (inject_Z total / inject_Z (Z.of_nat totalReviews))%Q in
    (* Update average rating and star display *)
    modify (λ self,
      set_review_summary
        {| rating_number := averageRating;
           rating_stars := Math_round averageRating;
           rating_count := totalReviews;
           breakdown := breakdown (review_summary self) |} self);;
    (* Update rating breakdown *)
    for_each [1; 2; 3; 4; 5] (λ i,
      let count :=
        length (filter (λ review, Review.rating review = i) (reviews self)) in
      let percentage :=
        if bool_decide (0 < totalReviews)%nat
        then (inject_Z (Z.of_nat count) / inject_Z (Z.of_nat totalReviews) * 100)%Q
        else 0%Q in
      self ← get;
      match breakdown (review_summary self) !! i with
      | None => throw TypeError
      | Some _ =>
          modify (λ self,
            set_review_summary
              {| rating_number := rating_number (review_summary self);
                 rating_stars := rating_stars (review_summary self);
                 rating_count := rating_count (review_summary self);
                 breakdown :=
                   <[i := {| fill_width := percentage; count_text := count |}]>
                     (breakdown (review_summary self)) |} self)
      end).

Definition createReviewElement (r : Review.t) : item :=
  {| rendered := r;
     dataset_rating := Z_toString (Review.rating r);
     style_display := display_unset;
     helpful_text := Review.helpful r;
     helpful_disabled := false |}.

Definition renderReviews : method t unit :=
  modify (λ self,
    set_reviews_list (λ _, map createReviewElement (reviews self)) self);;
  updateSummary.

Definition addReview (r : Review.t) : method t unit :=
  modify (set_reviews (λ l, r :: l));;
  saveReviews;;
  renderReviews;;
  updateSummary.

(** The review form when it is submitted: [form.dataset.rating], set by
    the star widget, and the entries of its FormData (the check box is
    'on' when ticked and has no entry otherwise). *)
Record form := {
  form_dataset_rating : option jsstring;
  form_title : jsstring;
  form_review : jsstring;
  form_name : jsstring;
  form_email : jsstring;
  form_recommend : option jsstring
}.

(** What the clock answers to [Date.now()] and to
    [new Date().toISOString()]. *)
Record clock := { Date_now : Z; Date_toISOString : jsstring }.

Definition submitReview (f : form) (c : clock) : method t unit :=
  let rating := parseInt (form_dataset_rating f) in
  if negb (truthy rating) then
    notify "Please select a rating" "error"
  else
    match rating with
    | NaN => ret tt
    | Num rating =>
        let review :=
          {| Review.id := Date_now c;
             Review.rating := rating;
             Review.title := form_title f;
             Review.review := form_review f;
             Review.name := form_name f;
             Review.email := form_email f;
             Review.recommend := bool_decide (form_recommend f = Some (js "on"));
             Review.date := Date_toISOString c;
             Review.helpful := 0;
             Review.images := [] |} in
        addReview review;;
        notify "Thank you for your review!" "success"
    end.

Definition set_style_display (d : display) (i : item) : item :=
  {| rendered := rendered i; dataset_rating := dataset_rating i;
     style_display := d; helpful_text := helpful_text i;
     helpful_disabled := helpful_disabled i |}.

(** [filter] is the [data-filter] of the clicked button, a word of the
    markup.  Every filter button loses the class active and the button
    with that attribute gets it; there is none for a word that is not
    in the markup, and the method throws. *)
Definition filterReviews (filter : jsstring) : method t unit :=
  modify (set_active_filter None);;
  (if bool_decide (filter ∈ filter_buttons)
   then modify (set_active_filter (Some filter))
   else throw TypeError);;
  modify (set_reviews_list (map (λ item,
    let show := true in
    let show :=
      if bool_decide (filter ≠ js "all") then
        if bool_decide (filter = js "images") then false
        else
          let rating := parseInt (Some (dataset_rating item)) in
          strict_eq rating (parseInt (Some filter))
      else show in
    set_style_display (if show then display_block else display_none) item))).

(** The reviews whose items are displayed, in the order of the list. *)
Definition displayed_reviews (self : t) : list Review.t :=
  map rendered
    (filter (λ i, style_display i ≠ display_none) (reviews_list self)).

(** [this.reviews.find(r => r.id === reviewId)] followed by
    [review.helpful++] on the object found, which stays in the array. *)
Fixpoint increment_found (reviewId : Z) (l : list Review.t) : list Review.t :=
  match l with
  | [] => []
  | r :: l' =>
      if bool_decide (Review.id r = reviewId)
      then Review.increment_helpful r :: l'
      else r :: increment_found reviewId l'
  end.

(** The Helpful button of the first item with [data-review-id]
    [reviewId] takes the new count and is disabled. *)
Fixpoint update_button (reviewId count : Z) (l : list item) : option (list item) :=
  match l with
  | [] => None
  | i :: l' =>
      if bool_decide (Review.id (rendered i) = reviewId)
      then Some ({| rendered := rendered i; dataset_rating := dataset_rating i;
                    style_display := style_display i; helpful_text := count;
                    helpful_disabled := true |} :: l')
      else cons i <$> update_button reviewId count l'
  end.

Definition markHelpful (reviewId : Z) : method t unit :=
  self ← get;
  match List.find (λ r, bool_decide (Review.id r = reviewId)) (reviews self) with
  | Some review =>
      modify (set_reviews (increment_found reviewId));;
      saveReviews;;
      (* Update button text *)
      self ← get;
      match update_button reviewId (Review.helpful review + 1) (reviews_list self) with
      | None => throw TypeError
      | Some items =>
          modify (set_reviews_list (λ _, items));;
          notify "Thank you for your feedback!" "success"
      end
  | None => ret tt
  end.

Definition reportReview (reviewId : Z) : method t unit :=
  notify "Review has been reported for moderation" "info".

(** The state the constructor builds once [loadReviews] has returned
    the collection [loaded]: the section is created and the reviews are
    rendered. *)
Definition init (loaded : list Review.t) (ls : Storage.t) : completion unit * t :=
  renderReviews
    {| reviews := loaded;
       localStorage := ls;
       review_summary := createReviewSection;
       reviews_list := [];
       active_filter := Some (js "all");
       notifications := [] |}.

End ReviewSystem.

(** ** class FeedbackWidget *)

Module FeedbackWidget.
Import JS Notifications.

(** The fields of [#feedback-form]: the value of the select, of the text
    area and of the email input. *)
Record form := {
  form_type : jsstring;
  form_message : jsstring;
  form_email : jsstring
}.

(** [form.reset()]: the select goes back to its first option, whose
    value is empty, and the two other fields to their empty default. *)
Definition form_reset : form :=
  {| form_type := []; form_message := []; form_email := [] |}.

Record t := {
  localStorage : Storage.t;
  panel_active : bool;
  feedback_form : form;
  notifications : list notification
}.

Definition set_localStorage (ls : Storage.t) (self : t) : t :=
  {| localStorage := ls; panel_active := panel_active self;
     feedback_form := feedback_form self; notifications := notifications self |}.

Definition set_panel_active (f : bool → bool) (self : t) : t :=
  {| localStorage := localStorage self; panel_active := f (panel_active self);
     feedback_form := feedback_form self; notifications := notifications self |}.

Definition set_feedback_form (f : form) (self : t) : t :=
  {| localStorage := localStorage self; panel_active := panel_active self;
     feedback_form := f; notifications := notifications self |}.

Definition notify (message type : string) : method t unit :=
  modify (λ self,
    {| localStorage := localStorage self; panel_active := panel_active self;
       feedback_form := feedback_form self;
       notifications := showNotification message type (notifications self) |}).

(** The markup of [createWidget]: the panel is closed, the form empty. *)
Definition constructor (ls : Storage.t) : t :=
  {| localStorage := ls; panel_active := false;
     feedback_form := form_reset; notifications := [] |}.

(** The object [submitFeedback] builds. *)
Record feedback := {
  type : jsstring;
  message : jsstring;
  email : jsstring;
  timestamp : jsstring;
  page : jsstring
}.

(** The value of a feedback for [JSON.stringify]: its properties in the
    order of the object literal. *)
Definition toJSON (f : feedback) : JSON.value :=
  JSON.JObj
    [(js "type", JSON.JStr (type f));
     (js "message", JSON.JStr (message f));
     (js "email", JSON.JStr (email f));
     (js "timestamp", JSON.JStr (timestamp f));
     (js "page", JSON.JStr (page f))].

Definition storage_key : jsstring := js "bespoke-feedback".

(** [c] is the clock read by [new Date()], [pathname] is
    [window.location.pathname].  What [JSON.parse] returns is used as an
    array: [push] is a method of arrays only, and calling it on any other
    value throws a TypeError. *)
Definition submitFeedback (c : ReviewSystem.clock) (pathname : jsstring)
  : method t unit :=
  self ← get;
  let formData := feedback_form self in
  let feedback :=
    {| type := form_type formData;
       message := form_message formData;
       email := form_email formData;
       timestamp := ReviewSystem.Date_toISOString c;
       page := pathname |} in
  (* Save to localStorage for demo purposes *)
  let text :=
    match Storage.getItem storage_key (localStorage self) with
    | Some ((_ :: _) as saved) => saved
    | _ => js "[]"
    end in
  match JSON.parse text with
  | Throw e => throw e
  | Normal (JSON.JArr existingFeedback) =>
      zoom localStorage set_localStorage
        (Storage.setItem storage_key
           (JSON.stringify (JSON.JArr (existingFeedback ++ [toJSON feedback]))));;
      notify "Thank you for your feedback!" "success";;
      modify (set_feedback_form form_reset);;
      modify (set_panel_active (λ _, false))
  | Normal _ => throw TypeError
  end.

(** The listeners of [bindEvents]: on the trigger, on the close button,
    on Cancel and on the form. *)
Definition trigger_click : method t unit :=
  modify (set_panel_active negb).

Definition close_click : method t unit :=
  modify (set_panel_active (λ _, false)).

Definition cancel_click : method t unit :=
  modify (set_panel_active (λ _, false));;
  modify (set_feedback_form form_reset).

Definition form_submit (c : ReviewSystem.clock) (pathname : jsstring)
  : method t unit :=
  submitFeedback c pathname.

End FeedbackWidget.

(** ** class StarRating *)

Module StarRating.
Import JS.

(** [a <= b] and [a < b] on numbers: false as soon as one side is [NaN]. *)
Definition le (a b : number) : bool :=
  match a, b with
  | Num x, Num y => x <=? y
  | _, _ => false
  end.

Definition lt (a b : number) : bool :=
  match a, b with
  | Num x, Num y => x <? y
  | _, _ => false
  end.

(** ToString of a number that is an integer or [NaN]. *)
Definition Number_toString (n : number) : jsstring :=
  match n with
  | NaN => js "NaN"
  | Num z => Z_toString z
  end.

(** A [span.star]: its [data-rating], the classes active and hover, and
    whether the listeners of [bindEvents] are attached to this element. *)
Record star := {
  dataset_rating : jsstring;
  active : bool;
  hover : bool;
  listening : bool
}.

Section Callback.

(** What [onRate] acts upon. *)
Context {E : Type}.

(** The [options] argument of the constructor; a property that was not
    given is [undefined]. *)
Record given := {
  given_maxStars : option number;
  given_initialRating : option number;
  given_readonly : option bool;
  given_size : option jsstring;
  given_onRate : option (number → E → E)
}.

(** [this.options]. *)
Record options := {
  maxStars : number;
  initialRating : number;
  readonly : bool;
  size : jsstring;
  onRate : option (number → E → E)
}.

(** The widget: its fields and what [render] leaves in the container,
    the stars and the rating text; [container_listening] tells whether
    the mouseleave listener of [bindEvents] is attached. *)
Record t := {
  this_options : options;
  currentRating : number;
  stars : list star;
  rating_text : jsstring;
  container_listening : bool
}.

(** [texts[this.currentRating] || '']. *)
Definition getRatingText (self : t) : jsstring :=
  match currentRating self with
  | Num 0 => js "No rating"
  | Num 1 => js "Poor"
  | Num 2 => js "Fair"
  | Num 3 => js "Good"
  | Num 4 => js "Very Good"
  | Num 5 => js "Excellent"
  | _ => []
  end.

(** The values [i] takes in [for (let i = 1; i <= maxStars; i++)]. *)
Definition loop_indices (maxStars : number) : list Z :=
  match maxStars with
  | Num n => seqZ 1 n
  | NaN => []
  end.

(** [render] empties the container and fills it with new stars, to
    which no listener is attached. *)
Definition render (self : t) : t :=
  {| this_options := this_options self;
     currentRating := currentRating self;
     stars :=
       map (λ i,
         {| dataset_rating := Z_toString i;
            active := le (Num i) (currentRating self);
            hover := false;
            listening := false |})
         (loop_indices (maxStars (this_options self)));
     rating_text := getRatingText self;
     container_listening := container_listening self |}.

(** [bindEvents] attaches listeners to the stars that are in the
    container when it is called, and to the container. *)
Definition bindEvents (self : t) : t :=
  {| this_options := this_options self;
     currentRating := currentRating self;
     stars :=
       map (λ s,
         {| dataset_rating := dataset_rating s; active := active s;
            hover := hover s; listening := true |}) (stars self);
     rating_text := rating_text self;
     container_listening := true |}.

Definition init (self : t) : t :=
  let self := render self in
  if negb (readonly (this_options self)) then bindEvents self else self.

(** [a || b] on an option that holds a number, a boolean, a string. *)
Definition number_or (a : option number) (b : number) : number :=
  match a with
  | Some n => if truthy n then n else b
  | None => b
  end.

Definition string_or (a : option jsstring) (b : jsstring) : jsstring :=
  match a with
  | Some ((_ :: _) as s) => s
  | _ => b
  end.

Definition constructor (o : given) : t :=
  let options :=
    {| maxStars := number_or (given_maxStars o) (Num 5);
       initialRating := number_or (given_initialRating o) (Num 0);
       readonly := default false (given_readonly o);
       size := string_or (given_size o) (js "medium");
       onRate := given_onRate o |} in
  init {| this_options := options;
          currentRating := initialRating options;
          stars := [];
          rating_text := [];
          container_listening := false |}.

(** [stars.forEach((star, index) => ...)], [index] counted from [i]. *)
Fixpoint highlight_from (i : Z) (rating : number) (l : list star) : list star :=
  match l with
  | [] => []
  | s :: l' =>
      {| dataset_rating := dataset_rating s; active := active s;
         hover := lt (Num i) rating; listening := listening s |}
      :: highlight_from (i + 1) rating l'
  end.

Definition highlightStars (rating : number) (self : t) : t :=
  {| this_options := this_options self;
     currentRating := currentRating self;
     stars := highlight_from 0 rating (stars self);
     rating_text := rating_text self;
     container_listening := container_listening self |}.

Definition set_currentRating (rating : number) (self : t) : t :=
  {| this_options := this_options self;
     currentRating := rating;
     stars := stars self;
     rating_text := rating_text self;
     container_listening := container_listening self |}.

(** [setRating] acts on the widget and, through [onRate], on what the
    callback was made for. *)
Definition setRating (rating : number) (w : t * E) : t * E :=
  let (self, env) := w in
  let self := render (set_currentRating rating self) in
  match onRate (this_options self) with
  | Some callback => (self, callback rating env)
  | None => (self, env)
  end.

Definition getRating (self : t) : number := currentRating self.

(** The listeners of [bindEvents], as the page calls them: for an event
    on the star at position [k] of the container (from 0), and for the
    pointer leaving the container.  An element without listener lets
    the event pass. *)
Definition star_mouseenter (k : nat) (w : t * E) : t * E :=
  let (self, env) := w in
  match stars self !! k with
  | Some s =>
      if listening s
      then (highlightStars (parseInt (Some (dataset_rating s))) self, env)
      else w
  | None => w
  end.

Definition star_click (k : nat) (w : t * E) : t * E :=
  let (self, env) := w in
  match stars self !! k with
  | Some s =>
      if listening s then setRating (parseInt (Some (dataset_rating s))) w
      else w
  | None => w
  end.

Definition container_mouseleave (w : t * E) : t * E :=
  let (self, env) := w in
  if container_listening self
  then (highlightStars (currentRating self) self, env)
  else w.

End Callback.

End StarRating.

(** ** The review form of [ReviewSystem.showReviewForm] *)

Module ReviewForm.
Import JS.

(** [form.dataset.rating = rating]. *)
Definition set_dataset_rating (rating : number) (f : ReviewSystem.form)
  : ReviewSystem.form :=
  {| ReviewSystem.form_dataset_rating := Some (StarRating.Number_toString rating);
     ReviewSystem.form_title := ReviewSystem.form_title f;
     ReviewSystem.form_review := ReviewSystem.form_review f;
     ReviewSystem.form_name := ReviewSystem.form_name f;
     ReviewSystem.form_email := ReviewSystem.form_email f;
     ReviewSystem.form_recommend := ReviewSystem.form_recommend f |}.

(** The modal: the star widget of [#rating-input] and the form its
    [onRate] writes to, empty when the modal opens. *)
Definition modal : Type :=
  @StarRating.t ReviewSystem.form * ReviewSystem.form.

Definition showReviewForm : modal :=
  (StarRating.constructor
     {| StarRating.given_maxStars := None;
        StarRating.given_initialRating := None;
        StarRating.given_readonly := None;
        StarRating.given_size := None;
        StarRating.given_onRate := Some set_dataset_rating |},
   {| ReviewSystem.form_dataset_rating := None;
      ReviewSystem.form_title := [];
      ReviewSystem.form_review := [];
      ReviewSystem.form_name := [];
      ReviewSystem.form_email := [];
      ReviewSystem.form_recommend := None |}).

(** The listener of the text area: the counter and its colour. *)
Definition char_count (reviewText : jsstring) : jsstring * string :=
  let count := length reviewText in
  (Z_toString (Z.of_nat count) ++ js "/1000",
   if bool_decide (900 < count)%nat then "#e74c3c"%string else "#666"%string).

End ReviewForm.

(** ** ReviewSystem.escapeHtml *)

Module EscapeHtml.
Import JS.

(** The serialization of a text node, which is what [innerHTML] gives of
    an element whose [textContent] was set: the ampersand, the no-break
    space and the two angle brackets are written as character
    references, every other code unit as it is. *)
Definition escape_unit (c : N) : jsstring :=
  if (c =? 38)%N then js "&amp;"
  else if (c =? 160)%N then js "&nbsp;"
  else if (c =? 60)%N then js "&lt;"
  else if (c =? 62)%N then js "&gt;"
  else [c].

(** [div.textContent = text; return div.innerHTML]. *)
Definition escapeHtml (text : jsstring) : jsstring :=
  flat_map escape_unit text.

End EscapeHtml.

(** ** class ImageGallery *)

Module ImageGallery.
Import JS.

(** An element the user can click in the gallery: an image, with its
    [src] and [alt], or anything else. *)
Inductive target :=
| Img (src alt : jsstring)
| Other.

(** The gallery once constructed: whether the selector found an
    element, in which case the overlay was created and the listeners
    bound; the class active of the overlay; the zoomed image;
    [document.body.style.overflow]. *)
Record t := {
  gallery : bool;
  overlay_active : bool;
  zoom_src : jsstring;
  zoom_alt : jsstring;
  body_overflow : jsstring
}.

(** [overflow] is the style of the body when the page loads. *)
Definition constructor (found : bool) (overflow : jsstring) : t :=
  {| gallery := found; overlay_active := false;
     zoom_src := []; zoom_alt := []; body_overflow := overflow |}.

Definition openZoom (src alt : jsstring) (self : t) : t :=
  {| gallery := gallery self; overlay_active := true;
     zoom_src := src; zoom_alt := alt; body_overflow := js "hidden" |}.

Definition closeZoom (self : t) : t :=
  {| gallery := gallery self; overlay_active := false;
     zoom_src := zoom_src self; zoom_alt := zoom_alt self; body_overflow := [] |}.

(** Implementation for previous and next image navigation: none. *)
Definition prevImage (self : t) : t := self.
Definition nextImage (self : t) : t := self.

(** The listeners of [bindEvents], which are bound only when the
    gallery was found. *)
Definition gallery_click (e_target : target) (self : t) : t :=
  if gallery self then
    match e_target with
    | Img src alt => openZoom src alt self
    | Other => self
    end
  else self.

Definition zoom_close_click (self : t) : t :=
  if gallery self then closeZoom self else self.

(** [on_overlay] tells that the target of the click is the overlay
    itself, not the image or a button inside it. *)
Definition overlay_click (on_overlay : bool) (self : t) : t :=
  if gallery self then
    if on_overlay then closeZoom self else self
  else self.

Definition keydown (key : jsstring) (self : t) : t :=
  if gallery self then
    if overlay_active self then
      let self := if bool_decide (key = js "Escape") then closeZoom self else self in
      let self := if bool_decide (key = js "ArrowLeft") then prevImage self else self in
      let self := if bool_decide (key = js "ArrowRight") then nextImage self else self in
      self
    else self
  else self.

End ImageGallery.

(** ** setTimeout and clearTimeout *)

Module Timers.

(** A timer that was set and has not run: its handle, the time it is
    due (in milliseconds), and its task, which stands for the function
    given to [setTimeout] with what that closure holds. *)
Record timer (T : Type) := { id : nat; due : Z; task : T }.
Arguments id {T}.
Arguments due {T}.
Arguments task {T}.

(** The clock and the timers of the page, in the order they were set. *)
Record t (T : Type) := { now : Z; next_id : nat; pending : list (timer T) }.
Arguments now {T}.
Arguments next_id {T}.
Arguments pending {T}.

Section Tasks.
Context {T : Type}.

Definition start : t T := {| now := 0; next_id := 1; pending := [] |}.

(** [setTimeout(task, delay)]: a negative delay counts as 0; the handle
    is a fresh positive integer. *)
Definition setTimeout (f : T) (delay : Z) (q : t T) : nat * t T :=
  (next_id q,
   {| now := now q;
      next_id := S (next_id q);
      pending := pending q
                 ++ [{| id := next_id q; due := now q + Z.max 0 delay; task := f |}] |}).

(** [clearTimeout(handle)]: nothing happens for [undefined] or for a
    handle whose timer has run. *)
Definition clearTimeout (handle : option nat) (q : t T) : t T :=
  match handle with
  | Some i =>
      {| now := now q; next_id := next_id q;
         pending := filter (λ x, id x ≠ i) (pending q) |}
  | None => q
  end.

(** The timer that runs next: the one due first and, among those due at
    the same time, the one that was set first. *)
Fixpoint earliest (l : list (timer T)) : option (timer T) :=
  match l with
  | [] => None
  | x :: l' =>
      match earliest l' with
      | Some y => if due y <? due x then Some y else Some x
      | None => Some x
      end
  end.

(** The page when the timer [x] starts to run: the timer is no longer
    pending, and the clock is at its due time, or later if the page was
    busy. *)
Definition started (x : timer T) (q : t T) : t T :=
  {| now := Z.max (now q) (due x);
     next_id := next_id q;
     pending := filter (λ y, id y ≠ id x) (pending q) |}.

(** The clock moves to [time]. *)
Definition elapsed (time : Z) (q : t T) : t T :=
  {| now := Z.max (now q) time; next_id := next_id q; pending := pending q |}.

Section Loop.

(** The page: where its timers are, and what a task does when it runs. *)
Context {S : Type}.
Variable timers : S → t T.
Variable set_timers : t T → S → S.
Variable run : T → S → S.

(** The event loop up to [time]: the timers due by then run one after
    the other, each at its time, those they set included, and the clock
    ends at [time]; [fuel] is to be more than the number of timers that
    run. *)
Fixpoint run_until (fuel : nat) (time : Z) (s : S) : S :=
  match fuel with
  | O => s
  | Datatypes.S fuel' =>
      match earliest (pending (timers s)) with
      | Some x =>
          if due x <=? time
          then run_until fuel' time (run (task x) (set_timers (started x (timers s)) s))
          else set_timers (elapsed time (timers s)) s
      | None => set_timers (elapsed time (timers s)) s
      end
  end.

(** The event loop until no timer is left. *)
Fixpoint run_all (fuel : nat) (s : S) : S :=
  match fuel with
  | O => s
  | Datatypes.S fuel' =>
      match earliest (pending (timers s)) with
      | Some x => run_all fuel' (run (task x) (set_timers (started x (timers s)) s))
      | None => s
      end
  end.

End Loop.
End Tasks.

Arguments start {T}.

End Timers.

(** ** debounce *)

Module Debounce.
Import JS.

Section Func.

(** [A] is what the debounced function is called with, [E] what it
    acts upon. *)
Context {A E : Type}.
Variable func : A → E → E.
Variable wait : Z.

(** The closure that [debounce(func, wait)] returns: its variable
    [timeout], and the timers of the page, each of which is a [later]
    holding the [args] of its call. *)
Record t := {
  timeout : option nat;
  timers : Timers.t A;
  env : E
}.

Definition set_timers (q : Timers.t A) (self : t) : t :=
  {| timeout := timeout self; timers := q; env := env self |}.


(** [later]: the task of the timer. *)
Definition later (args : A) (self : t) : t :=
  let self := set_timers (Timers.clearTimeout (timeout self) (timers self)) self in
  {| timeout := timeout self; timers := timers self; env := func args (env self) |}.



(** The page once every timer has run. *)
Definition settle (self : t) : t :=
  Timers.run_all timers set_timers later
    (length (Timers.pending (timers self))) self.

End Func.

Arguments t : clear implicits.

End Debounce.

(** ** class ProductFilter: the cards being shown and hidden *)

Module ProductGrid.
Import JS.

(** The inline style of a card, as far as [applyFilters] writes it.  A
    card has none when the page loads: the [style] attribute of a card
    then contains "block" exactly when its display is 'block'. *)
Inductive display := display_block | display_none.

Global Instance card_display_eq_dec : EqDecision display.
Proof. solve_decision. Defined.

Record style := {
  style_display : option display;
  style_opacity : option bool
}.

(** The functions given to [setTimeout], each with the card it holds,
    which is told by its position in the page. *)
Inductive task :=
| fade_in (card : nat)
| hide (card : nat).

Global Instance task_eq_dec : EqDecision task.
Proof. solve_decision. Defined.

(** The filter with its page: the style of each card, in the order of
    the cards; the timers; the text of [#results-count] when the page
    has that element. *)
Record t := {
  product_filter : ProductFilter.t;
  styles : list style;
  timers : Timers.t task;
  results_count : option jsstring
}.

Definition set_timers (q : Timers.t task) (self : t) : t :=
  {| product_filter := product_filter self; styles := styles self; timers := q;
     results_count := results_count self |}.

Definition set_filter (f : ProductFilter.t) (self : t) : t :=
  {| product_filter := f; styles := styles self; timers := timers self;
     results_count := results_count self |}.

Definition set_style (card : nat) (f : style → style) (self : t) : t :=
  {| product_filter := product_filter self;
     styles := alter f card (styles self);
     timers := timers self;
     results_count := results_count self |}.

(** What a timer does when it runs. *)
Definition run (k : task) (self : t) : t :=
  match k with
  | fade_in card =>
      set_style card
        (λ s, {| style_display := style_display s; style_opacity := Some true |}) self
  | hide card =>
      set_style card
        (λ s, {| style_display := Some display_none;
                 style_opacity := style_opacity s |}) self
  end.

(** The cards that [.product-card[style*="block"]] selects. *)
Definition updateResultsCount (self : t) : t :=
  let visibleProducts :=
    length (filter (λ s, style_display s = Some display_block) (styles self)) in
  {| product_filter := product_filter self; styles := styles self; timers := timers self;
     results_count :=
       match results_count self with
       | Some _ =>
           Some (Z_toString (Z.of_nat visibleProducts) ++ js " products found")
       | None => None
       end |}.

Definition loadProducts (self : t) : t := updateResultsCount self.

Section Platform.
Variable toLowerCase : jsstring → jsstring.
Variable gt_text : number → jsstring → bool.

(** The show/hide step of the loop of [applyFilters], for the card at
    position [card]. *)
Definition show_or_hide (card : nat) (show : bool) (self : t) : t :=
  if show then
    let self :=
      set_style card (λ _, {| style_display := Some display_block;
                              style_opacity := Some false |}) self in
    set_timers (Timers.setTimeout (fade_in card) 50 (timers self)).2 self
  else
    let self :=
      set_style card (λ s, {| style_display := style_display s;
                              style_opacity := Some false |}) self in
    set_timers (Timers.setTimeout (hide card) 300 (timers self)).2 self.

Fixpoint forEach (card : nat) (cards : list ProductFilter.card) (self : t) : t :=
  match cards with
  | [] => self
  | c :: cards' =>
      forEach (S card) cards'
        (show_or_hide card
           (ProductFilter.show_card toLowerCase gt_text (product_filter self) c) self)
  end.

Definition applyFilters (self : t) : t :=
  updateResultsCount (forEach 0 (ProductFilter.cards (product_filter self)) self).

(** The handlers: the filters are written as in [ProductFilter], then
    the cards are shown and hidden. *)
Definition handleFilterClick (b : ProductFilter.button) (self : t) : t :=
  applyFilters
    (set_filter
       (exec (ProductFilter.handleFilterClick toLowerCase gt_text b) (product_filter self))
       self).

Definition handleSearch (term : jsstring) (self : t) : t :=
  applyFilters
    (set_filter
       (exec (ProductFilter.handleSearch toLowerCase gt_text term) (product_filter self))
       self).

Definition handlePriceFilter (value : jsstring) (self : t) : t :=
  applyFilters
    (set_filter
       (exec (ProductFilter.handlePriceFilter toLowerCase gt_text value) (product_filter self))
       self).

End Platform.

(** The page when [ProductFilter] is constructed: no card has an
    inline style, no timer is set, and [init] ends on [loadProducts]. *)
Definition constructor (page : list ProductFilter.card) (counter : option jsstring)
  : t :=
  loadProducts
    {| product_filter := ProductFilter.constructor page;
       styles := map (λ _, {| style_display := None; style_opacity := None |}) page;
       timers := Timers.start;
       results_count := counter |}.

(** The page at [time], once the timers due by then have run. *)
Definition at_time (time : Z) (self : t) : t :=
  Timers.run_until timers set_timers run
    (S (length (Timers.pending (timers self)))) time self.

(** The page once every timer has run. *)
Definition settle (self : t) : t :=
  Timers.run_all timers set_timers run
    (length (Timers.pending (timers self))) self.

End ProductGrid.

(** ** class NotificationSystem *)

Module NotificationSystem.
Import JS.

(** A [.notification] element: its class name as [show] writes it, the
    message in its markup (text without markup, as every caller in the
    file passes it), whether [classList.add] has been called with 'show'
    and with 'hide', and whether its [parentNode] is the container
    ([false] for [null]). *)
Record notification := {
  className : jsstring;
  message : jsstring;
  show_class : bool;
  hide_class : bool;
  parentNode : bool
}.

(** The functions given to [setTimeout]; each holds the notification of
    its closure, by its position among those created. *)
Inductive task :=
  | add_show (n : nat)
  | auto_remove (n : nat)
  | detach (n : nat).

(** The notifications created so far, in the order of their creation,
    and the timers of the page. *)
Record t := {
  created : list notification;
  timers : Timers.t task
}.

Definition set_timers (q : Timers.t task) (self : t) : t :=
  {| created := created self; timers := q |}.

Definition set_created (l : list notification) (self : t) : t :=
  {| created := l; timers := timers self |}.

(** The children of the container: [appendChild] puts a notification
    last, [removeChild] takes it out. *)
Definition children (self : t) : list notification :=
  filter (λ e, parentNode e = true) (created self).

(** [constructor], with [createContainer]: an empty container. *)
Definition constructor : t := {| created := []; timers := Timers.start |}.

Definition classList_add_show (e : notification) : notification :=
  {| className := className e; message := message e;
     show_class := true; hide_class := hide_class e;
     parentNode := parentNode e |}.

Definition classList_add_hide (e : notification) : notification :=
  {| className := className e; message := message e;
     show_class := show_class e; hide_class := true;
     parentNode := parentNode e |}.

(** [if (notification.parentNode) notification.parentNode.removeChild(notification)] *)
Definition remove_from_parent (e : notification) : notification :=
  if parentNode e
  then {| className := className e; message := message e;
          show_class := show_class e; hide_class := hide_class e;
          parentNode := false |}
  else e.

(** [remove(notification)] *)
Definition remove (n : nat) (self : t) : t :=
  let self := set_created (alter classList_add_hide n (created self)) self in
  set_timers (Timers.setTimeout (detach n) 300 (timers self)).2 self.

(** [show(message, type = 'info', duration = 5000)]; an argument that is
    [undefined] takes its default. *)
Definition show (message : jsstring) (type : option jsstring)
    (duration : option Z) (self : t) : t :=
  let type := default (js "info") type in
  let duration := default 5000 duration in
  let n := length (created self) in
  let notification :=
    {| className := js "notification notification-" ++ type;
       message := message;
       show_class := false; hide_class := false;
       parentNode := true |} in
  let self := set_created (created self ++ [notification]) self in
  let self := set_timers (Timers.setTimeout (add_show n) 100 (timers self)).2 self in
  set_timers (Timers.setTimeout (auto_remove n) duration (timers self)).2 self.

(** A click on the [.notification-close] button of the notification
    [n]; there is no button before the notification is created. *)
Definition close_click (n : nat) (self : t) : t :=
  match created self !! n with
  | Some _ => remove n self
  | None => self
  end.

(** What a timer does when it runs. *)
Definition run (k : task) (self : t) : t :=
  match k with
  | add_show n => set_created (alter classList_add_show n (created self)) self
  | auto_remove n => remove n self
  | detach n => set_created (alter remove_from_parent n (created self)) self
  end.

(** The global [showNotification(message, type = 'info', duration = 5000)]:
    nothing happens while [window.notifications] is not set. *)
Definition showNotification (message : jsstring) (type : option jsstring)
    (duration : option Z) (window_notifications : option t) : option t :=
  match window_notifications with
  | Some self =>
      Some (show message (Some (default (js "info") type))
              (Some (default 5000 duration)) self)
  | None => None
  end.

(** The page at [time], the timers due by then having run; a timer that
    runs sets at most one timer, which sets none. *)
Definition at_time (time : Z) (self : t) : t :=
  Timers.run_until timers set_timers run
    (S (2 * length (Timers.pending (timers self)))) time self.

(** The page once every timer has run. *)
Definition settle (self : t) : t :=
  Timers.run_all timers set_timers run
    (2 * length (Timers.pending (timers self))) self.

End NotificationSystem.

(** * Vocabulary of the statements *)

(** Decimal numerals as [parseInt] and [Number::toString] see them. *)

Module Numerals.
Import JS.

(** The value of a digit string read from its most significant digit,
    starting from [a]. *)
Fixpoint uint_value (d : Decimal.uint) (a : N) : N :=
  match d with
  | Nil => a
  | D0 l => uint_value l (a * 10)%N
  | D1 l => uint_value l (a * 10 + 1)%N
  | D2 l => uint_value l (a * 10 + 2)%N
  | D3 l => uint_value l (a * 10 + 3)%N
  | D4 l => uint_value l (a * 10 + 4)%N
  | D5 l => uint_value l (a * 10 + 5)%N
  | D6 l => uint_value l (a * 10 + 6)%N
  | D7 l => uint_value l (a * 10 + 7)%N
  | D8 l => uint_value l (a * 10 + 8)%N
  | D9 l => uint_value l (a * 10 + 9)%N
  end.

(** What may follow the digits of a number without being read as one
    more digit. *)
Definition not_digit_next (rest : jsstring) : Prop :=
  match rest with
  | [] => True
  | c :: _ => digit_value c = None ∨ (∃ d, digit_value c = Some d ∧ (10 <= d)%N)
  end.

End Numerals.

(** The recursion of the JSON parser one level at a time, and the values
    that [JSON.stringify] writes faithfully. *)

Module JSONText.
Import JS JSON Numerals.

(** What [parse_string] does with one more code unit [c] in front. *)
Definition cons_unit (c : N) (p : option (jsstring * jsstring))
  : option (jsstring * jsstring) :=
  match p with
  | Some (str, r) => Some (c :: str, r)
  | None => None
  end.

(** What follows a value inside an array or an object, or ends the text. *)
Definition delimited (rest : jsstring) : Prop :=
  match rest with
  | [] => True
  | c :: _ => c = 44%N ∨ c = 93%N ∨ c = 125%N
  end.

Definition value_step
    (pe : jsstring → option (list value * jsstring))
    (pm : jsstring → option (list (jsstring * value) * jsstring))
    (s : jsstring) : option (value * jsstring) :=
  match skip_ws s with
  | [] => None
  | c :: r =>
      if (c =? 123)%N then
        match expect 125 r with
        | Some r' => Some (JObj [], r')
        | None =>
            match pm r with
            | Some (ms, r') => Some (make_object ms, r')
            | None => None
            end
        end
      else if (c =? 91)%N then
        match expect 93 r with
        | Some r' => Some (JArr [], r')
        | None =>
            match pe r with
            | Some (vs, r') => Some (JArr vs, r')
            | None => None
            end
        end
      else if (c =? 34)%N then
        match parse_string r with
        | Some (str, r') => Some (JStr str, r')
        | None => None
        end
      else if (c =? 116)%N then
        match strip_prefix (js "rue") r with
        | Some r' => Some (JBool true, r')
        | None => None
        end
      else if (c =? 102)%N then
        match strip_prefix (js "alse") r with
        | Some r' => Some (JBool false, r')
        | None => None
        end
      else if (c =? 110)%N then
        match strip_prefix (js "ull") r with
        | Some r' => Some (JNull, r')
        | None => None
        end
      else parse_number (c :: r)
  end.

Definition elements_step
    (pv : jsstring → option (value * jsstring))
    (pe : jsstring → option (list value * jsstring))
    (s : jsstring) : option (list value * jsstring) :=
  match pv s with
  | Some (v, r) =>
      match expect 44 r with
      | Some r' =>
          match pe r' with
          | Some (vs, r'') => Some (v :: vs, r'')
          | None => None
          end
      | None =>
          match expect 93 r with
          | Some r' => Some ([v], r')
          | None => None
          end
      end
  | None => None
  end.

Definition members_step
    (pv : jsstring → option (value * jsstring))
    (pm : jsstring → option (list (jsstring * value) * jsstring))
    (s : jsstring) : option (list (jsstring * value) * jsstring) :=
  match expect 34 s with
  | Some r =>
      match parse_string r with
      | Some (k, r1) =>
          match expect 58 r1 with
          | Some r2 =>
              match pv r2 with
              | Some (v, r3) =>
                  match expect 44 r3 with
                  | Some r4 =>
                      match pm r4 with
                      | Some (ms, r5) => Some ((k, v) :: ms, r5)
                      | None => None
                      end
                  | None =>
                      match expect 125 r3 with
                      | Some r4 => Some ([(k, v)], r4)
                      | None => None
                      end
                  end
              | None => None
              end
          | None => None
          end
      | None => None
      end
  | None => None
  end.

(** A parser that leaves less than it was given. *)
Definition shrinks {A} (p : jsstring → option (A * jsstring)) : Prop :=
  ∀ s a r, p s = Some (a, r) → (length r < length s)%nat.

(** [q] agrees with [p] wherever [p] succeeds on a text shorter than [n]. *)
Definition extends_below {A} (n : nat) (p q : jsstring → option A) : Prop :=
  ∀ s a, (length s < n)%nat → p s = Some a → q s = Some a.

(** The values [JSON.stringify] writes without loss in this model:
    integers written with all their digits, and objects whose keys are
    distinct and none an array index (so that the members are
    enumerated in the order they were written). *)
#[warnings="-register-all"]
Inductive plain : value → Prop :=
| plain_null : plain JNull
| plain_bool b : plain (JBool b)
| plain_num z : Z.abs z < 10 ^ 21 → plain (JNum z)
| plain_str s : plain (JStr s)
| plain_arr l : Forall plain l → plain (JArr l)
| plain_obj l :
    NoDup l.*1 → Forall (λ k, array_index k = None) l.*1 →
    Forall plain l.*2 → plain (JObj l).

Fixpoint size (v : value) : nat :=
  match v with
  | JArr l => S (list_sum (map size l))
  | JObj l => S (list_sum (map (λ kv, size (snd kv)) l))
  | _ => 1
  end.

(** The first code unit of a written value. *)
Definition opens_value (c : N) : Prop :=
  c = 110%N ∨ c = 116%N ∨ c = 102%N ∨ c = 34%N ∨ c = 91%N ∨ c = 123%N
  ∨ c = 45%N ∨ (48 <= c <= 57)%N.

(** What is to be shown of each value: written before a delimiter, it
    is read back, with the delimiter left. *)
Definition reads_back (v : value) : Prop :=
  ∀ rest, delimited rest →
    ∃ f, parse_value f (stringify v ++ rest) = Some (v, rest).

Definition member (kv : jsstring * value) : jsstring :=
  quote (fst kv) ++ 58%N :: stringify (snd kv).

End JSONText.

(** The four criteria of the product filter, one by one. *)

Module Criteria.
Import JS ProductFilter.

(** The four criteria, as the four [if] of the loop decide them. *)
Definition category_ok (self : t) (c : card) : bool :=
  same (filter_of self "category") (Text (js "all"))
  || same (attribute (dataset_category c)) (filter_of self "category").

Definition material_ok (self : t) (c : card) : bool :=
  same (filter_of self "material") (Text (js "all"))
  || same (attribute (dataset_material c)) (filter_of self "material").

Definition search_ok (toLowerCase : jsstring → jsstring) (self : t) (c : card) : bool :=
  match searchTerm self with
  | None | Some [] => true
  | Some term =>
      includes (toLowerCase (product_title c)) term
      || includes (toLowerCase (product_description c)) term
  end.

(** The price passes when no maximum was set, when the maximum is falsy
    (0, [NaN], the empty string), and otherwise unless the price is a
    number above it. *)
Definition price_ok (gt_text : number → jsstring → bool) (self : t) (c : card) : bool :=
  negb (to_boolean (filter_of self "maxPrice"))
  || negb (above gt_text (parseInt (dataset_price c)) (filter_of self "maxPrice")).

(** [a <= b] on numbers. *)
Definition number_le (a b : number) : bool :=
  match a, b with
  | Num x, Num y => x <=? y
  | _, _ => false
  end.

(** The price criterion in the words of the specification, whose
    maximum price is a number or none:
    maxPrice is None or product.price <= maxPrice. *)
Definition price_within_spec (self : t) (c : card) : bool :=
  match filter_of self "maxPrice" with
  | Number max => number_le (parseInt (dataset_price c)) max
  | _ => true
  end.

(** The visibility decision in the words of the specification. *)
Definition isVisible_spec (toLowerCase : jsstring → jsstring)
    (self : t) (c : card) : bool :=
  category_ok self c && material_ok self c
  && price_within_spec self c && search_ok toLowerCase self c.

(** The filter before the slider was ever moved. *)
Definition without_maxPrice (self : t) : t :=
  {| filters := delete (js "maxPrice") (filters self);
     searchTerm := searchTerm self;
     cards := cards self |}.

(** A page with one card priced at 50, once the slider is moved to 0. *)
Definition card_50 : card :=
  {| dataset_category := Some (js "tote");
     dataset_material := Some (js "leather");
     dataset_price := Some (js "50");
     product_title := js "Tote";
     product_description := js "A bag";
     displayed := true |}.

Definition slider_at_zero : t :=
  exec (handlePriceFilter latin1_toLowerCase gt_numeral (js "0"))
    (constructor [card_50]).

End Criteria.

(** What a visitor does with the comparison tray. *)

Module Tray.
Import JS ProductComparison.

(** What the user does to the tray: click a compare button (of the
    card with that id) or Clear All; [removeFromCompare] is also given
    as a gesture of its own. *)
Inductive gesture :=
| Add (productId : jsstring)
| Remove (productId : jsstring)
| Clear.

Definition handle (g : gesture) : method t unit :=
  match g with
  | Add productId => addToCompare productId
  | Remove productId => removeFromCompare productId
  | Clear => clearCompare
  end.

(** The tray after a sequence of gestures, from the constructor on; a
    handler that throws leaves the tray as it was when it threw. *)
Definition after (gs : list gesture) : t :=
  foldl (λ self g, exec (handle g) self) constructor gs.

Definition full_tray : t :=
  after [Add (js "a"); Add (js "b"); Add (js "c")].

End Tray.

(** The numbers of the rating summary, as functions of the reviews. *)

Module Summary.
Import JS ReviewSystem.

Ltac run :=
  unfold exec, outcome, mbind, method_bind, bind, mret, method_ret, ret,
    modify, get, gets, throw, zoom.

(** The quantities [updateSummary] computes. *)
Definition total_rating (R : list Review.t) : Z :=
  fold_left (λ sum review, sum + Review.rating review) R 0.

Definition averageRating (R : list Review.t) : Q :=
  (inject_Z (total_rating R) / inject_Z (Z.of_nat (length R)))%Q.

Definition star_count (R : list Review.t) (i : Z) : nat :=
  length (filter (λ review, Review.rating review = i) R).

Definition bar_of (R : list Review.t) (i : Z) : rating_bar :=
  {| fill_width :=
       (inject_Z (Z.of_nat (star_count R i))
        / inject_Z (Z.of_nat (length R)) * 100)%Q;
     count_text := star_count R i |}.

Definition bars (R : list Review.t) (m : gmap Z rating_bar) : gmap Z rating_bar :=
  <[5 := bar_of R 5]> (<[4 := bar_of R 4]> (<[3 := bar_of R 3]>
    (<[2 := bar_of R 2]> (<[1 := bar_of R 1]> m)))).

(** The summary block of a collection: the markup as created for the
    empty one, and what [updateSummary] writes for any other. *)
Definition summarize (R : list Review.t) : summary :=
  match R with
  | [] => createReviewSection
  | _ :: _ =>
      {| rating_number := averageRating R;
         rating_stars := Math_round (averageRating R);
         rating_count := length R;
         breakdown := bars R ∅ |}
  end.

(** The summary block has the five bars of the markup, and no other. *)
Definition five_bars (s : summary) : Prop :=
  ∀ i, is_Some (breakdown s !! i) ↔ 1 <= i <= 5.

End Summary.

(** States, forms and events of the review system used in the statements. *)

Module Catalog.
Import JS ReviewSystem Notifications Summary.

(** The text [saveReviews] stores. *)
Definition serialized (R : list Review.t) : jsstring :=
  JSON.stringify (JSON.JArr (map Review.toJSON R)).

Definition stored (self : t) : Storage.t :=
  {| Storage.entries :=
       <[storage_key := serialized (reviews self)]>
         (Storage.entries (localStorage self));
     Storage.quota := Storage.quota (localStorage self) |}.

(** The new text fits in the storage. *)
Definition fits (self : t) : Prop :=
  (Storage.usage (Storage.entries (stored self))
   <= Storage.quota (localStorage self))%nat.

(** The block shows the summary of some collection: it is fresh, or
    was written by [updateSummary]. *)
Definition block_ready (self : t) : Prop :=
  five_bars (review_summary self)
  ∧ (reviews self = [] → review_summary self = createReviewSection).

(** The state [addReview] builds when the storage takes the text. *)
Definition added (r : Review.t) (self : t) : t :=
  {| reviews := r :: reviews self;
     localStorage := stored (set_reviews (λ l, r :: l) self);
     review_summary := summarize (r :: reviews self);
     reviews_list := map createReviewElement (r :: reviews self);
     active_filter := active_filter self;
     notifications := notifications self |}.

(** The review [submitReview] builds from the form. *)
Definition review_of (f : form) (c : clock) (rating : Z) : Review.t :=
  {| Review.id := Date_now c;
     Review.rating := rating;
     Review.title := form_title f;
     Review.review := form_review f;
     Review.name := form_name f;
     Review.email := form_email f;
     Review.recommend := bool_decide (form_recommend f = Some (js "on"));
     Review.date := Date_toISOString c;
     Review.helpful := 0;
     Review.images := [] |}.

Definition notified (message type : string) (self : t) : t :=
  {| reviews := reviews self; localStorage := localStorage self;
     review_summary := review_summary self; reviews_list := reviews_list self;
     active_filter := active_filter self;
     notifications := notifications self ++ [(js message, js type)] |}.

Definition keeps {X A} (field : t → X) (m : method t A) : Prop :=
  ∀ self, field (exec m self) = field self.

(** A form with a rating and nothing else: no title, no text, no name. *)
Definition bare_form (rating : string) : form :=
  {| form_dataset_rating := Some (js rating);
     form_title := []; form_review := []; form_name := [];
     form_email := []; form_recommend := None |}.

Definition noon : clock :=
  {| Date_now := 1700000000000;
     Date_toISOString := js "2023-11-14T22:13:20.000Z" |}.

Definition roomy : Storage.t := {| Storage.entries := ∅; Storage.quota := 5000 |}.

Definition fresh : t := snd (init [] roomy).

(** One review, submitted at [noon]. *)
Definition one_review : t := exec (submitReview (bare_form "5") noon) fresh.

(** The display [filterReviews] gives an item. *)
Definition shows (chosen : jsstring) (i : item) : bool :=
  if bool_decide (chosen ≠ js "all") then
    if bool_decide (chosen = js "images") then false
    else strict_eq (parseInt (Some (dataset_rating i))) (parseInt (Some chosen))
  else true.

(** The item [i] of the list shows the review [r]: it was rendered
    from it and carries its rating in [data-rating]. *)
Definition shows_review (i : item) (r : Review.t) : Prop :=
  rendered i = r ∧ dataset_rating i = Z_toString (Review.rating r).

(** An integer a JavaScript number holds exactly (Number.isSafeInteger). *)
Definition safe_integer (z : Z) : Prop := Z.abs z <= 2 ^ 53 - 1.

(** A review whose numbers are such integers. *)
Definition well_formed (r : Review.t) : Prop :=
  safe_integer (Review.id r) ∧ safe_integer (Review.rating r)
  ∧ safe_integer (Review.helpful r).

(** A storage that holds [text] under the key of the reviews. *)
Definition holding (text : string) : Storage.t :=
  {| Storage.entries := {[ storage_key := js text ]}; Storage.quota := 5000 |}.

(** The sum of the ratings, review by review. *)
Definition sum_of_ratings (R : list Review.t) : Z :=
  foldr Z.add 0 (map Review.rating R).

(** A review with the given rating, and nothing else. *)
Definition rated (rating : Z) : Review.t :=
  {| Review.id := 1; Review.rating := rating; Review.title := [];
     Review.review := []; Review.name := []; Review.email := [];
     Review.recommend := false; Review.date := []; Review.helpful := 0;
     Review.images := [] |}.

(** What the user does on a product page. *)
Inductive event :=
| Submit (f : form) (c : clock)
| MarkHelpful (reviewId : Z)
| Filter (chosen : jsstring)
| Report (reviewId : Z).

Definition react (e : event) : method t unit :=
  match e with
  | Submit f c => submitReview f c
  | MarkHelpful reviewId => markHelpful reviewId
  | Filter chosen => filterReviews chosen
  | Report reviewId => reportReview reviewId
  end.

(** The page after the constructor and a sequence of events; a handler
    that throws leaves the state it had reached. *)
Definition session (loaded : list Review.t) (ls : Storage.t)
    (es : list event) : t :=
  foldl (λ self e, exec (react e) self) (snd (init loaded ls)) es.

(** A storage with no room for any review. *)
Definition cramped : Storage.t := {| Storage.entries := ∅; Storage.quota := 10 |}.

(** Every item carries, in [data-rating], the rating of the review it
    was rendered from. *)
Definition labelled (self : t) : Prop :=
  Forall (λ i, shows_review i (rendered i)) (reviews_list self).

(** [m] leaves a state with the property [P], also when it throws. *)
Definition maintains {A} (P : t → Prop) (m : method t A) : Prop :=
  ∀ self, P self → P (exec m self).

End Catalog.

(** The compare bar, as a function of the tray. *)

Module TrayGauge.
Import JS ProductComparison Tray.

(** The bar as [updateCompareBar] writes it for a list of [n] products. *)
Definition bar_for (n : nat) : bar :=
  {| compare_count := n;
     btn_compare_disabled := bool_decide (n < 2)%nat;
     bar_active := bool_decide (0 < n)%nat |}.

(** The bar tells the length of the list. *)
Definition in_step (self : t) : Prop :=
  compare_bar self = bar_for (length (compareList self)).

End TrayGauge.

(** The widths of the bars of the summary. *)

Module Shares.
Import JS ReviewSystem Summary Catalog.


End Shares.

(** The storage of the reviews, in step with the collection or not. *)

Module Ledger.
Import JS JSON ReviewSystem Notifications Summary Catalog.

(** The storage holds the text of the collection in memory. *)
Definition in_step (self : t) : Prop :=
  Storage.getItem storage_key (localStorage self)
  = Some (serialized (reviews self)).

(** The state [markHelpful] leaves when the storage took the text and
    the button was found. *)
Definition voted (reviewId : Z) (items : list item) (self : t) : t :=
  let self1 := set_reviews (increment_found reviewId) self in
  notified "Thank you for your feedback!" "success"
    (set_reviews_list (λ _, items) (set_localStorage (stored self1) self1)).

(** A page whose storage holds one review and has room for nothing
    more: not for one more digit in its count of votes. *)
Definition tight (helpful : Z) : t :=
  let r := {| Review.id := 1; Review.rating := 5; Review.title := [];
              Review.review := []; Review.name := []; Review.email := [];
              Review.recommend := false; Review.date := [];
              Review.helpful := helpful; Review.images := [] |} in
  snd (init [r]
         {| Storage.entries := {[ storage_key := serialized [r] ]};
            Storage.quota := length storage_key + length (serialized [r]) |}).

End Ledger.

(** Events and examples of the feedback widget. *)

Module Feedback.
Import JS JSON Notifications FeedbackWidget.

(** The text [submitFeedback] parses: the stored one, or that of the
  empty array when there is none. *)
Definition saved_text (self : t) : jsstring :=
match Storage.getItem storage_key (localStorage self) with
| Some ((_ :: _) as saved) => saved
| _ => js "[]"
end.

(** The feedback built from the form as it is filled. *)
Definition feedback_of (f : form) (c : ReviewSystem.clock) (pathname : jsstring)
: feedback :=
{| type := form_type f; message := form_message f; email := form_email f;
   timestamp := ReviewSystem.Date_toISOString c; page := pathname |}.

(** What happens to the widget: the user fills the form, clicks the
  trigger, the close button or Cancel, or submits the form. *)
Inductive event :=
| Fill (f : form)
| Trigger
| Close
| Cancel
| Submit (c : ReviewSystem.clock) (pathname : jsstring).

Definition react (e : event) : method t unit :=
match e with
| Fill f => modify (set_feedback_form f)
| Trigger => trigger_click
| Close => close_click
| Cancel => cancel_click
| Submit c pathname => form_submit c pathname
end.

(** The events one after the other, as long as none throws. *)
Fixpoint react_all (es : list event) : method t unit :=
match es with
| [] => ret tt
| e :: es' => react e;; react_all es'
end.

(** The feedbacks the submits of a sequence send, the form holding [f]
  at first. *)
Fixpoint sent (f : form) (es : list event) : list feedback :=
match es with
| [] => []
| Fill f' :: es' => sent f' es'
| Cancel :: es' => sent form_reset es'
| Submit c pathname :: es' => feedback_of f c pathname :: sent form_reset es'
| _ :: es' => sent f es'
end.

(** The widget whatever the events do, a handler that throws leaving
  the state it had reached. *)
Definition after (self : t) (es : list event) : t :=
foldl (λ self e, exec (react e) self) self es.

(** A widget on a page with an empty storage. *)
Definition blank : t :=
constructor {| Storage.entries := ∅; Storage.quota := 5000 |}.

Definition bug_report : form :=
{| form_type := js "bug"; form_message := js "The zoom does not close";
   form_email := [] |}.

Definition praise : form :=
{| form_type := js "general"; form_message := js "Lovely bags";
   form_email := js "ann@example.org" |}.

(** A widget on a page whose storage holds an object where the array of
  the feedbacks is expected. *)
Definition spoilt : t :=
constructor {| Storage.entries := {[ storage_key := js "{}" ]};
               Storage.quota := 5000 |}.

End Feedback.

(** Events of a star widget, and what its stars show. *)

Module StarEvents.
Import JS StarRating.

(** What happens to a star widget: the pointer enters the star at
  position [k] (from 0), the star is clicked, the pointer leaves the
  container. *)
Inductive event :=
| MouseEnter (k : nat)
| Click (k : nat)
| MouseLeave.

Definition react {E} (e : event) (w : @t E * E) : @t E * E :=
match e with
| MouseEnter k => star_mouseenter k w
| Click k => star_click k w
| MouseLeave => container_mouseleave w
end.

Definition after {E} (w : @t E * E) (es : list event) : @t E * E :=
foldl (λ w e, react e w) w es.

(** The stars show the rating: there is one star for each index of the
  loop of [render], lit when its index is at most the rating, and the
  text beside them is that of the rating. *)
Definition shows_rating {E} (self : @t E) : Prop :=
map dataset_rating (stars self)
= map Z_toString (loop_indices (maxStars (this_options self)))
∧ map active (stars self)
  = map (λ i, le (Num i) (currentRating self))
      (loop_indices (maxStars (this_options self)))
∧ rating_text self = getRatingText self.

(** No listener is attached to a star. *)
Definition deaf {E} (self : @t E) : Prop :=
Forall (λ s, listening s = false) (stars self).

End StarEvents.

(** What the user does in the modal of the review form. *)

Module Modal.
Import JS ReviewSystem StarRating ReviewForm StarEvents.

(** The fields of the form as the user types them; the check box gives
  the entry 'on' when it is ticked and none otherwise. *)
Definition fill (title review name email : jsstring) (recommend : bool)
  (f : form) : form :=
{| form_dataset_rating := form_dataset_rating f;
   form_title := title;
   form_review := review;
   form_name := name;
   form_email := email;
   form_recommend := if recommend then Some (js "on") else None |}.

(** What the user does in the modal: something on the stars, or typing
  in the fields. *)
Inductive action :=
| Stars (e : event)
| Fill (title review name email : jsstring) (recommend : bool).

Definition act (a : action) (m : modal) : modal :=
match a with
| Stars e => react e m
| Fill title review name email recommend =>
    (m.1, fill title review name email recommend m.2)
end.

(** The modal, from its opening on. *)
Definition modal_after (m : modal) (acts : list action) : modal :=
foldl (λ m a, act a m) m acts.

(** The position of the first star clicked, among the five. *)
Fixpoint first_star (acts : list action) : option nat :=
match acts with
| [] => None
| Stars (Click k) :: acts' =>
    if bool_decide (k < 5)%nat then Some k else first_star acts'
| _ :: acts' => first_star acts'
end.

(** The modal before any click: five stars that listen, each with its
  number, and a form without rating. *)
Definition untouched (m : modal) : Prop :=
map listening (stars m.1) = [true; true; true; true; true]
∧ map dataset_rating (stars m.1) = map Z_toString [1; 2; 3; 4; 5]
∧ onRate (this_options m.1) = Some set_dataset_rating
∧ form_dataset_rating m.2 = None.

End Modal.

(** Reading escaped text back. *)

Module Markup.
Import JS EscapeHtml.

(** Reading the four character references back. *)
Fixpoint unescape (s : jsstring) : jsstring :=
match s with
| [] => []
| c :: r =>
    if (c =? 38)%N then
      match r with
      | 97 :: 109 :: 112 :: 59 :: r' => 38 :: unescape r'
      | 110 :: 98 :: 115 :: 112 :: 59 :: r' => 160 :: unescape r'
      | 108 :: 116 :: 59 :: r' => 60 :: unescape r'
      | 103 :: 116 :: 59 :: r' => 62 :: unescape r'
      | _ => c :: unescape r
      end%N
    else c :: unescape r
end.

End Markup.

(** Events of the image gallery. *)

Module Zoom.
Import JS ImageGallery.

(** What the user does: a click in the gallery, on the close button
  of the overlay, on the overlay (on itself or on something in it), a
  key. *)
Inductive event :=
| GalleryClick (e_target : target)
| ZoomClose
| OverlayClick (on_overlay : bool)
| KeyDown (key : jsstring).

Definition react (e : event) (self : t) : t :=
match e with
| GalleryClick e_target => gallery_click e_target self
| ZoomClose => zoom_close_click self
| OverlayClick on_overlay => overlay_click on_overlay self
| KeyDown key => keydown key self
end.

Definition after (self : t) (es : list event) : t :=
foldl (λ self e, react e self) self es.

(** The last image clicked in the gallery, if any. *)
Fixpoint last_image (es : list event) (seen : option (jsstring * jsstring))
: option (jsstring * jsstring) :=
match es with
| [] => seen
| GalleryClick (Img src alt) :: es' => last_image es' (Some (src, alt))
| _ :: es' => last_image es' seen
end.

(** The overlay and the body agree, and the zoomed image is [seen]. *)
Definition coherent (overflow : jsstring) (seen : option (jsstring * jsstring))
  (self : t) : Prop :=
gallery self = true
∧ (zoom_src self, zoom_alt self) = default ([], []) seen
∧ (if overlay_active self then body_overflow self = js "hidden"
   else body_overflow self = [] ∨ (seen = None ∧ body_overflow self = overflow)).

End Zoom.

(** Calls of a debounced function, and those that get through. *)

Module Bursts.
Import JS Debounce.




(** The times of the calls do not go back, from [time] on. *)
Fixpoint in_order {A} (time : Z) (cs : list (Z * A)) : Prop :=
match cs with
| [] => True
| c :: cs' => time <= c.1 ∧ in_order c.1 cs'
end.




End Bursts.

(** The styles of the cards and the timers of their animation. *)

Module GridStyles.
Import JS ProductGrid.

(** The style the show/hide step gives a card. *)
Definition restyle (show : bool) (s : style) : style :=
if show
then {| style_display := Some display_block; style_opacity := Some false |}
else {| style_display := style_display s; style_opacity := Some false |}.

(** The timer the show/hide step sets for the card at position [card],
  as the [j]-th timer set from the handle [next] on. *)
Definition animation (now : Z) (next card : nat) (j : nat) (show : bool)
: Timers.timer task :=
{| Timers.id := (next + j)%nat;
   Timers.due := now + (if show then 50 else 300);
   Timers.task := if show then fade_in (card + j)%nat else hide (card + j)%nat |}.

(** The decisions of [applyFilters], card by card. *)
Definition decisions (toLowerCase : jsstring → jsstring)
  (gt_text : number → jsstring → bool) (self : t) : list bool :=
map (ProductFilter.show_card toLowerCase gt_text (product_filter self))
  (ProductFilter.cards (product_filter self)).

(** Every card has its style. *)
Definition aligned (self : t) : Prop :=
length (styles self) = length (ProductFilter.cards (product_filter self)).

(** The text of the counter for [n] cards. *)
Definition counted (n : nat) : jsstring :=
Z_toString (Z.of_nat n) ++ js " products found".

(** The cards that are shown or still have the display 'block'. *)
Definition block_or_shown (shows : list bool) (sts : list style) : nat :=
length (filter (λ p, p.1 = true ∨ style_display p.2 = Some display_block)
          (zip shows sts)).

Definition shown (shows : list bool) : nat :=
length (filter (λ b : bool, b = true) shows).

(** The style of the card at position [card] once the timers with the
  given tasks have run. *)
Definition final_style (tasks : list task) (card : nat) (s : style) : style :=
{| style_display :=
     if bool_decide (hide card ∈ tasks) then Some display_none
     else style_display s;
   style_opacity :=
     if bool_decide (fade_in card ∈ tasks) then Some true
     else style_opacity s |}.

(** No two pending timers have the same handle. *)
Definition well_numbered (self : t) : Prop :=
NoDup (map Timers.id (Timers.pending (timers self)))
∧ Forall (λ x, (Timers.id x < Timers.next_id (timers self))%nat)
    (Timers.pending (timers self)).

(** A page with a tote and a wallet, and a counter. *)
Definition tote : ProductFilter.card :=
{| ProductFilter.dataset_category := Some (js "tote");
   ProductFilter.dataset_material := Some (js "leather");
   ProductFilter.dataset_price := Some (js "50");
   ProductFilter.product_title := js "Tote";
   ProductFilter.product_description := js "A bag";
   ProductFilter.displayed := true |}.

Definition wallet : ProductFilter.card :=
{| ProductFilter.dataset_category := Some (js "wallet");
   ProductFilter.dataset_material := Some (js "leather");
   ProductFilter.dataset_price := Some (js "20");
   ProductFilter.product_title := js "Wallet";
   ProductFilter.product_description := js "A wallet";
   ProductFilter.displayed := true |}.

Definition shop : t := constructor [tote; wallet] (Some []).

Definition category_button (value : string) : ProductFilter.button :=
{| ProductFilter.dataset_filter := Some (js "category");
   ProductFilter.dataset_value := Some (js value) |}.

(** The page after a click on the category of the totes. *)
Definition totes_only : t :=
handleFilterClick ProductFilter.latin1_toLowerCase ProductFilter.gt_numeral
  (category_button "tote") shop.

(** The filter after a click on the category of the wallets. *)
Definition wallets_filter : ProductFilter.t :=
exec (ProductFilter.handleFilterClick ProductFilter.latin1_toLowerCase
        ProductFilter.gt_numeral (category_button "wallet"))
  (product_filter totes_only).

End GridStyles.

(** Events of the notifications, and the timers that take them out. *)

Module Alerts.
Import JS NotificationSystem Bursts.

(** What happens on the page: a call of [show], or a click on the close
  button of the notification [n]. *)
Inductive event :=
| Show (message : jsstring) (type : option jsstring) (duration : option Z)
| CloseClick (n : nat).

Definition react (ev : event) (self : t) : t :=
match ev with
| Show message type duration => show message type duration self
| CloseClick n => close_click n self
end.

(** The page after the events [evs], each with its time, the timers due
  by then having run. *)
Definition play (evs : list (Z * event)) (self : t) : t :=
foldl (λ self ev, react ev.2 (at_time ev.1 self)) self evs.

Definition history (evs : list (Z * event)) : t := play evs constructor.

(** No two pending timers have the same handle, and none has the next one. *)
Definition numbered {T} (q : Timers.t T) : Prop :=
NoDup (map Timers.id (Timers.pending q))
∧ Forall (λ x, (Timers.id x < Timers.next_id q)%nat) (Timers.pending q).

(** No pending timer is overdue. *)
Definition punctual {T} (q : Timers.t T) : Prop :=
Forall (λ x, Timers.now q <= Timers.due x) (Timers.pending q).

Definition sound (self : t) : Prop :=
numbered (timers self) ∧ punctual (timers self).

(** The number of timers that run for a pending one. *)
Definition weight (x : Timers.timer task) : nat :=
match Timers.task x with
| auto_remove _ => 2
| _ => 1
end.

Definition load (l : list (Timers.timer task)) : nat :=
sum_list (map weight l).

(** The timer [x] takes the notification [n] out by the time [D]. *)
Definition covers (n : nat) (D : Z) (x : Timers.timer task) : Prop :=
(Timers.task x = auto_remove n ∧ Timers.due x + 300 <= D)
∨ (Timers.task x = detach n ∧ Timers.due x <= D).

(** The notification [n] is out of the container, or a pending timer
  takes it out by the time [D]. *)
Definition leaves_by (n : nat) (D : Z) (self : t) : Prop :=
∃ e, created self !! n = Some e
     ∧ (parentNode e = true
        → ∃ x, x ∈ Timers.pending (timers self) ∧ covers n D x).

(** An element later on: the same message and class name, classes are
  only added, and it does not come back into the container. *)
Definition ages (e e' : notification) : Prop :=
message e' = message e
∧ className e' = className e
∧ (show_class e = true → show_class e' = true)
∧ (hide_class e = true → hide_class e' = true)
∧ (parentNode e = false → parentNode e' = false).

(** Every notification created so far is out of the container or will be
  taken out by a pending timer. *)
Definition leaving (self : t) : Prop :=
∀ n, (n < length (created self))%nat → ∃ D, leaves_by n D self.

Definition grows (l l' : list notification) : Prop :=
∀ n e, l !! n = Some e → ∃ e', l' !! n = Some e' ∧ ages e e'.

(** Two notifications, the first closed by a click after a second. *)
Definition two_notifications : list (Z * event) :=
[(0, Show (js "Saved") None None);
 (1000, CloseClick 0);
 (2000, Show (js "Failed") (Some (js "error")) (Some 3000))].

End Alerts.

(** * Properties *)

(** ** Numerals: [parseInt] reads back what [Number::toString] writes *)

Module JSFacts.
Import JS Numerals.

Lemma of_uint_acc_value d p :
  N.pos (Pos.of_uint_acc d p) = uint_value d (N.pos p).
Proof.
  revert p. induction d; intros p; simpl; try reflexivity;
    rewrite IHd; f_equal; lia.
Qed.

Lemma of_uint_value d : Pos.of_uint d = uint_value d 0%N.
Proof.
  induction d; simpl; try reflexivity; try assumption;
    rewrite of_uint_acc_value; f_equal.
Qed.

Lemma uint_value_to_uint n : uint_value (N.to_uint n) 0%N = n.
Proof. rewrite <- of_uint_value. apply (DecimalN.Unsigned.of_to n). Qed.

Lemma read_digits_stop rest acc :
  not_digit_next rest → read_digits 10 rest acc = acc.
Proof.
  destruct rest as [|c r]; simpl; [reflexivity|].
  unfold radix_digit. intros [-> | (d & -> & Hd)]; [reflexivity|].
  destruct (N.ltb_spec d 10); [lia | reflexivity].
Qed.

Lemma read_digits_uint d rest a :
  not_digit_next rest →
  read_digits 10 (uint_chars d ++ rest) (Some a) = Some (uint_value d a).
Proof.
  intros Hrest. revert a.
  induction d; intros a; simpl;
    [apply read_digits_stop; assumption | rewrite IHd; do 2 f_equal; lia ..].
Qed.

Lemma uint_chars_nil d : uint_chars d = [] → d = Nil.
Proof. destruct d; simpl; congruence. Qed.

Lemma read_digits_uint_None d rest :
  d ≠ Nil → not_digit_next rest →
  read_digits 10 (uint_chars d ++ rest) None = Some (uint_value d 0).
Proof.
  intros Hd Hrest.
  destruct d; [congruence | simpl; rewrite read_digits_uint by assumption; reflexivity ..].
Qed.

Lemma to_uint_nonnil n : N.to_uint n ≠ Nil.
Proof.
  destruct n; simpl; [discriminate | apply DecimalPos.Unsigned.to_uint_nonnil].
Qed.

Lemma read_digits_digits n rest :
  not_digit_next rest → read_digits 10 (digits n ++ rest) None = Some n.
Proof.
  intros Hrest. unfold digits.
  rewrite read_digits_uint_None by (auto using to_uint_nonnil).
  f_equal. apply uint_value_to_uint.
Qed.

Lemma nzhead_not_D0 u v : nzhead u ≠ D0 v.
Proof. induction u; simpl; congruence. Qed.

(** The digits of a number start with 0 only for 0 itself. *)
Lemma digits_head n :
  (n = 0%N ∧ digits n = [48%N])
  ∨ (∃ c r, digits n = c :: r ∧ (49 <= c <= 57)%N).
Proof.
  destruct n as [|p]; [left; split; reflexivity | right].
  unfold digits. simpl N.to_uint.
  pose proof (DecimalPos.Unsigned.to_uint_nonnil p) as Hnil.
  pose proof (DecimalPos.Unsigned.to_uint_nonzero p) as Hzero.
  pose proof (DecimalN.Unsigned.to_of (N.to_uint (N.pos p))) as Hnorm.
  rewrite DecimalN.Unsigned.of_to in Hnorm. simpl N.to_uint in Hnorm.
  destruct (Pos.to_uint p) as [|u|u|u|u|u|u|u|u|u|u] eqn:E;
    [congruence | | simpl; eexists _, _; split; [reflexivity | lia] ..].
  exfalso. unfold unorm in Hnorm. simpl in Hnorm.
  destruct (nzhead u) eqn:Eu;
    solve [ exact (Hzero Hnorm)
          | exact (nzhead_not_D0 _ _ Eu)
          | discriminate Hnorm ].
Qed.

Lemma digits_all_digits n : Forall (λ c, (48 <= c <= 57)%N) (digits n).
Proof.
  unfold digits. induction (N.to_uint n); simpl; constructor; (lia || assumption).
Qed.

Lemma digits_nonempty n : digits n ≠ [].
Proof.
  unfold digits. intros H. apply uint_chars_nil in H.
  exact (to_uint_nonnil _ H).
Qed.

Lemma digit_not_white_space c :
  (45 <= c <= 57)%N → is_white_space c = false.
Proof.
  intros Hc. unfold is_white_space. apply orb_false_intro.
  - apply bool_decide_eq_false. rewrite !elem_of_cons, elem_of_nil. lia.
  - apply andb_false_intro1. apply N.leb_gt. lia.
Qed.

Lemma strip_sign_digit c r :
  (48 <= c <= 57)%N → strip_sign (c :: r) = (1, c :: r).
Proof.
  intros Hc. unfold strip_sign.
  destruct c as [|p]; [lia|].
  do 7 (destruct p as [p|p|]; try reflexivity; try lia).
Qed.

Lemma strip_radix_digits s :
  Forall (λ c, (48 <= c <= 57)%N) s → strip_radix s = (10%N, s).
Proof.
  intros Hs. unfold strip_radix.
  destruct s as [|c [|x r]]; try reflexivity.
  - destruct c as [|p]; [reflexivity|].
    do 7 (destruct p as [p|p|]; try reflexivity).
  - assert (Hx : (48 <= x <= 57)%N).
    { inversion Hs as [|? ? _ Hr]; inversion Hr; assumption. }
    destruct (N.eqb_spec x 120); [lia|]. destruct (N.eqb_spec x 88); [lia|].
    simpl. destruct c as [|p]; [reflexivity|].
    do 7 (destruct p as [p|p|]; try reflexivity).
Qed.

(** parseInt reads back what Number::toString wrote, for every integer
    that is written with all its digits. *)
Lemma parseInt_toString z :
  Z.abs z < 10 ^ 21 → parseInt (Some (Z_toString z)) = Num z.
Proof.
  intros Hz. unfold parseInt, Z_toString. simpl default.
  destruct (Z.ltb_spec (Z.abs z) (10 ^ 21)) as [_|]; [|lia].
  assert (Hpos : ∀ n, parseInt_string (digits n) = Num (Z.of_N n)).
  { intros n. unfold parseInt_string.
    pose proof (digits_all_digits n) as Hall.
    destruct (digits n) as [|c r] eqn:E; [destruct (digits_nonempty _ E)|].
    assert (Hc : (48 <= c <= 57)%N) by (inversion Hall; assumption).
    simpl trim_start. rewrite digit_not_white_space by lia.
    rewrite strip_sign_digit by assumption.
    rewrite strip_radix_digits by assumption.
    rewrite <- E, <- (app_nil_r (digits n)), read_digits_digits by exact I.
    f_equal. lia. }
  destruct (Z.ltb_spec z 0) as [Hneg|Hnneg].
  - unfold parseInt_string.
    change (trim_start (45%N :: digits (Z.abs_N z))) with (45%N :: digits (Z.abs_N z)).
    change (strip_sign (45%N :: digits (Z.abs_N z))) with (-1, digits (Z.abs_N z)).
    pose proof (Hpos (Z.abs_N z)) as H. unfold parseInt_string in H.
    pose proof (digits_all_digits (Z.abs_N z)) as Hall.
    destruct (digits (Z.abs_N z)) as [|c r] eqn:E; [destruct (digits_nonempty _ E)|].
    assert (Hc : (48 <= c <= 57)%N) by (inversion Hall; assumption).
    simpl trim_start in H. rewrite digit_not_white_space in H by lia.
    rewrite strip_sign_digit in H by assumption.
    destruct (strip_radix (c :: r)) as [R s3].
    destruct (read_digits R s3 None); [|discriminate].
    injection H as H. f_equal. lia.
  - rewrite Hpos. f_equal. lia.
Qed.

End JSFacts.

(** ** JSON texts: string literals and numbers read back *)

Module JSONFacts.
Import JS JSON Numerals JSONText JSFacts.

(** *** Strings *)

Lemma hex_value_digit d : (d < 16)%N → hex_value (hex_digit d) = Some d.
Proof.
  intros Hd. destruct d as [|p]; [reflexivity|].
  do 4 (destruct p as [p|p|]; try reflexivity; try lia).
Qed.

Lemma hex4_escape c :
  (c < 65536)%N →
  hex4 (hex_digit (c / 4096)) (hex_digit (c / 256 mod 16))
       (hex_digit (c / 16 mod 16)) (hex_digit (c mod 16)) = Some c.
Proof.
  intros Hc. unfold hex4.
  rewrite !hex_value_digit by (zify; Z.to_euclidean_division_equations; lia).
  f_equal. zify; Z.to_euclidean_division_equations; lia.
Qed.

Lemma parse_string_literal c rest :
  c ≠ 34%N → c ≠ 92%N → (32 <= c)%N →
  parse_string (c :: rest) = cons_unit c (parse_string rest).
Proof.
  intros H1 H2 H3. simpl.
  destruct (N.eqb_spec c 34); [congruence|].
  destruct (N.eqb_spec c 92); [congruence|].
  destruct (N.ltb_spec c 32); [lia|]. reflexivity.
Qed.

Lemma parse_string_unicode_escape c rest :
  (c < 65536)%N →
  parse_string (unicode_escape c ++ rest) = cons_unit c (parse_string rest).
Proof.
  intros Hc. unfold unicode_escape. cbn [app parse_string].
  change (92 =? 34)%N with false. change (92 =? 92)%N with true.
  change (117 =? 117)%N with true. cbv iota.
  rewrite hex4_escape by assumption. reflexivity.
Qed.

Lemma parse_string_unit c rest :
  parse_string (quote_unit c ++ rest) = cons_unit c (parse_string rest).
Proof.
  unfold quote_unit.
  repeat match goal with
  | |- context [(c =? ?k)%N] => destruct (N.eqb_spec c k); [subst c; reflexivity|]
  end.
  destruct ((c <? 32)%N || is_lead c || is_trail c) eqn:E.
  - apply parse_string_unicode_escape.
    unfold is_lead, is_trail in E.
    repeat (apply orb_prop in E as [E|E]); try apply andb_prop in E as [_ E];
      try apply N.leb_le in E; try apply N.ltb_lt in E; lia.
  - apply orb_false_elim in E as [E _]. apply orb_false_elim in E as [E _].
    apply N.ltb_ge in E.
    apply parse_string_literal; assumption.
Qed.

Lemma parse_string_pair c d rest :
  is_lead c = true → is_trail d = true →
  parse_string (c :: d :: rest) = cons_unit c (cons_unit d (parse_string rest)).
Proof.
  unfold is_lead, is_trail. intros Hc Hd.
  apply andb_prop in Hc as [Hc1 Hc2]. apply andb_prop in Hd as [Hd1 Hd2].
  apply N.leb_le in Hc1, Hc2, Hd1, Hd2.
  rewrite !parse_string_literal by lia. reflexivity.
Qed.

Lemma quote_units_cons2 c d s :
  quote_units (c :: d :: s) =
  if is_lead c && is_trail d then c :: d :: quote_units s
  else quote_unit c ++ quote_units (d :: s).
Proof. reflexivity. Qed.

(** A string literal is read back as the string it quotes. *)
Lemma parse_string_quote_units s rest :
  parse_string (quote_units s ++ 34%N :: rest) = Some (s, rest).
Proof.
  remember (length s) as n eqn:Hn.
  revert s Hn. induction n as [n IH] using lt_wf_ind. intros s Hn.
  destruct s as [|c [|d s']].
  - reflexivity.
  - simpl quote_units. rewrite parse_string_unit. reflexivity.
  - rewrite quote_units_cons2. destruct (is_lead c && is_trail d) eqn:E.
    + apply andb_prop in E as [Hc Hd].
      change ((c :: d :: quote_units s') ++ 34%N :: rest)
        with (c :: d :: (quote_units s' ++ 34%N :: rest)).
      rewrite parse_string_pair by assumption.
      rewrite (IH (length s')) by (subst n; simpl; lia || reflexivity).
      reflexivity.
    + rewrite <- app_assoc, parse_string_unit.
      rewrite (IH (length (d :: s'))) by (subst n; simpl; lia || reflexivity).
      reflexivity.
Qed.

Lemma parse_string_quote s rest :
  ∃ c, quote s ++ rest = 34%N :: c ∧ parse_string c = Some (s, rest).
Proof.
  exists (quote_units s ++ 34%N :: rest). split.
  - unfold quote. simpl. rewrite <- app_assoc. reflexivity.
  - apply parse_string_quote_units.
Qed.

(** *** Numbers *)

Lemma span_digits_app ds rest :
  Forall (λ c, (48 <= c <= 57)%N) ds → delimited rest →
  span_digits (ds ++ rest) = (ds, rest).
Proof.
  intros Hds Hrest. induction Hds as [|c ds Hc _ IH]; simpl.
  - destruct rest as [|c r]; [reflexivity|]. simpl in Hrest.
    unfold is_digit.
    destruct Hrest as [-> | [-> | ->]]; reflexivity.
  - unfold is_digit.
    destruct (N.leb_spec 48 c); [|lia]. destruct (N.leb_spec c 57); [|lia].
    simpl. rewrite IH. reflexivity.
Qed.

Lemma fold_digits_uint d a :
  fold_left (λ acc c, acc * 10 + (c - 48))%N (uint_chars d) a = uint_value d a.
Proof.
  revert a. induction d; intros a; simpl; [reflexivity | rewrite IHd; f_equal; lia ..].
Qed.

Lemma digits_value_digits n : digits_value (digits n) = n.
Proof.
  unfold digits_value, digits. rewrite fold_digits_uint.
  apply uint_value_to_uint.
Qed.

Lemma parse_integer_digits n rest :
  delimited rest → parse_integer (digits n ++ rest) = Some (digits n, rest).
Proof.
  intros Hrest. pose proof (digits_all_digits n) as Hall.
  destruct (digits_head n) as [[_ E] | (c & r & E & Hc)]; rewrite E in *.
  - reflexivity.
  - simpl. destruct (N.eqb_spec c 48); [lia|].
    unfold is_digit.
    destruct (N.leb_spec 48 c); [|lia]. destruct (N.leb_spec c 57); [|lia].
    simpl. rewrite span_digits_app; [reflexivity | | assumption].
    inversion Hall; assumption.
Qed.

Lemma parse_fraction_delimited rest :
  delimited rest → parse_fraction rest = Some ([], rest).
Proof.
  destruct rest as [|c r]; [reflexivity|]. simpl.
  intros [-> | [-> | ->]]; reflexivity.
Qed.

Lemma parse_exponent_delimited rest :
  delimited rest → parse_exponent rest = Some (0, rest).
Proof.
  destruct rest as [|c r]; [reflexivity|]. simpl.
  intros [-> | [-> | ->]]; reflexivity.
Qed.

Lemma strip_minus_digits n rest :
  strip_minus (digits n ++ rest) = (false, digits n ++ rest).
Proof.
  pose proof (digits_all_digits n) as Hall.
  destruct (digits n) as [|c r] eqn:E; [destruct (digits_nonempty _ E)|].
  assert (Hc : (48 <= c <= 57)%N) by (inversion Hall; assumption).
  unfold strip_minus. simpl.
  destruct c as [|p]; [reflexivity|].
  do 7 (destruct p as [p|p|]; try reflexivity; try lia).
Qed.

Lemma parse_number_digits n rest :
  delimited rest →
  parse_number (digits n ++ rest) = Some (JNum (Z.of_N n), rest).
Proof.
  intros Hrest. unfold parse_number. rewrite strip_minus_digits.
  rewrite parse_integer_digits, parse_fraction_delimited,
    parse_exponent_delimited by assumption.
  rewrite app_nil_r, digits_value_digits. unfold number_value. simpl.
  change (0 - Z.of_nat 0) with 0. rewrite Z.pow_0_r, Z.mul_1_r.
  destruct n; reflexivity.
Qed.

Lemma parse_number_minus_digits n rest :
  delimited rest →
  parse_number (45%N :: digits n ++ rest) = Some (JNum (- Z.of_N n), rest).
Proof.
  intros Hrest. unfold parse_number.
  change (strip_minus (45%N :: digits n ++ rest)) with (true, digits n ++ rest).
  cbv beta iota.
  rewrite parse_integer_digits, parse_fraction_delimited,
    parse_exponent_delimited by assumption.
  rewrite app_nil_r, digits_value_digits. unfold number_value. simpl.
  change (0 - Z.of_nat 0) with 0. rewrite Z.pow_0_r, Z.mul_1_r.
  destruct n; reflexivity.
Qed.

(** A number written by [JSON.stringify] is read back, when it is an
    integer written with all its digits. *)
Lemma parse_number_toString z rest :
  Z.abs z < 10 ^ 21 → delimited rest →
  parse_number (Z_toString z ++ rest) = Some (JNum z, rest).
Proof.
  intros Hz Hrest. unfold Z_toString.
  destruct (Z.ltb_spec (Z.abs z) (10 ^ 21)) as [_|]; [|lia].
  destruct (Z.ltb_spec z 0) as [Hneg|Hnneg].
  - change ((45%N :: digits (Z.abs_N z)) ++ rest)
      with (45%N :: digits (Z.abs_N z) ++ rest).
    rewrite parse_number_minus_digits by assumption. do 3 f_equal. lia.
  - rewrite parse_number_digits by assumption. do 3 f_equal. lia.
Qed.

End JSONFacts.

(** ** The JSON parser consumes its input: fuel is never short *)

Module JSONFuel.
Import JS JSON Numerals JSONText JSFacts JSONFacts.

(** *** The parser reads forward *)

Lemma skip_ws_length s : (length (skip_ws s) <= length s)%nat.
Proof. induction s as [|c s IH]; simpl; [lia|]. destruct (is_ws c); simpl; lia. Qed.

Lemma parse_string_length s str r :
  parse_string s = Some (str, r) → (length r < length s)%nat.
Proof.
  remember (length s) as n eqn:Hn. revert s str r Hn.
  induction n as [n IH] using lt_wf_ind. intros s str r Hn H.
  destruct s as [|c rest]; [discriminate|]. simpl in H.
  destruct (c =? 34)%N; [injection H as _ <-; simpl in *; lia|].
  destruct (c =? 92)%N.
  - destruct rest as [|e rest']; [discriminate|].
    destruct (e =? 117)%N.
    + destruct rest' as [|h1 [|h2 [|h3 [|h4 rest'']]]]; try discriminate.
      destruct (hex4 h1 h2 h3 h4); [|discriminate].
      destruct (parse_string rest'') as [[str' r']|] eqn:E; [|discriminate].
      injection H as _ <-.
      apply (IH (length rest'')) in E; subst n; simpl in *; lia.
    + destruct (unescape e); [|discriminate].
      destruct (parse_string rest') as [[str' r']|] eqn:E; [|discriminate].
      injection H as _ <-.
      apply (IH (length rest')) in E; subst n; simpl in *; lia.
  - destruct (c <? 32)%N; [discriminate|].
    destruct (parse_string rest) as [[str' r']|] eqn:E; [|discriminate].
    injection H as _ <-.
    apply (IH (length rest)) in E; subst n; simpl in *; lia.
Qed.

Lemma span_digits_length s ds r :
  span_digits s = (ds, r) → (length r <= length s)%nat.
Proof.
  revert ds r. induction s as [|c s IH]; simpl; intros ds r H.
  - injection H as _ <-. simpl; lia.
  - destruct (is_digit c).
    + destruct (span_digits s) as [ds' r'] eqn:E. injection H as _ <-.
      specialize (IH _ _ eq_refl). lia.
    + injection H as _ <-. simpl; lia.
Qed.

Lemma parse_integer_length s ds r :
  parse_integer s = Some (ds, r) → (length r < length s)%nat.
Proof.
  destruct s as [|c s]; simpl; [discriminate|].
  destruct (c =? 48)%N; [intros [= _ <-]; lia|].
  destruct (is_digit c); [|discriminate].
  destruct (span_digits s) as [ds' r'] eqn:E. intros [= _ <-].
  apply span_digits_length in E. lia.
Qed.

Lemma parse_fraction_length s ds r :
  parse_fraction s = Some (ds, r) → (length r <= length s)%nat.
Proof.
  unfold parse_fraction. intros H.
  destruct s as [|c s]; [injection H as _ <-; lia|].
  destruct c as [|p]; [injection H as _ <-; lia|].
  do 6 (destruct p as [p|p|]; try (injection H as _ <-; lia)).
  destruct (span_digits s) as [[|d ds'] r'] eqn:E; [discriminate|].
  injection H as _ <-. apply span_digits_length in E. simpl; lia.
Qed.

Lemma parse_exponent_length s e r :
  parse_exponent s = Some (e, r) → (length r <= length s)%nat.
Proof.
  unfold parse_exponent. intros H.
  destruct s as [|c s]; [injection H as _ <-; lia|].
  destruct ((c =? 101) || (c =? 69))%N; [|injection H as _ <-; lia].
  destruct (match s with
            | 45%N :: r1 => (-1, r1)
            | 43%N :: r1 => (1, r1)
            | _ => (1, s)
            end) as [sign r1] eqn:Es.
  assert (Hr1 : (length r1 <= length s)%nat).
  { destruct s as [|x s']; [injection Es as _ <-; lia|].
    destruct x as [|p]; [injection Es as _ <-; lia|].
    do 6 (destruct p as [p|p|]; try (injection Es as _ <-; simpl; lia)). }
  destruct (span_digits r1) as [[|d ds'] r'] eqn:E; [discriminate|].
  injection H as _ <-. apply span_digits_length in E. simpl; lia.
Qed.

Lemma strip_minus_length s b r :
  strip_minus s = (b, r) → (length r <= length s)%nat.
Proof.
  unfold strip_minus. intros H.
  destruct s as [|c s]; [injection H as _ <-; lia|].
  destruct c as [|p]; [injection H as _ <-; lia|].
  do 6 (destruct p as [p|p|]; try (injection H as _ <-; simpl; lia)).
Qed.

Lemma parse_number_length s v r :
  parse_number s = Some (v, r) → (length r < length s)%nat.
Proof.
  unfold parse_number. intros H.
  destruct (strip_minus s) as [b s1] eqn:E1. apply strip_minus_length in E1.
  destruct (parse_integer s1) as [[int s2]|] eqn:E2; [|discriminate].
  apply parse_integer_length in E2.
  destruct (parse_fraction s2) as [[frac s3]|] eqn:E3; [|discriminate].
  apply parse_fraction_length in E3.
  destruct (parse_exponent s3) as [[e s4]|] eqn:E4; [|discriminate].
  apply parse_exponent_length in E4.
  injection H as _ <-. lia.
Qed.

Lemma strip_prefix_length p s r :
  strip_prefix p s = Some r → (length r <= length s)%nat.
Proof.
  revert s. induction p as [|c p IH]; intros [|d s]; simpl; try discriminate.
  - intros [= <-]. simpl; lia.
  - intros [= <-]. simpl; lia.
  - destruct (c =? d)%N; [|discriminate]. intros H%IH. lia.
Qed.

Lemma expect_length c s r : expect c s = Some r → (length r < length s)%nat.
Proof.
  unfold expect. pose proof (skip_ws_length s) as Hs.
  destruct (skip_ws s) as [|x r']; [discriminate|].
  destruct (x =? c)%N; [|discriminate]. intros [= <-]. simpl in Hs. lia.
Qed.

(** *** One level of the descent, over the parsers of the level below *)

Lemma parse_value_S f s :
  parse_value (S f) s = value_step (parse_elements f) (parse_members f) s.
Proof. reflexivity. Qed.

Lemma parse_elements_S f s :
  parse_elements (S f) s = elements_step (parse_value f) (parse_elements f) s.
Proof. reflexivity. Qed.

Lemma parse_members_S f s :
  parse_members (S f) s = members_step (parse_value f) (parse_members f) s.
Proof. reflexivity. Qed.

Lemma value_step_shrinks pe pm :
  shrinks pe → shrinks pm → shrinks (value_step pe pm).
Proof.
  intros Hpe Hpm s v r H. unfold value_step in H.
  pose proof (skip_ws_length s) as Hs.
  destruct (skip_ws s) as [|c t]; [discriminate|]. simpl in Hs.
  destruct (c =? 123)%N.
  { destruct (expect 125 t) as [r'|] eqn:E.
    - injection H as _ <-. apply expect_length in E. lia.
    - destruct (pm t) as [[ms r']|] eqn:E'; [|discriminate].
      injection H as _ <-. apply Hpm in E'. lia. }
  destruct (c =? 91)%N.
  { destruct (expect 93 t) as [r'|] eqn:E.
    - injection H as _ <-. apply expect_length in E. lia.
    - destruct (pe t) as [[vs r']|] eqn:E'; [|discriminate].
      injection H as _ <-. apply Hpe in E'. lia. }
  destruct (c =? 34)%N.
  { destruct (parse_string t) as [[str r']|] eqn:E; [|discriminate].
    injection H as _ <-. apply parse_string_length in E. lia. }
  destruct (c =? 116)%N.
  { destruct (strip_prefix (js "rue") t) as [r'|] eqn:E; [|discriminate].
    injection H as _ <-. apply strip_prefix_length in E. lia. }
  destruct (c =? 102)%N.
  { destruct (strip_prefix (js "alse") t) as [r'|] eqn:E; [|discriminate].
    injection H as _ <-. apply strip_prefix_length in E. lia. }
  destruct (c =? 110)%N.
  { destruct (strip_prefix (js "ull") t) as [r'|] eqn:E; [|discriminate].
    injection H as _ <-. apply strip_prefix_length in E. lia. }
  apply parse_number_length in H. simpl in H. lia.
Qed.

Lemma elements_step_shrinks pv pe :
  shrinks pv → shrinks pe → shrinks (elements_step pv pe).
Proof.
  intros Hpv Hpe s vs r H. unfold elements_step in H.
  destruct (pv s) as [[v t]|] eqn:Ev; [|discriminate]. apply Hpv in Ev.
  destruct (expect 44 t) as [t'|] eqn:Ec.
  - apply expect_length in Ec.
    destruct (pe t') as [[vs' r']|] eqn:Ee; [|discriminate].
    injection H as _ <-. apply Hpe in Ee. lia.
  - destruct (expect 93 t) as [t'|] eqn:Eb; [|discriminate].
    injection H as _ <-. apply expect_length in Eb. lia.
Qed.

Lemma members_step_shrinks pv pm :
  shrinks pv → shrinks pm → shrinks (members_step pv pm).
Proof.
  intros Hpv Hpm s ms r H. unfold members_step in H.
  destruct (expect 34 s) as [t|] eqn:E1; [|discriminate].
  apply expect_length in E1.
  destruct (parse_string t) as [[k t1]|] eqn:E2; [|discriminate].
  apply parse_string_length in E2.
  destruct (expect 58 t1) as [t2|] eqn:E3; [|discriminate].
  apply expect_length in E3.
  destruct (pv t2) as [[v t3]|] eqn:E4; [|discriminate]. apply Hpv in E4.
  destruct (expect 44 t3) as [t4|] eqn:E5.
  - apply expect_length in E5.
    destruct (pm t4) as [[ms' r']|] eqn:E6; [|discriminate].
    injection H as _ <-. apply Hpm in E6. lia.
  - destruct (expect 125 t3) as [t4|] eqn:E6; [|discriminate].
    injection H as _ <-. apply expect_length in E6. lia.
Qed.

Lemma parse_shrinks f :
  shrinks (parse_value f) ∧ shrinks (parse_elements f) ∧ shrinks (parse_members f).
Proof.
  induction f as [|f (IHv & IHe & IHm)].
  - repeat split; intros s a r H; discriminate H.
  - split; [|split]; intros s a r; 
      rewrite ?parse_value_S, ?parse_elements_S, ?parse_members_S.
    + apply value_step_shrinks; assumption.
    + apply elements_step_shrinks; assumption.
    + apply members_step_shrinks; assumption.
Qed.

(** A level only calls the level below on shorter texts (the first
    element of an array apart, read from the same text). *)
Lemma value_step_extends pe pe' pm pm' s a :
  extends_below (length s) pe pe' → extends_below (length s) pm pm' →
  value_step pe pm s = Some a → value_step pe' pm' s = Some a.
Proof.
  intros Hpe Hpm. unfold value_step.
  pose proof (skip_ws_length s) as Hs.
  destruct (skip_ws s) as [|c t]; [discriminate|]. simpl in Hs.
  destruct (c =? 123)%N.
  { destruct (expect 125 t); [trivial|].
    destruct (pm t) as [[ms r']|] eqn:E; [|discriminate].
    rewrite (Hpm t _ ltac:(lia) E). trivial. }
  destruct (c =? 91)%N.
  { destruct (expect 93 t); [trivial|].
    destruct (pe t) as [[vs r']|] eqn:E; [|discriminate].
    rewrite (Hpe t _ ltac:(lia) E). trivial. }
  trivial.
Qed.

Lemma elements_step_extends pv pv' pe pe' s a :
  shrinks pv →
  (∀ b, pv s = Some b → pv' s = Some b) →
  extends_below (length s) pe pe' →
  elements_step pv pe s = Some a → elements_step pv' pe' s = Some a.
Proof.
  intros Hshr Hpv Hpe. unfold elements_step.
  destruct (pv s) as [[v t]|] eqn:Ev; [|discriminate].
  rewrite (Hpv _ eq_refl). apply Hshr in Ev.
  destruct (expect 44 t) as [t'|] eqn:Ec; [|trivial].
  apply expect_length in Ec.
  destruct (pe t') as [[vs r']|] eqn:E; [|discriminate].
  rewrite (Hpe t' _ ltac:(lia) E). trivial.
Qed.

Lemma members_step_extends pv pv' pm pm' s a :
  shrinks pv →
  extends_below (length s) pv pv' → extends_below (length s) pm pm' →
  members_step pv pm s = Some a → members_step pv' pm' s = Some a.
Proof.
  intros Hshr Hpv Hpm. unfold members_step.
  destruct (expect 34 s) as [t|] eqn:E1; [|discriminate].
  apply expect_length in E1.
  destruct (parse_string t) as [[k t1]|] eqn:E2; [|discriminate].
  apply parse_string_length in E2.
  destruct (expect 58 t1) as [t2|] eqn:E3; [|discriminate].
  apply expect_length in E3.
  destruct (pv t2) as [[v t3]|] eqn:E4; [|discriminate].
  rewrite (Hpv t2 _ ltac:(lia) E4). apply Hshr in E4.
  destruct (expect 44 t3) as [t4|] eqn:E5; [|trivial].
  apply expect_length in E5.
  destruct (pm t4) as [[ms r']|] eqn:E6; [|discriminate].
  rewrite (Hpm t4 _ ltac:(lia) E6). trivial.
Qed.

(** More fuel never changes a result. *)
Lemma parse_fuel_S f :
  (∀ s a, parse_value f s = Some a → parse_value (S f) s = Some a)
  ∧ (∀ s a, parse_elements f s = Some a → parse_elements (S f) s = Some a)
  ∧ (∀ s a, parse_members f s = Some a → parse_members (S f) s = Some a).
Proof.
  induction f as [|f (IHv & IHe & IHm)].
  - repeat split; intros s a H; discriminate H.
  - destruct (parse_shrinks f) as (Sv & _ & _).
    split; [|split]; intros s a.
    + rewrite !parse_value_S. apply value_step_extends; intros ? ? _; auto.
    + rewrite !parse_elements_S.
      apply elements_step_extends; [assumption | auto | intros ? ? _; auto].
    + rewrite !parse_members_S.
      apply members_step_extends; [assumption | intros ? ? _; auto ..].
Qed.

Lemma parse_fuel_mono f f' :
  (f <= f')%nat →
  (∀ s a, parse_value f s = Some a → parse_value f' s = Some a)
  ∧ (∀ s a, parse_elements f s = Some a → parse_elements f' s = Some a)
  ∧ (∀ s a, parse_members f s = Some a → parse_members f' s = Some a).
Proof.
  induction 1 as [|f' _ (IHv & IHe & IHm)]; [auto|].
  destruct (parse_fuel_S f') as (Sv & Se & Sm). auto.
Qed.

(** The fuel [parse] gives is enough: whatever some amount of fuel
    reads, that amount reads. *)
Lemma parse_fuel_enough f :
  (∀ s a, parse_value f s = Some a →
          parse_value (2 * length s + 1) s = Some a)
  ∧ (∀ s a, parse_elements f s = Some a →
            parse_elements (2 * length s + 2) s = Some a)
  ∧ (∀ s a, parse_members f s = Some a →
            parse_members (2 * length s + 2) s = Some a).
Proof.
  induction f as [|f (IHv & IHe & IHm)].
  - repeat split; intros s a H; discriminate H.
  - destruct (parse_shrinks f) as (Sv & _ & _).
    split; [|split]; intros s a.
    + replace (2 * length s + 1)%nat with (S (2 * length s)) by lia.
      rewrite !parse_value_S. apply value_step_extends.
      * intros t b Ht H. apply IHe in H.
        eapply (parse_fuel_mono (2 * length t + 2)); [lia | exact H].
      * intros t b Ht H. apply IHm in H.
        eapply (parse_fuel_mono (2 * length t + 2)); [lia | exact H].
    + replace (2 * length s + 2)%nat with (S (2 * length s + 1)) by lia.
      rewrite !parse_elements_S. apply elements_step_extends.
      * assumption.
      * intros b H. apply IHv. exact H.
      * intros t b Ht H. apply IHe in H.
        eapply (parse_fuel_mono (2 * length t + 2)); [lia | exact H].
    + replace (2 * length s + 2)%nat with (S (2 * length s + 1)) by lia.
      rewrite !parse_members_S. apply members_step_extends.
      * assumption.
      * intros t b Ht H. apply IHv in H.
        eapply (parse_fuel_mono (2 * length t + 1)); [lia | exact H].
      * intros t b Ht H. apply IHm in H.
        eapply (parse_fuel_mono (2 * length t + 2)); [lia | exact H].
Qed.

End JSONFuel.

(** ** [JSON.parse] after [JSON.stringify] *)

Module JSONRoundTrip.
Import JS JSON Numerals JSONText JSFacts JSONFacts JSONFuel.

Lemma size_element v l : v ∈ l → (size v < size (JArr l))%nat.
Proof.
  intros Hv. simpl. induction Hv as [v l|v w l _ IH]; simpl; lia.
Qed.

Lemma size_member v (l : list (jsstring * value)) :
  v ∈ l.*2 → (size v < size (JObj l))%nat.
Proof.
  simpl. induction l as [|[k w] l IH]; simpl.
  - intros H. inversion H.
  - intros H. apply elem_of_cons in H as [-> | H]; [lia|].
    specialize (IH H). lia.
Qed.

Lemma Z_toString_head z :
  Z.abs z < 10 ^ 21 →
  ∃ c r, Z_toString z = c :: r ∧ (c = 45%N ∨ (48 <= c <= 57)%N).
Proof.
  intros Hz. unfold Z_toString.
  destruct (Z.ltb_spec (Z.abs z) (10 ^ 21)) as [_|]; [|lia].
  destruct (z <? 0); [eexists _, _; split; [reflexivity | left; reflexivity]|].
  pose proof (digits_all_digits (Z.abs_N z)) as Hall.
  destruct (digits (Z.abs_N z)) as [|c r] eqn:E; [destruct (digits_nonempty _ E)|].
  exists c, r. split; [reflexivity|]. right. inversion Hall; assumption.
Qed.

Lemma stringify_head v :
  plain v → ∃ c r, stringify v = c :: r ∧ opens_value c.
Proof.
  unfold opens_value. destruct 1 as [|[]|z Hz|s|l _|l _ _ _]; simpl;
    try (eexists _, _; split; [reflexivity | tauto]).
  destruct (Z_toString_head z Hz) as (c & r & -> & Hc).
  exists c, r. split; [reflexivity | tauto].
Qed.

Lemma opens_value_not_ws c : opens_value c → is_ws c = false.
Proof.
  unfold opens_value, is_ws. intros H.
  repeat (apply orb_false_intro); apply N.eqb_neq; lia.
Qed.

Lemma expect_opens c x r :
  opens_value x → c = 93%N ∨ c = 125%N ∨ c = 44%N → expect c (x :: r) = None.
Proof.
  intros Hx Hc. unfold expect. simpl. rewrite opens_value_not_ws by assumption.
  destruct (N.eqb_spec x c); [|reflexivity].
  unfold opens_value in Hx. lia.
Qed.

Lemma expect_here c r : is_ws c = false → expect c (c :: r) = Some r.
Proof. intros Hc. unfold expect. simpl. rewrite Hc, N.eqb_refl. reflexivity. Qed.

Lemma expect_other c x r :
  is_ws x = false → x ≠ c → expect c (x :: r) = None.
Proof.
  intros Hx Hc. unfold expect. simpl. rewrite Hx.
  destruct (N.eqb_spec x c); congruence.
Qed.

Lemma parse_value_number f c r :
  c = 45%N ∨ (48 <= c <= 57)%N →
  parse_value (S f) (c :: r) = parse_number (c :: r).
Proof.
  intros Hc. rewrite parse_value_S. unfold value_step. simpl skip_ws.
  rewrite opens_value_not_ws by (unfold opens_value; tauto).
  repeat match goal with
  | |- context [(c =? ?k)%N] => destruct (N.eqb_spec c k); [lia|]
  end.
  reflexivity.
Qed.

(** An object built from distinct keys, none an array index, lists
    them as they came. *)
Lemma foldl_define_property acc l :
  NoDup (acc ++ l).*1 → Forall (λ k, array_index k = None) l.*1 →
  foldl define_property acc l = acc ++ l.
Proof.
  revert acc. induction l as [|[k v] l IH]; intros acc Hnd Hidx; simpl.
  - rewrite app_nil_r. reflexivity.
  - inversion Hidx as [|? ? Hk Hl]; subst.
    assert (Hfresh : k ∉ acc.*1).
    { rewrite fmap_app in Hnd. apply NoDup_app in Hnd as (_ & Hdisj & _).
      intros Hin. apply (Hdisj _ Hin). simpl. left. }
    rewrite bool_decide_eq_false_2 by assumption. rewrite Hk.
    rewrite IH; [rewrite <- app_assoc; reflexivity | | assumption].
    rewrite <- app_assoc. exact Hnd.
Qed.

Lemma make_object_plain l :
  NoDup l.*1 → Forall (λ k, array_index k = None) l.*1 →
  make_object l = JObj l.
Proof.
  intros Hnd Hidx. unfold make_object.
  rewrite foldl_define_property; [reflexivity | exact Hnd | exact Hidx].
Qed.

Lemma commas_map_cons2 {A} (f : A → jsstring) x y l :
  commas (map f (x :: y :: l)) = f x ++ 44%N :: commas (map f (y :: l)).
Proof. reflexivity. Qed.

Lemma elements_read_back l rest :
  l ≠ [] → Forall plain l → Forall reads_back l →
  ∃ f, parse_elements f (commas (map stringify l) ++ 93%N :: rest)
       = Some (l, rest).
Proof.
  intros Hne Hpl Hl. induction Hl as [|v l Hv Hl IH]; [congruence|].
  inversion Hpl as [|? ? Hpv Hpl']; subst.
  destruct l as [|w l].
  - destruct (Hv (93%N :: rest)) as [f Hf]; [simpl; tauto|].
    exists (S f). rewrite parse_elements_S. unfold elements_step.
    simpl. rewrite Hf.
    rewrite expect_other by (reflexivity || lia).
    rewrite expect_here by reflexivity. reflexivity.
  - destruct (IH ltac:(congruence) Hpl') as [f2 Hf2].
    destruct (Hv (44%N :: commas (map stringify (w :: l)) ++ 93%N :: rest))
      as [f1 Hf1]; [simpl; tauto|].
    exists (S (f1 `max` f2)). rewrite parse_elements_S. unfold elements_step.
    rewrite commas_map_cons2, <- app_assoc, <- app_comm_cons.
    destruct (parse_fuel_mono f1 (f1 `max` f2) ltac:(lia)) as (Mv & _ & _).
    destruct (parse_fuel_mono f2 (f1 `max` f2) ltac:(lia)) as (_ & Me & _).
    rewrite (Mv _ _ Hf1). rewrite expect_here by reflexivity.
    rewrite (Me _ _ Hf2). reflexivity.
Qed.

Lemma members_read_back (l : list (jsstring * value)) rest :
  l ≠ [] → Forall reads_back l.*2 →
  ∃ f, parse_members f (commas (map member l) ++ 125%N :: rest)
       = Some (l, rest).
Proof.
  intros Hne Hl. induction l as [|[k v] l IH]; [congruence|].
  inversion Hl as [|? ? Hv Hl']; subst.
  assert (Hmember : ∀ tail, ∃ body,
    member (k, v) ++ tail = 34%N :: body
    ∧ parse_string body = Some (k, 58%N :: stringify v ++ tail)).
  { intros tail. unfold member. simpl fst; simpl snd.
    destruct (parse_string_quote k (58%N :: stringify v ++ tail))
      as (body & Hbody & Hparse).
    exists body. split; [|exact Hparse].
    rewrite <- Hbody. rewrite <- app_assoc. reflexivity. }
  destruct l as [|kw l].
  - destruct (Hv (125%N :: rest)) as [f Hf]; [simpl; tauto|].
    destruct (Hmember (125%N :: rest)) as (body & Hbody & Hparse).
    exists (S f). rewrite parse_members_S. unfold members_step.
    simpl map. simpl commas. rewrite Hbody.
    rewrite expect_here by reflexivity. rewrite Hparse.
    rewrite expect_here by reflexivity. rewrite Hf.
    rewrite expect_other by (reflexivity || lia).
    rewrite expect_here by reflexivity. reflexivity.
  - destruct (IH ltac:(congruence) Hl') as [f2 Hf2].
    destruct (Hv (44%N :: commas (map member (kw :: l)) ++ 125%N :: rest))
      as [f1 Hf1]; [simpl; tauto|].
    destruct (Hmember (44%N :: commas (map member (kw :: l)) ++ 125%N :: rest))
      as (body & Hbody & Hparse).
    exists (S (f1 `max` f2)). rewrite parse_members_S. unfold members_step.
    rewrite commas_map_cons2, <- app_assoc, <- app_comm_cons. rewrite Hbody.
    rewrite expect_here by reflexivity. rewrite Hparse.
    rewrite expect_here by reflexivity.
    destruct (parse_fuel_mono f1 (f1 `max` f2) ltac:(lia)) as (Mv & _ & _).
    destruct (parse_fuel_mono f2 (f1 `max` f2) ltac:(lia)) as (_ & _ & Mm).
    rewrite (Mv _ _ Hf1). rewrite expect_here by reflexivity.
    rewrite (Mm _ _ Hf2). reflexivity.
Qed.

Lemma stringify_array_app l rest :
  stringify (JArr l) ++ rest = 91%N :: commas (map stringify l) ++ 93%N :: rest.
Proof.
  change (stringify (JArr l)) with (91%N :: commas (map stringify l) ++ [93%N]).
  rewrite <- app_comm_cons, <- app_assoc. reflexivity.
Qed.

Lemma stringify_object_app l rest :
  stringify (JObj l) ++ rest = 123%N :: commas (map member l) ++ 125%N :: rest.
Proof.
  change (stringify (JObj l)) with (123%N :: commas (map member l) ++ [125%N]).
  rewrite <- app_comm_cons, <- app_assoc. reflexivity.
Qed.

Lemma parse_value_array f c r :
  opens_value c →
  parse_value (S f) (91%N :: c :: r) =
  match parse_elements f (c :: r) with
  | Some (vs, r') => Some (JArr vs, r')
  | None => None
  end.
Proof.
  intros Hc. rewrite parse_value_S. unfold value_step.
  change (skip_ws (91%N :: c :: r)) with (91%N :: c :: r). cbv iota.
  change (91 =? 123)%N with false. change (91 =? 91)%N with true. cbv iota.
  rewrite expect_opens by (assumption || tauto). reflexivity.
Qed.

Lemma parse_value_object f r :
  parse_value (S f) (123%N :: 34%N :: r) =
  match parse_members f (34%N :: r) with
  | Some (ms, r') => Some (make_object ms, r')
  | None => None
  end.
Proof. reflexivity. Qed.

Lemma commas_head {A} (f : A → jsstring) x l c r tail :
  f x = c :: r → ∃ r', commas (map f (x :: l)) ++ tail = c :: r'.
Proof.
  intros E. destruct l as [|y l].
  - simpl. rewrite E. eexists. reflexivity.
  - rewrite commas_map_cons2, E. eexists. reflexivity.
Qed.

Lemma plain_reads_back v : plain v → reads_back v.
Proof.
  remember (size v) as n eqn:Hn. revert v Hn.
  induction n as [n IH] using lt_wf_ind. intros v Hn Hv rest Hrest.
  destruct Hv as [|[]|z Hz|s|l Hl|l Hnd Hidx Hl].
  - exists 1%nat. reflexivity.
  - exists 1%nat. reflexivity.
  - exists 1%nat. reflexivity.
  - exists 1%nat. simpl stringify.
    destruct (Z_toString_head z Hz) as (c & r & E & Hc).
    pose proof (parse_number_toString z rest Hz Hrest) as H.
    rewrite E in *. simpl app in *.
    rewrite parse_value_number by assumption. exact H.
  - exists 1%nat. simpl stringify.
    destruct (parse_string_quote s rest) as (body & -> & Hparse).
    rewrite parse_value_S. unfold value_step. simpl. rewrite Hparse. reflexivity.
  - destruct l as [|v l]; [exists 1%nat; reflexivity|].
    assert (Hback : Forall reads_back (v :: l)).
    { apply Forall_forall. intros w Hw.
      apply (IH (size w)); [subst n; apply size_element; exact Hw | reflexivity |].
      rewrite Forall_forall in Hl. apply Hl, Hw. }
    destruct (elements_read_back (v :: l) rest ltac:(congruence) Hl Hback)
      as [f Hf].
    inversion Hl as [|? ? Hpv _]; subst.
    destruct (stringify_head v Hpv) as (c & r & E & Hc).
    destruct (commas_head stringify v l c r (93%N :: rest) E) as [r' Hr'].
    exists (S f). rewrite stringify_array_app. rewrite Hr' in *.
    rewrite parse_value_array by assumption. rewrite Hf. reflexivity.
  - destruct l as [|[k v] l]; [exists 1%nat; reflexivity|].
    assert (Hback : Forall reads_back ((k, v) :: l).*2).
    { apply Forall_forall. intros w Hw.
      apply (IH (size w)); [subst n; apply size_member; exact Hw | reflexivity |].
      rewrite Forall_forall in Hl. apply Hl, Hw. }
    destruct (members_read_back ((k, v) :: l) rest ltac:(congruence) Hback)
      as [f Hf].
    destruct (commas_head member (k, v) l 34%N
                (quote_units k ++ [34%N] ++ 58%N :: stringify v)
                (125%N :: rest)) as [r' Hr'].
    { unfold member, quote. simpl. rewrite <- app_assoc. reflexivity. }
    exists (S f). rewrite stringify_object_app. rewrite Hr' in *.
    rewrite parse_value_object. rewrite Hf.
    rewrite make_object_plain by assumption. reflexivity.
Qed.

(** [JSON.parse] reads back what [JSON.stringify] wrote. *)
Lemma parse_stringify v : plain v → parse (stringify v) = Normal v.
Proof.
  intros Hv. destruct (plain_reads_back v Hv [] I) as [f Hf].
  rewrite app_nil_r in Hf.
  destruct (parse_fuel_enough f) as (Hfuel & _ & _). apply Hfuel in Hf.
  unfold parse. rewrite Hf. reflexivity.
Qed.

End JSONRoundTrip.

(** ** The product filter *)

Module ProductFilterFacts.
Import JS ProductFilter Criteria.

Section Platform.
Variable toLowerCase : jsstring → jsstring.
Variable gt_text : number → jsstring → bool.

Lemma show_card_criteria self c :
  show_card toLowerCase gt_text self c
  = category_ok self c && material_ok self c
    && search_ok toLowerCase self c && price_ok gt_text self c.
Proof.
  unfold show_card, category_ok, material_ok, search_ok, price_ok.
  destruct (searchTerm self) as [[|x term]|];
  repeat match goal with
  | |- context [same ?a ?b] => destruct (same a b)
  | |- context [to_boolean ?m] => destruct (to_boolean m)
  | |- context [above ?f ?a ?b] => destruct (above f a b)
  | |- context [includes ?a ?b] => destruct (includes a b)
  end; reflexivity.
Qed.

(** What each handler leaves of [this.filters] and [this.searchTerm]. *)
Lemma applyFilters_fields self :
  filters (exec (applyFilters toLowerCase gt_text) self) = filters self
  ∧ searchTerm (exec (applyFilters toLowerCase gt_text) self) = searchTerm self.
Proof. split; reflexivity. Qed.

Lemma handleFilterClick_filter_of b self name :
  default (js "undefined") (dataset_filter b) ≠ js name →
  filter_of (exec (handleFilterClick toLowerCase gt_text b) self) name
  = filter_of self name.
Proof.
  intros Hne. unfold filter_of, exec, handleFilterClick. simpl.
  rewrite lookup_insert_ne by congruence. reflexivity.
Qed.

Lemma handleFilterClick_set b self name :
  dataset_filter b = Some (js name) →
  filter_of (exec (handleFilterClick toLowerCase gt_text b) self) name
  = attribute (dataset_value b).
Proof.
  intros Hb. unfold filter_of, exec, handleFilterClick. simpl.
  rewrite Hb. simpl. rewrite lookup_insert_eq. reflexivity.
Qed.

Lemma handlePriceFilter_filter_of value self name :
  js name ≠ js "maxPrice" →
  filter_of (exec (handlePriceFilter toLowerCase gt_text value) self) name
  = filter_of self name.
Proof.
  intros Hne. unfold filter_of, exec, handlePriceFilter. simpl.
  rewrite lookup_insert_ne by congruence. reflexivity.
Qed.

Lemma handlePriceFilter_set value self :
  filter_of (exec (handlePriceFilter toLowerCase gt_text value) self) "maxPrice"
  = Number (parseInt (Some value)).
Proof.
  unfold filter_of, exec, handlePriceFilter. simpl.
  rewrite lookup_insert_eq. reflexivity.
Qed.

(** C6, as amended: the decision is the conjunction of the four
    criteria, the price criterion passing also for a maximum of 0 or
    NaN and for a card without a numeric price; it depends on the
    filters, the search term and the card only; and a handler leaves
    the criteria of the properties it does not write as they were. *)
Theorem show_card_conjunction (self : t) (c : card) :
  show_card toLowerCase gt_text self c
  = category_ok self c && material_ok self c
    && search_ok toLowerCase self c && price_ok gt_text self c
  ∧ (∀ self', filters self' = filters self →
              searchTerm self' = searchTerm self →
              show_card toLowerCase gt_text self' c
              = show_card toLowerCase gt_text self c)
  ∧ (∀ b,
       let self' := exec (handleFilterClick toLowerCase gt_text b) self in
       let written := default (js "undefined") (dataset_filter b) in
       (written ≠ js "category" → category_ok self' c = category_ok self c)
       ∧ (written ≠ js "material" → material_ok self' c = material_ok self c)
       ∧ search_ok toLowerCase self' c = search_ok toLowerCase self c
       ∧ (written ≠ js "maxPrice" →
            price_ok gt_text self' c = price_ok gt_text self c))
  ∧ (∀ term,
       let self' := exec (handleSearch toLowerCase gt_text term) self in
       category_ok self' c = category_ok self c
       ∧ material_ok self' c = material_ok self c
       ∧ price_ok gt_text self' c = price_ok gt_text self c)
  ∧ (∀ value,
       let self' := exec (handlePriceFilter toLowerCase gt_text value) self in
       category_ok self' c = category_ok self c
       ∧ material_ok self' c = material_ok self c
       ∧ search_ok toLowerCase self' c = search_ok toLowerCase self c).
Proof.
  split; [apply show_card_criteria|].
  split.
  { intros self' Hf Hs. rewrite !show_card_criteria.
    unfold category_ok, material_ok, search_ok, price_ok, filter_of.
    rewrite Hf, Hs. reflexivity. }
  split.
  { intros b self' written. subst self' written.
    unfold category_ok, material_ok, price_ok.
    repeat split; try reflexivity; intros Hne;
      rewrite !handleFilterClick_filter_of by assumption; reflexivity. }
  split.
  { intros term self'. repeat split; reflexivity. }
  intros value self'. subst self'. unfold category_ok, material_ok.
  repeat split; try reflexivity;
    rewrite !handlePriceFilter_filter_of by discriminate; reflexivity.
Qed.

(** C10: once the slider has set a maximum price of 0, the price
    criterion passes every card, and the decision is the one taken
    with no maximum price at all: the conjunction of the category,
    material and search criteria. *)
Theorem maxPrice_zero_is_no_filter (self : t) (value : jsstring) (c : card) :
  parseInt (Some value) = Num 0 →
  let self' := exec (handlePriceFilter toLowerCase gt_text value) self in
  filter_of self' "maxPrice" = Number (Num 0)
  ∧ price_ok gt_text self' c = true
  ∧ show_card toLowerCase gt_text self' c
    = show_card toLowerCase gt_text (without_maxPrice self) c
  ∧ show_card toLowerCase gt_text self' c
    = category_ok self c && material_ok self c && search_ok toLowerCase self c.
Proof.
  intros Hzero self'.
  assert (Hmax : filter_of self' "maxPrice" = Number (Num 0)).
  { subst self'. rewrite handlePriceFilter_set, Hzero. reflexivity. }
  assert (Hprice : price_ok gt_text self' c = true).
  { unfold price_ok. rewrite Hmax. reflexivity. }
  assert (Hnone : price_ok gt_text (without_maxPrice self) c = true).
  { unfold price_ok, filter_of, without_maxPrice. simpl.
    rewrite lookup_delete_eq. reflexivity. }
  assert (Hrest : show_card toLowerCase gt_text self' c
                  = category_ok self c && material_ok self c
                    && search_ok toLowerCase self c).
  { rewrite show_card_criteria, Hprice, andb_true_r.
    subst self'. unfold category_ok, material_ok.
    rewrite !handlePriceFilter_filter_of by discriminate. reflexivity. }
  split; [exact Hmax|]. split; [exact Hprice|].
  split; [|exact Hrest].
  rewrite Hrest, show_card_criteria, Hnone, andb_true_r.
  unfold category_ok, material_ok, filter_of, without_maxPrice. simpl.
  rewrite !lookup_delete_ne by discriminate. reflexivity.
Qed.
End Platform.

(** C6 as stated fails: with a maximum price of 0 the card priced at 50
    stays displayed, though 50 <= 0 is false. *)
Lemma isVisible_counterexample :
  map displayed (cards slider_at_zero) = [true]
  ∧ show_card latin1_toLowerCase gt_numeral slider_at_zero card_50 = true
  ∧ isVisible_spec latin1_toLowerCase slider_at_zero card_50 = false.
Proof. repeat split; vm_compute; reflexivity. Qed.

Lemma show_card_conjunction_witness :
  material_ok
    (exec (handleFilterClick latin1_toLowerCase gt_numeral
             {| dataset_filter := Some (js "category");
                dataset_value := Some (js "tote") |})
          (constructor [card_50])) card_50
  = material_ok (constructor [card_50]) card_50.
Proof.
  refine (proj1 (proj2 (proj1 (proj2 (proj2
    (show_card_conjunction latin1_toLowerCase gt_numeral
       (constructor [card_50]) card_50)))
    {| dataset_filter := Some (js "category"); dataset_value := Some (js "tote") |}))
    _).
  vm_compute. discriminate.
Defined.

Lemma maxPrice_zero_witness :
  parseInt (Some (js "0")) = Num 0
  ∧ show_card latin1_toLowerCase gt_numeral slider_at_zero card_50
    = show_card latin1_toLowerCase gt_numeral
        (without_maxPrice (constructor [card_50])) card_50.
Proof.
  split; [reflexivity|].
  exact (proj1 (proj2 (proj2
    (maxPrice_zero_is_no_filter latin1_toLowerCase gt_numeral
       (constructor [card_50]) (js "0") card_50 eq_refl)))).
Defined.

End ProductFilterFacts.

(** ** The comparison tray *)

Module ProductComparisonFacts.
Import JS ProductComparison Tray.

Lemma removeFromCompare_list productId self :
  compareList (exec (removeFromCompare productId) self)
  = filter (λ id, id ≠ productId) (compareList self)
  ∧ maxCompare (exec (removeFromCompare productId) self) = maxCompare self
  ∧ outcome (removeFromCompare productId) self = Normal tt.
Proof. repeat split; reflexivity. Qed.

Lemma filter_remove_length (l : list (jsstring)) x :
  NoDup l → x ∈ l →
  S (length (filter (λ id, id ≠ x) l)) = length l.
Proof.
  induction 1 as [|y l Hy Hl IH]; intros Hx; [inversion Hx|].
  rewrite filter_cons. destruct (decide (y ≠ x)) as [Hne|Heq].
  - simpl. f_equal. apply IH. apply elem_of_cons in Hx as [Hx|Hx]; [by subst | assumption].
  - assert (y = x) as -> by (destruct (decide (y = x)); [assumption | contradiction]).
    simpl. f_equal. f_equal.
    clear IH Hx Heq Hl. induction l as [|z l IH]; [reflexivity|].
    rewrite filter_cons. rewrite not_elem_of_cons in Hy. destruct Hy as [Hz Hy].
    destruct (decide (z ≠ x)) as [|Hzx]; [simpl; f_equal; auto|].
    exfalso. apply Hzx. congruence.
Qed.

Lemma addToCompare_present productId self :
  productId ∈ compareList self →
  addToCompare productId self = removeFromCompare productId self.
Proof.
  intros Hin. unfold addToCompare, mbind, method_bind, bind, get.
  rewrite bool_decide_eq_true_2 by assumption. reflexivity.
Qed.

Lemma addToCompare_room productId self :
  productId ∉ compareList self →
  (length (compareList self) < maxCompare self)%nat →
  compareList (exec (addToCompare productId) self) = compareList self ++ [productId]
  ∧ maxCompare (exec (addToCompare productId) self) = maxCompare self
  ∧ outcome (addToCompare productId) self = Normal tt.
Proof.
  intros Hin Hlen. unfold exec, outcome, addToCompare, mbind, method_bind, bind, get.
  rewrite bool_decide_eq_false_2 by assumption.
  rewrite bool_decide_eq_true_2 by assumption. repeat split; reflexivity.
Qed.

Lemma addToCompare_no_room productId self :
  productId ∉ compareList self →
  (maxCompare self <= length (compareList self))%nat →
  addToCompare productId self = (Throw TypeError, self).
Proof.
  intros Hin Hlen. unfold addToCompare, mbind, method_bind, bind, get.
  rewrite bool_decide_eq_false_2 by assumption.
  rewrite bool_decide_eq_false_2 by lia. reflexivity.
Qed.

(** C8: on a full tray the click on one more product does not return
    false, nor anything: the rejection branch calls a method the class
    does not have, and the handler ends on a TypeError.  The tray itself
    is left as it was. *)
Theorem addToCompare_full_throws (self : t) (productId : jsstring) :
  productId ∉ compareList self →
  (maxCompare self <= length (compareList self))%nat →
  outcome (addToCompare productId) self = Throw TypeError
  ∧ exec (addToCompare productId) self = self.
Proof.
  intros Hin Hlen. unfold outcome, exec.
  rewrite addToCompare_no_room by assumption. split; reflexivity.
Qed.

Lemma addToCompare_full_witness :
  compareList full_tray = [js "a"; js "b"; js "c"]
  ∧ outcome (addToCompare (js "d")) full_tray = Throw TypeError
  ∧ exec (addToCompare (js "d")) full_tray = full_tray.
Proof.
  split; [reflexivity|].
  apply (addToCompare_full_throws full_tray (js "d")).
  - refine (bool_decide_unpack _ _). vm_compute. exact I.
  - refine (bool_decide_unpack _ _). vm_compute. exact I.
Defined.

(** X1: whatever the gestures, the tray never holds more than three
    products, nor one twice. *)
Theorem compareList_bounded (gs : list gesture) :
  (length (compareList (after gs)) <= 3)%nat
  ∧ NoDup (compareList (after gs))
  ∧ maxCompare (after gs) = 3%nat.
Proof.
  unfold after. induction gs as [|g gs IH] using rev_ind.
  - simpl. repeat split; [lia | constructor].
  - rewrite foldl_app. simpl.
    set (self := foldl (λ self g, exec (handle g) self) constructor gs) in *.
    destruct IH as (Hlen & Hnd & Hmax).
    destruct g as [productId|productId|]; simpl handle.
    + destruct (decide (productId ∈ compareList self)) as [Hin|Hin].
      * unfold exec. rewrite addToCompare_present by assumption.
        fold (exec (removeFromCompare productId) self).
        destruct (removeFromCompare_list productId self) as (-> & -> & _).
        repeat split; [|apply NoDup_filter; assumption | assumption].
        pose proof (filter_remove_length _ _ Hnd Hin). lia.
      * destruct (decide (length (compareList self) < maxCompare self)%nat)
          as [Hroom|Hfull].
        -- destruct (addToCompare_room productId self Hin Hroom) as (-> & -> & _).
           repeat split; [rewrite length_app; simpl; lia | | assumption].
           apply NoDup_app. repeat split; [assumption | | apply NoDup_singleton].
           intros x Hx ->%list_elem_of_singleton. contradiction.
        -- unfold exec. rewrite addToCompare_no_room by (assumption || lia).
           simpl. auto.
    + destruct (removeFromCompare_list productId self) as (-> & -> & _).
      repeat split; [|apply NoDup_filter; assumption | assumption].
      pose proof (length_filter (λ id, id ≠ productId) (compareList self)). lia.
    + repeat split; [simpl; lia | constructor | assumption].
Qed.



End ProductComparisonFacts.

(** ** The rating summary in closed form *)

Module SummaryFacts.
Import JS ReviewSystem Summary.

Lemma bars_lookup R m i :
  1 <= i <= 5 → bars R m !! i = Some (bar_of R i).
Proof.
  intros Hi. unfold bars.
  assert (i = 1 ∨ i = 2 ∨ i = 3 ∨ i = 4 ∨ i = 5) as [->|[->|[->|[->| ->]]]] by lia;
    repeat (rewrite lookup_insert_ne by discriminate);
    apply lookup_insert_eq.
Qed.

Lemma bars_lookup_other R m i :
  ¬ (1 <= i <= 5) → bars R m !! i = m !! i.
Proof.
  intros Hi. unfold bars. repeat (rewrite lookup_insert_ne by lia). reflexivity.
Qed.

Lemma bars_canonical R m :
  (∀ i, is_Some (m !! i) ↔ 1 <= i <= 5) → bars R m = bars R ∅.
Proof.
  intros Hm. apply map_eq. intros i.
  destruct (decide (1 <= i <= 5)) as [Hi|Hi].
  - rewrite !bars_lookup by assumption. reflexivity.
  - rewrite !bars_lookup_other by assumption. rewrite lookup_empty.
    apply eq_None_not_Some. rewrite Hm. exact Hi.
Qed.

Lemma five_bars_created : five_bars createReviewSection.
Proof.
  intros i. change (breakdown createReviewSection)
    with (<[5 := empty_bar]> (<[4 := empty_bar]> (<[3 := empty_bar]>
           (<[2 := empty_bar]> (<[1 := empty_bar]> (∅ : gmap Z rating_bar)))))).
  split.
  - intros Hsome. destruct (decide (1 <= i <= 5)) as [|Hi]; [assumption|].
    repeat (rewrite lookup_insert_ne in Hsome by lia).
    rewrite lookup_empty in Hsome. destruct Hsome; discriminate.
  - intros Hi.
    assert (i = 1 ∨ i = 2 ∨ i = 3 ∨ i = 4 ∨ i = 5) as [->|[->|[->|[->| ->]]]] by lia;
      repeat (rewrite lookup_insert_ne by discriminate);
      rewrite lookup_insert_eq; eauto.
Qed.

Lemma five_bars_summarize R : five_bars (summarize R).
Proof.
  destruct R as [|r R]; [apply five_bars_created|].
  intros i. simpl breakdown. split.
  - intros Hsome. destruct (decide (1 <= i <= 5)) as [|Hi]; [assumption|].
    rewrite bars_lookup_other, lookup_empty in Hsome by assumption.
    destruct Hsome; discriminate.
  - intros Hi. rewrite bars_lookup by assumption. eauto.
Qed.

(** [updateSummary] on a block that has its bars. *)
Lemma updateSummary_run self :
  five_bars (review_summary self) →
  updateSummary self
  = (Normal tt, set_review_summary (summarize (reviews self)) self)
    ∨ (reviews self = [] ∧ updateSummary self = (Normal tt, self)).
Proof.
  intros Hbars. unfold updateSummary. run.
  destruct (reviews self) as [|r R] eqn:ER; [right; split; reflexivity|].
  left. rewrite bool_decide_eq_false_2 by discriminate.
  cbv zeta. unfold for_each. run. cbn [review_summary set_review_summary breakdown].
  assert (H1 : is_Some (breakdown (review_summary self) !! 1)) by (apply Hbars; lia).
  assert (H2 : is_Some (breakdown (review_summary self) !! 2)) by (apply Hbars; lia).
  assert (H3 : is_Some (breakdown (review_summary self) !! 3)) by (apply Hbars; lia).
  assert (H4 : is_Some (breakdown (review_summary self) !! 4)) by (apply Hbars; lia).
  assert (H5 : is_Some (breakdown (review_summary self) !! 5)) by (apply Hbars; lia).
  destruct H1 as [b1 H1], H2 as [b2 H2], H3 as [b3 H3], H4 as [b4 H4], H5 as [b5 H5].
  rewrite H1. cbn [review_summary set_review_summary breakdown].
  rewrite lookup_insert_ne, H2 by discriminate.
  cbn [review_summary set_review_summary breakdown].
  rewrite !lookup_insert_ne, H3 by discriminate.
  cbn [review_summary set_review_summary breakdown].
  rewrite !lookup_insert_ne, H4 by discriminate.
  cbn [review_summary set_review_summary breakdown].
  rewrite !lookup_insert_ne, H5 by discriminate.
  f_equal. unfold set_review_summary. simpl. f_equal.
  unfold summarize. f_equal.
  rewrite <- (bars_canonical (r :: R) (breakdown (review_summary self)) Hbars).
  unfold bars, bar_of, star_count. reflexivity.
Qed.

End SummaryFacts.

(** ** The review system: what each method does to the state *)

Module ReviewSystemFacts.
Import JS ReviewSystem Notifications Summary Catalog SummaryFacts.

(** *** Saving *)

Lemma saveReviews_run self :
  (fits self ∧ saveReviews self = (Normal tt, set_localStorage (stored self) self))
  ∨ (¬ fits self ∧ saveReviews self = (Throw QuotaExceededError, self)).
Proof.
  unfold saveReviews, fits, stored, serialized. run. unfold Storage.setItem.
  destruct (decide _) as [Hfit|Hfit]; [left | right]; (split; [exact Hfit|]).
  - reflexivity.
  - destruct self; reflexivity.
Qed.

(** *** Rendering and adding *)

Lemma updateSummary_ready self :
  block_ready self →
  updateSummary self
  = (Normal tt, set_review_summary (summarize (reviews self)) self).
Proof.
  intros [Hbars Hnil].
  destruct (updateSummary_run self Hbars) as [-> | [HR ->]]; [reflexivity|].
  f_equal. rewrite HR. simpl. rewrite <- (Hnil HR). destruct self; reflexivity.
Qed.

Lemma renderReviews_run self :
  block_ready self →
  renderReviews self
  = (Normal tt,
     set_review_summary (summarize (reviews self))
       (set_reviews_list (λ _, map createReviewElement (reviews self)) self)).
Proof.
  intros Hready. unfold renderReviews. run.
  rewrite updateSummary_ready by exact Hready. reflexivity.
Qed.

Lemma addReview_run r self :
  five_bars (review_summary self) →
  let self1 := set_reviews (λ l, r :: l) self in
  (fits self1 ∧ addReview r self = (Normal tt, added r self))
  ∨ (¬ fits self1 ∧ addReview r self = (Throw QuotaExceededError, self1)).
Proof.
  intros Hbars self1. unfold addReview. run.
  fold self1.
  destruct (saveReviews_run self1) as [[Hfit ->] | [Hfit ->]];
    [left | right]; (split; [exact Hfit|]); [|reflexivity].
  rewrite renderReviews_run
    by (split; [exact Hbars | intros H; discriminate H]).
  rewrite updateSummary_ready
    by (split; [apply five_bars_summarize | intros H; discriminate H]).
  reflexivity.
Qed.

(** *** Submitting *)

Lemma submitReview_rejects f c self :
  truthy (parseInt (form_dataset_rating f)) = false →
  submitReview f c self
  = (Normal tt, notified "Please select a rating" "error" self).
Proof. intros H. unfold submitReview. rewrite H. reflexivity. Qed.

Lemma submitReview_accepts f c self :
  truthy (parseInt (form_dataset_rating f)) = true →
  ∃ rating, rating ≠ 0 ∧ parseInt (form_dataset_rating f) = Num rating
    ∧ submitReview f c self
      = (addReview (review_of f c rating);;
         notify "Thank you for your review!" "success") self.
Proof.
  intros H. unfold submitReview. rewrite H.
  destruct (parseInt (form_dataset_rating f)) as [|rating]; [discriminate H|].
  exists rating. repeat split. simpl in H.
  destruct (Z.eqb_spec rating 0); [discriminate H | assumption].
Qed.

End ReviewSystemFacts.

(** ** Fields a method leaves alone; submitting a review *)

Module ReviewCatalog.
Import JS ReviewSystem Notifications Summary Catalog SummaryFacts ReviewSystemFacts.

(** *** Methods that leave a field alone *)

Section Field.
Context {X : Type} (field : t → X).

Lemma field_bind {A B} (m : method t A) (k : A → method t B) self :
  (∀ a, keeps field (k a)) →
  field (exec (m ≫= k) self) = field (exec m self).
Proof.
  intros Hk. unfold exec, mbind, method_bind, bind.
  destruct (m self) as [[a|e] self1]; simpl; [apply Hk | reflexivity].
Qed.

Lemma keeps_bind {A B} (m : method t A) (k : A → method t B) :
  keeps field m → (∀ a, keeps field (k a)) → keeps field (m ≫= k).
Proof. intros Hm Hk self. rewrite field_bind by exact Hk. apply Hm. Qed.

Lemma keeps_ret {A} (a : A) : keeps field (ret a).
Proof. intros self. reflexivity. Qed.

Lemma keeps_throw {A} e : keeps field (throw e : method t A).
Proof. intros self. reflexivity. Qed.

Lemma keeps_get : keeps field (get : method t t).
Proof. intros self. reflexivity. Qed.

Lemma keeps_modify (f : t → t) :
  (∀ self, field (f self) = field self) → keeps field (modify f).
Proof. intros Hf self. apply Hf. Qed.

Lemma keeps_for_each {A} (l : list A) (body : A → method t unit) :
  (∀ x, keeps field (body x)) → keeps field (for_each l body).
Proof.
  intros Hbody. induction l as [|x l IH]; simpl.
  - apply keeps_ret.
  - apply keeps_bind; [apply Hbody | intros _; exact IH].
Qed.
End Field.

Lemma keeps_reviews_notify message type : keeps reviews (notify message type).
Proof. intros self. reflexivity. Qed.

Lemma keeps_saveReviews {X} (field : t → X) :
  (∀ ls self, field (set_localStorage ls self) = field self) →
  keeps field saveReviews.
Proof.
  intros Hfield self. unfold exec.
  destruct (saveReviews_run self) as [[_ ->] | [_ ->]]; [apply Hfield | reflexivity].
Qed.

Lemma keeps_updateSummary {X} (field : t → X) :
  (∀ s self, field (set_review_summary s self) = field self) →
  keeps field updateSummary.
Proof.
  intros Hfield.
  unfold updateSummary. apply keeps_bind; [apply keeps_get|]. intros self.
  destruct (bool_decide _); [apply keeps_ret|].
  cbv zeta. apply keeps_bind; [apply keeps_modify; intros; apply Hfield|]. intros _.
  apply keeps_for_each. intros i.
  apply keeps_bind; [apply keeps_get|]. intros self'.
  destruct (_ !! i); [apply keeps_modify; intros; apply Hfield | apply keeps_throw].
Qed.

Lemma keeps_reviews_saveReviews : keeps reviews saveReviews.
Proof. apply keeps_saveReviews. reflexivity. Qed.

Lemma keeps_summary_saveReviews : keeps review_summary saveReviews.
Proof. apply keeps_saveReviews. reflexivity. Qed.

Lemma keeps_reviews_updateSummary : keeps reviews updateSummary.
Proof. apply keeps_updateSummary. reflexivity. Qed.

Lemma keeps_reviews_renderReviews : keeps reviews renderReviews.
Proof.
  unfold renderReviews.
  apply keeps_bind; [apply keeps_modify; reflexivity|]. intros _.
  apply keeps_reviews_updateSummary.
Qed.

Lemma addReview_reviews r self :
  reviews (exec (addReview r) self) = r :: reviews self.
Proof.
  unfold addReview.
  assert (Hrest : keeps reviews (saveReviews;; renderReviews;; updateSummary)).
  { apply keeps_bind; [apply keeps_reviews_saveReviews|]. intros _.
    apply keeps_bind; [apply keeps_reviews_renderReviews|]. intros _.
    apply keeps_reviews_updateSummary. }
  unfold exec, mbind at 1, method_bind at 1, bind at 1. simpl.
  apply (Hrest (set_reviews (λ l, r :: l) self)).
Qed.



End ReviewCatalog.

(** ** Helpful votes *)

Module Helpful.
Import JS ReviewSystem Notifications Summary Catalog SummaryFacts ReviewSystemFacts ReviewCatalog.

Lemma find_id_absent reviewId l :
  reviewId ∉ map Review.id l →
  List.find (λ r, bool_decide (Review.id r = reviewId)) l = None.
Proof.
  induction l as [|r l IH]; simpl; [reflexivity|].
  rewrite not_elem_of_cons. intros [Hr Hl].
  rewrite bool_decide_eq_false_2 by congruence. apply IH, Hl.
Qed.

Lemma find_id_present reviewId l :
  reviewId ∈ map Review.id l →
  ∃ r, List.find (λ r, bool_decide (Review.id r = reviewId)) l = Some r.
Proof.
  induction l as [|r l IH]; simpl; [intros H; inversion H|].
  rewrite elem_of_cons. intros Hin.
  destruct (decide (Review.id r = reviewId)) as [Heq|Hne].
  - rewrite bool_decide_eq_true_2 by assumption. eauto.
  - rewrite bool_decide_eq_false_2 by assumption.
    apply IH. destruct Hin as [Hin|Hin]; [congruence | assumption].
Qed.

(** The first review with the id gets one more, the others nothing. *)
Lemma increment_found_first reviewId l1 r l2 :
  reviewId ∉ map Review.id l1 → Review.id r = reviewId →
  increment_found reviewId (l1 ++ r :: l2)
  = l1 ++ Review.increment_helpful r :: l2.
Proof.
  intros Hl1 Hr. induction l1 as [|x l1 IH]; simpl.
  - rewrite bool_decide_eq_true_2 by assumption. reflexivity.
  - simpl in Hl1. rewrite not_elem_of_cons in Hl1. destruct Hl1 as [Hx Hl1].
    rewrite bool_decide_eq_false_2 by congruence. f_equal. apply IH, Hl1.
Qed.

Lemma markHelpful_absent reviewId self :
  reviewId ∉ map Review.id (reviews self) →
  markHelpful reviewId self = (Normal tt, self).
Proof.
  intros Habsent. unfold markHelpful. run.
  rewrite find_id_absent by assumption. reflexivity.
Qed.

Lemma markHelpful_reviews reviewId self :
  reviewId ∈ map Review.id (reviews self) →
  reviews (exec (markHelpful reviewId) self)
  = increment_found reviewId (reviews self).
Proof.
  intros Hin. destruct (find_id_present _ _ Hin) as [r Hr].
  unfold markHelpful.
  unfold exec, mbind at 1, method_bind at 1, bind at 1, get at 1.
  rewrite Hr.
  unfold mbind at 1, method_bind at 1, bind at 1, modify at 1.
  set (self1 := set_reviews (increment_found reviewId) self).
  change (increment_found reviewId (reviews self)) with (reviews self1).
  refine (keeps_bind reviews saveReviews _ keeps_reviews_saveReviews _ self1).
  intros _. apply keeps_bind; [apply keeps_get|]. intros self2.
  destruct (update_button _ _ _); [|apply keeps_throw].
  apply keeps_bind; [apply keeps_modify; reflexivity|]. intros _.
  apply keeps_reviews_notify.
Qed.

(** C4, as amended: on an id that no review has, [markHelpful] does
    nothing at all: it returns normally, raises no error, shows no
    notification and leaves the collection and the storage as they
    were.  On an id that a review has, the first such review gets one
    more helpful vote, in memory, each time the method is called. *)
Theorem markHelpful_spec (self : t) (reviewId : Z) :
  (reviewId ∉ map Review.id (reviews self) →
     markHelpful reviewId self = (Normal tt, self))
  ∧ (∀ l1 r l2,
       reviews self = l1 ++ r :: l2 →
       reviewId ∉ map Review.id l1 → Review.id r = reviewId →
       reviews (exec (markHelpful reviewId) self)
       = l1 ++ Review.increment_helpful r :: l2
       ∧ reviews (exec (markHelpful reviewId) (exec (markHelpful reviewId) self))
         = l1 ++ Review.increment_helpful (Review.increment_helpful r) :: l2
       ∧ Review.helpful (Review.increment_helpful (Review.increment_helpful r))
         = Review.helpful r + 2).
Proof.
  split; [apply markHelpful_absent|].
  intros l1 r l2 HR Hl1 Hr.
  assert (Hin : ∀ r', Review.id r' = reviewId →
                      reviewId ∈ map Review.id (l1 ++ r' :: l2)).
  { intros r' Hr'. rewrite map_app. apply elem_of_app. right. simpl.
    rewrite Hr'. left. }
  assert (Hfirst : reviews (exec (markHelpful reviewId) self)
                   = l1 ++ Review.increment_helpful r :: l2).
  { rewrite markHelpful_reviews by (rewrite HR; auto).
    rewrite HR. apply increment_found_first; assumption. }
  split; [exact Hfirst|]. split; [|simpl; lia].
  rewrite markHelpful_reviews by (rewrite Hfirst; auto).
  rewrite Hfirst. apply increment_found_first; [assumption | exact Hr].
Qed.

(** C4 as stated fails: [markHelpful] on an unknown id does not fail;
    it completes normally and no notification tells of an error. *)
Lemma markHelpful_counterexample :
  map Review.id (reviews one_review) = [1700000000000]
  ∧ markHelpful 17 one_review = (Normal tt, one_review).
Proof. split; vm_compute; reflexivity. Qed.

Lemma markHelpful_witness :
  map Review.helpful
    (reviews (exec (markHelpful 1700000000000)
                (exec (markHelpful 1700000000000) one_review))) = [2].
Proof.
  destruct (proj2 (markHelpful_spec one_review 1700000000000)
              [] (review_of (bare_form "5") noon 5) [])
    as (_ & Htwice & _).
  - vm_compute. reflexivity.
  - simpl. apply not_elem_of_nil.
  - reflexivity.
  - rewrite Htwice. reflexivity.
Defined.

End Helpful.

(** ** A submission that succeeds *)

Module Submit.
Import JS ReviewSystem Notifications Summary Catalog SummaryFacts ReviewSystemFacts ReviewCatalog Helpful.



End Submit.

(** ** Filtering the list of reviews by stars *)

Module Filtering.
Import JS ReviewSystem Notifications Numerals Summary Catalog JSFacts SummaryFacts ReviewSystemFacts ReviewCatalog.

Lemma filterReviews_run chosen self :
  chosen ∈ filter_buttons →
  filterReviews chosen self
  = (Normal tt,
     set_reviews_list
       (map (λ i, set_style_display
                    (if shows chosen i then display_block else display_none) i))
       (set_active_filter (Some chosen) self)).
Proof.
  intros Hin. unfold filterReviews. run.
  rewrite bool_decide_eq_true_2 by assumption. reflexivity.
Qed.

Lemma star_button k :
  1 <= k <= 5 →
  Z_toString k ∈ filter_buttons
  ∧ Z_toString k ≠ js "all" ∧ Z_toString k ≠ js "images".
Proof.
  intros Hk.
  assert (k = 1 ∨ k = 2 ∨ k = 3 ∨ k = 4 ∨ k = 5) as [->|[->|[->|[->| ->]]]] by lia;
    (split; [refine (bool_decide_unpack _ _); vm_compute; exact I|]);
    split; discriminate.
Qed.

Lemma displayed_filter chosen (keep : Review.t → bool) items R :
  Forall2 shows_review items R →
  (∀ i r, shows_review i r → r ∈ R → shows chosen i = keep r) →
  map rendered
    (filter (λ i, style_display i ≠ display_none)
       (map (λ i, set_style_display
                    (if shows chosen i then display_block else display_none) i)
          items))
  = filter (λ r, keep r = true) R.
Proof.
  intros Hitems. induction Hitems as [|i r items R Hi _ IH]; intros Hkeep;
    [reflexivity|].
  simpl map. rewrite !filter_cons. rewrite (Hkeep i r Hi) by left.
  assert (IH' := IH (λ i' r' H' Hr', Hkeep i' r' H' (list_elem_of_further _ _ _ Hr'))).
  destruct Hi as [Hrendered _]. destruct (keep r) eqn:E; simpl.
  - destruct (decide (display_block ≠ display_none)); [|congruence].
    destruct (decide (true = true)); [|congruence].
    simpl. f_equal; [exact Hrendered | exact IH'].
  - destruct (decide (display_none ≠ display_none)); [congruence|].
    destruct (decide (false = true)); [congruence|]. exact IH'.
Qed.

Lemma filter_all (R : list Review.t) : filter (λ _ : Review.t, true = true) R = R.
Proof.
  induction R as [|r R IH]; [reflexivity|].
  rewrite filter_cons. destruct (decide (true = true)); [|congruence].
  f_equal. exact IH.
Qed.

Lemma filter_none (R : list Review.t) : filter (λ _ : Review.t, false = true) R = [].
Proof.
  induction R as [|r R IH]; [reflexivity|].
  rewrite filter_cons. destruct (decide (false = true)); [congruence|]. exact IH.
Qed.

Lemma filter_rating k (R : list Review.t) :
  filter (λ r, (Review.rating r =? k) = true) R
  = filter (λ r, Review.rating r = k) R.
Proof.
  induction R as [|r R IH]; [reflexivity|].
  rewrite !filter_cons. destruct (Z.eqb_spec (Review.rating r) k).
  - destruct (decide (true = true)); [|congruence].
    destruct (decide (Review.rating r = k)); [|congruence].
    f_equal. exact IH.
  - destruct (decide (false = true)); [congruence|].
    destruct (decide (Review.rating r = k)); [congruence|]. exact IH.
Qed.

(** C9: when the items of the list show the reviews of a collection,
    the filter All displays every one of them, in the order of the
    collection, a star filter those with exactly that rating, and With
    Images none. *)
Theorem filterReviews_views (self : t) (R : list Review.t) :
  Forall2 shows_review (reviews_list self) R →
  Forall (λ r, Z.abs (Review.rating r) < 10 ^ 21) R →
  (outcome (filterReviews (js "all")) self = Normal tt
   ∧ displayed_reviews (exec (filterReviews (js "all")) self) = R)
  ∧ (∀ k, 1 <= k <= 5 →
       outcome (filterReviews (Z_toString k)) self = Normal tt
       ∧ displayed_reviews (exec (filterReviews (Z_toString k)) self)
         = filter (λ r, Review.rating r = k) R)
  ∧ (outcome (filterReviews (js "images")) self = Normal tt
     ∧ displayed_reviews (exec (filterReviews (js "images")) self) = []).
Proof.
  intros Hitems Hratings.
  assert (Hall : js "all" ∈ filter_buttons)
    by (refine (bool_decide_unpack _ _); vm_compute; exact I).
  assert (Himages : js "images" ∈ filter_buttons)
    by (refine (bool_decide_unpack _ _); vm_compute; exact I).
  assert (Hrun : ∀ chosen, chosen ∈ filter_buttons →
    ∀ keep, (∀ i r, shows_review i r → r ∈ R → shows chosen i = keep r) →
    outcome (filterReviews chosen) self = Normal tt
    ∧ displayed_reviews (exec (filterReviews chosen) self)
      = filter (λ r, keep r = true) R).
  { intros chosen Hin keep Hkeep. unfold exec, outcome.
    rewrite filterReviews_run by assumption. split; [reflexivity|].
    unfold displayed_reviews. simpl.
    apply displayed_filter; assumption. }
  split; [|split].
  - destruct (Hrun _ Hall (λ _, true)) as [Hout Hshown]; [reflexivity|].
    rewrite filter_all in Hshown. split; assumption.
  - intros k Hk. destruct (star_button k Hk) as (Hin & Hnot_all & Hnot_images).
    rewrite <- filter_rating.
    apply (Hrun _ Hin (λ r, Review.rating r =? k)).
    intros i r [_ Hrating] Hr. unfold shows.
    rewrite bool_decide_eq_true_2 by assumption.
    rewrite bool_decide_eq_false_2 by assumption.
    rewrite Hrating. rewrite Forall_forall in Hratings.
    rewrite !parseInt_toString by (auto || lia). reflexivity.
  - destruct (Hrun _ Himages (λ _, false)) as [Hout Hshown]; [reflexivity|].
    rewrite filter_none in Hshown. split; assumption.
Qed.

Lemma filterReviews_witness :
  displayed_reviews
    (exec (filterReviews (Z_toString 4))
       (snd (init [rated 4; rated 5; rated 4] roomy)))
  = filter (λ r, Review.rating r = 4) [rated 4; rated 5; rated 4].
Proof.
  refine (proj2 (proj1 (proj2
    (filterReviews_views
       (snd (init [rated 4; rated 5; rated 4] roomy))
       [rated 4; rated 5; rated 4] _ _)) 4 _)).
  - repeat constructor.
  - repeat constructor; simpl; lia.
  - lia.
Defined.

End Filtering.

(** ** Loading and saving the reviews *)

Module Persistence.
Import JS JSON ReviewSystem JSONText Summary Catalog JSONFuel JSONRoundTrip SummaryFacts ReviewSystemFacts ReviewCatalog.

Lemma plain_strings l : Forall plain (map JStr l).
Proof. induction l; constructor; [constructor | assumption]. Qed.

Lemma plain_review r : well_formed r → plain (Review.toJSON r).
Proof.
  unfold well_formed, safe_integer. intros (Hid & Hrating & Hhelpful).
  unfold Review.toJSON. constructor.
  - refine (bool_decide_unpack _ _). vm_compute. exact I.
  - simpl. repeat constructor.
  - simpl. repeat (constructor; [constructor; (lia || apply plain_strings)|]).
    constructor.
Qed.

Lemma plain_collection R :
  Forall well_formed R → plain (JArr (map Review.toJSON R)).
Proof.
  intros HR. constructor. induction HR; constructor; [apply plain_review|]; assumption.
Qed.

Lemma toJSON_inj r r' : Review.toJSON r = Review.toJSON r' → r = r'.
Proof.
  destruct r, r'. unfold Review.toJSON. simpl. intros H.
  injection H as -> -> -> -> -> -> -> -> -> Himages.
  f_equal. revert images0 Himages.
  induction images as [|s l IH]; intros [|s' l']; simpl; try discriminate.
  - reflexivity.
  - intros [= -> Hl]. f_equal. apply IH, Hl.
Qed.

Lemma collection_inj R R' :
  JArr (map Review.toJSON R) = JArr (map Review.toJSON R') → R = R'.
Proof.
  intros [= H]. revert R' H.
  induction R as [|r R IH]; intros [|r' R']; simpl; try discriminate.
  - reflexivity.
  - remember (Review.toJSON r) as v eqn:Ev.
    remember (Review.toJSON r') as v' eqn:Ev'.
    intros [= Hr HR]. subst v v'.
    f_equal; [apply toJSON_inj, Hr | apply IH, HR].
Qed.

Lemma loadReviews_text ls c text :
  Storage.getItem storage_key ls = Some (c :: text) →
  loadReviews ls = parse (c :: text).
Proof. intros H. unfold loadReviews. rewrite H. reflexivity. Qed.

(** [JSON.parse] throws exactly on the texts that are not one value
    between white space, whatever the fuel. *)
Lemma parse_throws text :
  parse text = Throw SyntaxError
  ↔ ∀ f v r, parse_value f text = Some (v, r) → skip_ws r ≠ [].
Proof.
  unfold parse. split.
  - intros Hthrow f v r Hf.
    destruct (parse_fuel_enough f) as (Henough & _ & _).
    rewrite (Henough _ _ Hf) in Hthrow.
    destruct (skip_ws r); [discriminate Hthrow | discriminate].
  - intros Hnone.
    destruct (parse_value (2 * length text + 1) text) as [[v r]|] eqn:E;
      [|reflexivity].
    specialize (Hnone _ _ _ E). destruct (skip_ws r); [congruence | reflexivity].
Qed.

Lemma parse_outcomes text :
  parse text = Throw SyntaxError ∨ ∃ v, parse text = Normal v.
Proof.
  unfold parse. destruct (parse_value _ text) as [[v r]|]; [|left; reflexivity].
  destruct (skip_ws r); [right; eauto | left; reflexivity].
Qed.

(** C1, as amended: [loadReviews] returns the empty sequence when
    nothing is stored under the key or the stored text is empty.  Any
    other stored text goes to [JSON.parse]: a text that is not JSON
    makes it throw a SyntaxError, which [loadReviews] lets through to
    its caller; a text that is JSON gives its value, whether or not it
    is a sequence of reviews. *)
Theorem loadReviews_spec (ls : Storage.t) :
  (Storage.getItem storage_key ls = None
   ∨ Storage.getItem storage_key ls = Some [] →
     loadReviews ls = Normal (JArr []))
  ∧ (∀ c text,
       Storage.getItem storage_key ls = Some (c :: text) →
       loadReviews ls = parse (c :: text)
       ∧ (loadReviews ls = Throw SyntaxError ∨ ∃ v, loadReviews ls = Normal v)
       ∧ (loadReviews ls = Throw SyntaxError
          ↔ ∀ f v r, parse_value f (c :: text) = Some (v, r) → skip_ws r ≠ [])
       ∧ (∀ v, plain v → stringify v = c :: text → loadReviews ls = Normal v)).
Proof.
  split.
  - unfold loadReviews. intros [-> | ->]; reflexivity.
  - intros c text Hstored. rewrite (loadReviews_text _ _ _ Hstored).
    split; [reflexivity|]. split; [apply parse_outcomes|].
    split; [apply parse_throws|].
    intros v Hv <-. apply parse_stringify, Hv.
Qed.

(** C1 as stated fails: a stored text that is not JSON makes
    [loadReviews] throw, and a stored number is returned as it is. *)
Lemma loadReviews_counterexample :
  loadReviews (holding "{oops") = Throw SyntaxError
  ∧ loadReviews (holding "7") = Normal (JNum 7).
Proof. split; vm_compute; reflexivity. Qed.

Lemma loadReviews_witness :
  loadReviews (holding "[7,true]") = Normal (JArr [JNum 7; JBool true]).
Proof.
  refine (proj2 (proj2 (proj2 (proj2 (loadReviews_spec (holding "[7,true]"))
            91%N (js "7,true]") _)))
            (JArr [JNum 7; JBool true]) _ _).
  - vm_compute. reflexivity.
  - repeat constructor.
  - reflexivity.
Defined.

(** C7: what [saveReviews] stored, [loadReviews] returns: the value of
    the collection, which no other collection has. *)
Theorem save_load_round_trip (self : t) :
  Forall well_formed (reviews self) →
  outcome saveReviews self = Normal tt →
  loadReviews (localStorage (exec saveReviews self))
  = Normal (JArr (map Review.toJSON (reviews self)))
  ∧ (∀ R, loadReviews (localStorage (exec saveReviews self))
          = Normal (JArr (map Review.toJSON R)) → R = reviews self).
Proof.
  intros Hwf Hout.
  assert (Hload : loadReviews (localStorage (exec saveReviews self))
                  = Normal (JArr (map Review.toJSON (reviews self)))).
  { unfold exec, outcome in *.
    destruct (saveReviews_run self) as [[_ Hsave] | [_ Hsave]];
      rewrite Hsave in *; [|discriminate Hout].
    simpl. unfold loadReviews, Storage.getItem, stored. simpl.
    rewrite lookup_insert_eq. unfold serialized.
    apply parse_stringify, plain_collection, Hwf. }
  split; [exact Hload|].
  intros R HR. rewrite Hload in HR. injection HR as HR.
  symmetry. apply collection_inj. f_equal. exact HR.
Qed.

Lemma save_load_witness :
  loadReviews (localStorage (exec saveReviews one_review))
  = Normal (JArr (map Review.toJSON (reviews one_review))).
Proof.
  apply (save_load_round_trip one_review).
  - repeat constructor; vm_compute; discriminate.
  - vm_compute. reflexivity.
Defined.

End Persistence.

(** ** The summary shown when the page opens *)

Module Aggregation.
Import JS ReviewSystem Summary Catalog SummaryFacts ReviewSystemFacts ReviewCatalog.

Lemma fold_left_ratings R a :
  fold_left (λ sum review, sum + Review.rating review) R a
  = a + sum_of_ratings R.
Proof.
  revert a. induction R as [|r R IH]; intros a; simpl.
  - unfold sum_of_ratings. simpl. lia.
  - rewrite IH. unfold sum_of_ratings. simpl. lia.
Qed.

Lemma total_rating_sum R : total_rating R = sum_of_ratings R.
Proof. unfold total_rating. rewrite fold_left_ratings. lia. Qed.

Lemma star_count_cons r R k :
  star_count (r :: R) k
  = ((if decide (Review.rating r = k) then 1 else 0) + star_count R k)%nat.
Proof.
  unfold star_count. rewrite filter_cons.
  destruct (decide (Review.rating r = k)); reflexivity.
Qed.

(** Every review with a rating from 1 to 5 is counted in one bar. *)
Lemma star_counts_total R :
  Forall (λ r, 1 <= Review.rating r <= 5) R →
  (star_count R 1 + star_count R 2 + star_count R 3 + star_count R 4
   + star_count R 5)%nat = length R.
Proof.
  induction 1 as [|r R Hr _ IH]; [reflexivity|].
  rewrite !star_count_cons. simpl length. rewrite <- IH.
  repeat destruct (decide _); lia.
Qed.

Lemma init_run R ls :
  fst (init R ls) = Normal tt
  ∧ review_summary (snd (init R ls)) = summarize R
  ∧ reviews (snd (init R ls)) = R
  ∧ reviews_list (snd (init R ls)) = map createReviewElement R
  ∧ localStorage (snd (init R ls)) = ls.
Proof.
  unfold init. rewrite renderReviews_run.
  - repeat split; reflexivity.
  - split; [apply five_bars_created | reflexivity].
Qed.

(** C2: the summary the constructor shows for a collection: its
    length; 0, or the sum of its ratings divided by its length; for each
    star from 1 to 5 a bar, which counts the reviews with that rating;
    and, the ratings being from 1 to 5, bars that add up to the length. *)
Theorem init_summarizes (R : list Review.t) (ls : Storage.t) :
  let s := review_summary (snd (init R ls)) in
  fst (init R ls) = Normal tt
  ∧ rating_count s = length R
  ∧ rating_number s
    = (if decide (length R = 0%nat) then 0
       else inject_Z (sum_of_ratings R) / inject_Z (Z.of_nat (length R)))%Q
  ∧ (∀ k, 1 <= k <= 5 →
       count_text <$> breakdown s !! k
       = Some (length (filter (λ r, Review.rating r = k) R)))
  ∧ (∀ k, is_Some (breakdown s !! k) ↔ 1 <= k <= 5)
  ∧ (Forall (λ r, 1 <= Review.rating r <= 5) R →
       foldr Nat.add 0%nat
         (map (λ k, length (filter (λ r, Review.rating r = k) R)) [1; 2; 3; 4; 5])
       = rating_count s)
  ∧ (R = [] →
       rating_number s = 0%Q
       ∧ ∀ k, 1 <= k <= 5 → count_text <$> breakdown s !! k = Some 0%nat).
Proof.
  intros s. destruct (init_run R ls) as (Hout & Hs & _). subst s. rewrite Hs.
  split; [exact Hout|].
  assert (Hbars : ∀ k, 1 <= k <= 5 →
    count_text <$> breakdown (summarize R) !! k = Some (star_count R k)).
  { intros k Hk. destruct R as [|r R].
    - change (breakdown (summarize []))
        with (<[5 := empty_bar]> (<[4 := empty_bar]> (<[3 := empty_bar]>
               (<[2 := empty_bar]> (<[1 := empty_bar]> (∅ : gmap Z rating_bar)))))).
      assert (k = 1 ∨ k = 2 ∨ k = 3 ∨ k = 4 ∨ k = 5) as [->|[->|[->|[->| ->]]]] by lia;
        repeat (rewrite lookup_insert_ne by discriminate);
        rewrite lookup_insert_eq; reflexivity.
    - simpl breakdown. rewrite bars_lookup by assumption. reflexivity. }
  assert (Hcount : rating_count (summarize R) = length R)
    by (destruct R; reflexivity).
  split; [exact Hcount|]. split.
  { destruct R as [|r R]; [reflexivity|].
    simpl rating_number. unfold averageRating. rewrite total_rating_sum.
    destruct (decide _) as [H|_]; [discriminate H | reflexivity]. }
  split; [exact Hbars|]. split; [apply five_bars_summarize|]. split.
  { intros Hratings. rewrite Hcount, <- (star_counts_total R Hratings).
    unfold star_count. simpl. lia. }
  intros ->. split; [reflexivity|]. intros k Hk. apply (Hbars k Hk).
Qed.

Lemma init_summarizes_witness :
  foldr Nat.add 0%nat
    (map (λ k, length (filter (λ r, Review.rating r = k)
                         [rated 4; rated 4; rated 5]))
       [1; 2; 3; 4; 5])
  = rating_count
      (review_summary (snd (init [rated 4; rated 4; rated 5] roomy))).
Proof.
  refine (proj1 (proj2 (proj2 (proj2 (proj2 (proj2
    (init_summarizes [rated 4; rated 4; rated 5] roomy)))))) _).
  repeat constructor; simpl; lia.
Defined.

End Aggregation.

(** ** Sessions: the page after any sequence of events *)

Module Sessions.
Import JS ReviewSystem Notifications Summary Catalog SummaryFacts ReviewSystemFacts ReviewCatalog Aggregation.

Lemma keeps_summary_markHelpful reviewId : keeps review_summary (markHelpful reviewId).
Proof.
  unfold markHelpful. apply keeps_bind; [apply keeps_get|]. intros self.
  destruct (List.find _ _); [|apply keeps_ret].
  apply keeps_bind; [apply keeps_modify; reflexivity|]. intros _.
  apply keeps_bind; [apply keeps_summary_saveReviews|]. intros _.
  apply keeps_bind; [apply keeps_get|]. intros self'.
  destruct (update_button _ _ _); [|apply keeps_throw].
  apply keeps_bind; [apply keeps_modify; reflexivity|]. intros _.
  apply keeps_modify. reflexivity.
Qed.

Lemma keeps_summary_filterReviews chosen : keeps review_summary (filterReviews chosen).
Proof.
  unfold filterReviews.
  apply keeps_bind; [apply keeps_modify; reflexivity|]. intros _.
  apply keeps_bind.
  - destruct (bool_decide _); [apply keeps_modify; reflexivity | apply keeps_throw].
  - intros _. apply keeps_modify. reflexivity.
Qed.

Lemma submitReview_summary f c self :
  five_bars (review_summary self) →
  five_bars (review_summary (exec (submitReview f c) self)).
Proof.
  intros Hbars.
  destruct (truthy (parseInt (form_dataset_rating f))) eqn:Hrating.
  - destruct (submitReview_accepts f c self Hrating) as (rating & _ & _ & Hrun).
    unfold exec. rewrite Hrun. unfold mbind, method_bind, bind.
    destruct (addReview_run (review_of f c rating) self Hbars)
      as [[_ ->] | [_ ->]]; simpl;
      [exact (five_bars_summarize (review_of f c rating :: reviews self))
      | exact Hbars].
  - unfold exec. rewrite submitReview_rejects by assumption. exact Hbars.
Qed.

Lemma react_bars e self :
  five_bars (review_summary self) →
  five_bars (review_summary (exec (react e) self)).
Proof.
  intros Hbars. destruct e as [f c|reviewId|chosen|reviewId]; simpl react.
  - apply submitReview_summary, Hbars.
  - rewrite keeps_summary_markHelpful. exact Hbars.
  - rewrite keeps_summary_filterReviews. exact Hbars.
  - exact Hbars.
Qed.

(** *** The items of the list keep the rating of their review *)

Lemma maintains_bind {A B} P (m : method t A) (k : A → method t B) :
  maintains P m → (∀ a, maintains P (k a)) → maintains P (m ≫= k).
Proof.
  intros Hm Hk self HP. specialize (Hm self HP).
  unfold exec, mbind, method_bind, bind in *.
  destruct (m self) as [[a|e] self1]; simpl in *; [apply Hk, Hm | exact Hm].
Qed.

Lemma maintains_get_bind {B} (P : t → Prop) (k : t → method t B) :
  (∀ self, P self → P (exec (k self) self)) → maintains P (get ≫= k).
Proof. intros Hk self HP. exact (Hk self HP). Qed.

Lemma keeps_labelled {A} (m : method t A) :
  keeps reviews_list m → maintains labelled m.
Proof. intros Hm self H. unfold labelled. rewrite Hm. exact H. Qed.

Lemma update_button_labelled reviewId count l items :
  update_button reviewId count l = Some items →
  Forall (λ i, shows_review i (rendered i)) l →
  Forall (λ i, shows_review i (rendered i)) items.
Proof.
  revert items. induction l as [|i l IH]; intros items; simpl; [discriminate|].
  intros Hsome Hl. inversion Hl as [|? ? Hi Hl']; subst.
  destruct (bool_decide _).
  - injection Hsome as <-. constructor; [exact Hi | exact Hl'].
  - destruct (update_button reviewId count l) as [items'|]; [|discriminate].
    injection Hsome as <-. constructor; [exact Hi | apply IH; [reflexivity | exact Hl']].
Qed.

Lemma renderReviews_labelled : maintains labelled renderReviews.
Proof.
  unfold renderReviews. apply maintains_bind.
  - intros self _. unfold labelled. simpl.
    apply Forall_map, Forall_forall. intros r _. split; reflexivity.
  - intros _. apply keeps_labelled, keeps_updateSummary. reflexivity.
Qed.

Lemma submitReview_labelled f c : maintains labelled (submitReview f c).
Proof.
  unfold submitReview. destruct (truthy _); simpl negb; cbv iota;
    [|apply keeps_labelled; intros self; reflexivity].
  destruct (parseInt _) as [|rating]; [apply keeps_labelled, keeps_ret|].
  cbv zeta. apply maintains_bind;
    [|intros _; apply keeps_labelled; intros self; reflexivity].
  unfold addReview.
  apply maintains_bind; [apply keeps_labelled, keeps_modify; reflexivity|]. intros _.
  apply maintains_bind; [apply keeps_labelled, keeps_saveReviews; reflexivity|].
  intros _.
  apply maintains_bind; [apply renderReviews_labelled|]. intros _.
  apply keeps_labelled, keeps_updateSummary. reflexivity.
Qed.

Lemma markHelpful_labelled reviewId : maintains labelled (markHelpful reviewId).
Proof.
  unfold markHelpful. apply maintains_get_bind. intros self Hself.
  destruct (List.find _ _) as [review|]; [|exact Hself].
  refine (maintains_bind labelled _ _ _ _ self Hself);
    [apply keeps_labelled, keeps_modify; reflexivity|]. intros _.
  apply maintains_bind; [apply keeps_labelled, keeps_saveReviews; reflexivity|].
  intros _. apply maintains_get_bind. intros self' Hself'.
  destruct (update_button _ _ _) as [items|] eqn:Hitems; [|exact Hself'].
  exact (update_button_labelled _ _ _ _ Hitems Hself').
Qed.

Lemma filterReviews_labelled chosen : maintains labelled (filterReviews chosen).
Proof.
  unfold filterReviews.
  apply maintains_bind; [apply keeps_labelled, keeps_modify; reflexivity|]. intros _.
  apply maintains_bind.
  - destruct (bool_decide _); apply keeps_labelled;
      [apply keeps_modify; reflexivity | apply keeps_throw].
  - intros _ self Hself. unfold labelled in *. simpl.
    apply Forall_map. eapply Forall_impl; [exact Hself|].
    intros i Hi. exact Hi.
Qed.

Lemma react_labelled e : maintains labelled (react e).
Proof.
  destruct e as [f c|reviewId|chosen|reviewId]; simpl react.
  - apply submitReview_labelled.
  - apply markHelpful_labelled.
  - apply filterReviews_labelled.
  - apply keeps_labelled. intros self. reflexivity.
Qed.

(** X5: whatever happens on the page, every item of the list shows the
    review it was rendered from, with its rating in [data-rating]: the
    filters of the list can be applied in any state the page reaches. *)
Theorem session_items_show_reviews (loaded : list Review.t) (ls : Storage.t)
    (es : list event) :
  let self := session loaded ls es in
  Forall2 shows_review (reviews_list self) (map rendered (reviews_list self)).
Proof.
  intros self. assert (Hself : labelled self).
  { subst self. unfold session. induction es as [|e es IH] using rev_ind.
    - simpl. destruct (Aggregation.init_run loaded ls) as (_ & _ & _ & Hlist & _).
      unfold labelled. rewrite Hlist.
      apply Forall_map, Forall_forall. intros r _. split; reflexivity.
    - rewrite foldl_app. simpl. apply react_labelled, IH. }
  unfold labelled in Hself. induction Hself as [|i l Hi _ IH]; constructor;
    [exact Hi | exact IH].
Qed.

(** X4: whatever happens on the page, the summary block keeps the five
    bars of its markup, which is what [submitReview] needs to render
    the summary. *)
Theorem session_keeps_bars (loaded : list Review.t) (ls : Storage.t)
    (es : list event) :
  five_bars (review_summary (session loaded ls es)).
Proof.
  unfold session. induction es as [|e es IH] using rev_ind.
  - simpl. destruct (Aggregation.init_run loaded ls) as (_ & -> & _).
    apply five_bars_summarize.
  - rewrite foldl_app. simpl. apply react_bars, IH.
Qed.

(** X3: when the storage has no room for the new text, [submitReview]
    ends on the QuotaExceededError of [setItem]: the review is in the
    collection in memory; the storage, the list and the summary are what
    they were, and no notification is shown. *)
Theorem submitReview_storage_full (f : form) (c : clock) (self : t) (rating : Z) :
  five_bars (review_summary self) →
  parseInt (form_dataset_rating f) = Num rating → rating ≠ 0 →
  ¬ fits (set_reviews (λ l, review_of f c rating :: l) self) →
  submitReview f c self
  = (Throw QuotaExceededError,
     set_reviews (λ l, review_of f c rating :: l) self).
Proof.
  intros Hbars Hrating Hne Hfull.
  destruct (submitReview_accepts f c self) as (z & _ & Ez & Hrun).
  { rewrite Hrating. simpl. destruct (Z.eqb_spec rating 0); [lia | reflexivity]. }
  rewrite Hrating in Ez. injection Ez as <-.
  rewrite Hrun. unfold mbind, method_bind, bind.
  destruct (addReview_run (review_of f c rating) self Hbars)
    as [[Hfit _] | [_ ->]]; [contradiction | reflexivity].
Qed.

Lemma submitReview_storage_full_witness :
  outcome (submitReview (bare_form "5") noon) (snd (init [] cramped))
  = Throw QuotaExceededError
  ∧ length (reviews (exec (submitReview (bare_form "5") noon)
                      (snd (init [] cramped)))) = 1%nat.
Proof.
  unfold outcome, exec.
  rewrite (submitReview_storage_full (bare_form "5") noon
             (snd (init [] cramped)) 5).
  - split; reflexivity.
  - apply five_bars_created.
  - reflexivity.
  - discriminate.
  - unfold fits. vm_compute. lia.
Defined.

End Sessions.

(** ** The compare bar follows the tray *)

Module TrayBar.
Import JS ProductComparison Tray TrayGauge ProductComparisonFacts.

Lemma updateCompareBar_in_step self : in_step (exec updateCompareBar self).
Proof. reflexivity. Qed.

Lemma handle_in_step g self : in_step self → in_step (exec (handle g) self).
Proof.
  intros Hself. destruct g as [productId|productId|]; simpl handle;
    try reflexivity.
  unfold exec, addToCompare, mbind, method_bind, bind, get.
  destruct (bool_decide _); [reflexivity|].
  destruct (bool_decide _); [reflexivity | exact Hself].
Qed.

(** X6: whatever the gestures, the compare bar tells the tray: its
    count is the number of products in the list, Compare Now is
    enabled exactly from two products on, and the bar is shown exactly
    when the list is not empty. *)
Theorem compare_bar_follows_list (gs : list gesture) :
  let self := after gs in
  compare_count (compare_bar self) = length (compareList self)
  ∧ (btn_compare_disabled (compare_bar self) = false
     ↔ (2 <= length (compareList self))%nat)
  ∧ (bar_active (compare_bar self) = true ↔ compareList self ≠ []).
Proof.
  intros self. assert (Hself : in_step self).
  { subst self. unfold after. induction gs as [|g gs IH] using rev_ind.
    - reflexivity.
    - rewrite foldl_app. apply handle_in_step, IH. }
  rewrite Hself. simpl. split; [reflexivity|]. split.
  - rewrite bool_decide_eq_false. lia.
  - rewrite bool_decide_eq_true. destruct (compareList self); simpl; split;
      (lia || congruence || (intros; lia)).
Qed.




End TrayBar.

(** ** Mean, stars and bars of the summary *)

Module Proportions.
Import JS ReviewSystem Summary Catalog Shares SummaryFacts ReviewSystemFacts Aggregation.







End Proportions.

(** ** The storage follows the collection *)

Module Durability.
Import JS JSON ReviewSystem Notifications JSONText Summary Catalog Ledger JSONRoundTrip SummaryFacts ReviewSystemFacts ReviewCatalog Helpful Persistence.

Lemma stored_in_step self : in_step (set_localStorage (stored self) self).
Proof. unfold in_step, Storage.getItem, stored. simpl. apply lookup_insert_eq. Qed.

Lemma markHelpful_run reviewId self review :
  List.find (λ r, bool_decide (Review.id r = reviewId)) (reviews self) = Some review →
  let self1 := set_reviews (increment_found reviewId) self in
  (¬ fits self1 ∧ markHelpful reviewId self = (Throw QuotaExceededError, self1))
  ∨ (fits self1
     ∧ match update_button reviewId (Review.helpful review + 1) (reviews_list self) with
       | Some items => markHelpful reviewId self = (Normal tt, voted reviewId items self)
       | None =>
           markHelpful reviewId self
           = (Throw TypeError, set_localStorage (stored self1) self1)
       end).
Proof.
  intros Hfind self1.
  assert (Hrun : markHelpful reviewId self
    = match saveReviews self1 with
      | (Normal _, self2) =>
          match update_button reviewId (Review.helpful review + 1)
                  (reviews_list self2) with
          | Some items =>
              notify "Thank you for your feedback!" "success"
                (set_reviews_list (λ _, items) self2)
          | None => (Throw TypeError, self2)
          end
      | (Throw e, self2) => (Throw e, self2)
      end).
  { unfold markHelpful, mbind, method_bind, bind, get, modify, throw.
    rewrite Hfind. fold self1. destruct (saveReviews self1) as [[[]|e] self2];
      [|reflexivity]. destruct (update_button _ _ _); reflexivity. }
  rewrite Hrun.
  destruct (saveReviews_run self1) as [[Hfit ->] | [Hfit ->]]; [right | left; auto].
  split; [exact Hfit|]. simpl reviews_list.
  destruct (update_button _ _ _); reflexivity.
Qed.

Lemma in_step_reload self :
  in_step self → Forall well_formed (reviews self) →
  loadReviews (localStorage self) = Normal (JArr (map Review.toJSON (reviews self))).
Proof.
  intros Hstep Hwf. unfold loadReviews. rewrite Hstep. unfold serialized.
  rewrite parse_stringify by (apply plain_collection, Hwf).
  destruct (stringify _) eqn:E; [|reflexivity].
  discriminate E.
Qed.

(** X9: a handler of the review system that completes normally leaves
    the storage in step with the collection in memory: what a reload
    of the page would read is the collection the page shows. *)
Theorem storage_follows_collection (e : event) (self : t) :
  five_bars (review_summary self) →
  in_step self →
  outcome (react e) self = Normal tt →
  let self' := exec (react e) self in
  in_step self'
  ∧ (Forall well_formed (reviews self') →
     loadReviews (localStorage self')
     = Normal (JArr (map Review.toJSON (reviews self')))).
Proof.
  intros Hbars Hstep Hout self'.
  assert (Hstep' : in_step self'); [|split; [exact Hstep' | apply in_step_reload, Hstep']].
  subst self'. unfold exec, outcome in *.
  destruct e as [f c|reviewId|chosen|reviewId]; simpl react in *.
  - destruct (truthy (parseInt (form_dataset_rating f))) eqn:Hrating.
    + destruct (submitReview_accepts f c self Hrating) as (rating & _ & _ & Hrun).
      rewrite Hrun in *. unfold mbind, method_bind, bind in *.
      destruct (addReview_run (review_of f c rating) self Hbars)
        as [[_ Hadd] | [_ Hadd]]; rewrite Hadd in *; [|discriminate Hout].
      simpl. apply (stored_in_step (set_reviews (λ l, review_of f c rating :: l) self)).
    + rewrite submitReview_rejects by assumption. exact Hstep.
  - destruct (List.find (λ r, bool_decide (Review.id r = reviewId)) (reviews self))
      as [review|] eqn:Hfind.
    + destruct (markHelpful_run reviewId self review Hfind)
        as [[_ Hrun] | [_ Hrun]]; [rewrite Hrun in Hout; discriminate Hout|].
      destruct (update_button _ _ _) as [items|];
        rewrite Hrun in *; [|discriminate Hout].
      apply (stored_in_step (set_reviews (increment_found reviewId) self)).
    + unfold markHelpful. run. rewrite Hfind. exact Hstep.
  - clear Hout. unfold filterReviews. run.
    destruct (bool_decide (chosen ∈ filter_buttons)); exact Hstep.
  - exact Hstep.
Qed.

Lemma storage_follows_collection_witness :
  Storage.getItem storage_key
    (localStorage (exec (markHelpful 1700000000000) one_review))
  = Some (serialized (reviews (exec (markHelpful 1700000000000) one_review))).
Proof.
  refine (proj1 (storage_follows_collection (MarkHelpful 1700000000000)
                   one_review _ _ _)).
  - exact (five_bars_summarize [review_of (bare_form "5") noon 5]).
  - vm_compute. reflexivity.
  - vm_compute. reflexivity.
Defined.

(** X10: when the storage has no room for the new text, [markHelpful]
    ends on the QuotaExceededError of [setItem]: the vote is counted in
    memory only; the storage, the button of the review and the
    notifications are what they were, and a reload loses the vote. *)
Theorem markHelpful_storage_full (reviewId : Z) (self : t) :
  reviewId ∈ map Review.id (reviews self) →
  ¬ fits (set_reviews (increment_found reviewId) self) →
  markHelpful reviewId self
  = (Throw QuotaExceededError, set_reviews (increment_found reviewId) self).
Proof.
  intros Hin Hfull. destruct (find_id_present _ _ Hin) as [review Hfind].
  destruct (markHelpful_run reviewId self review Hfind) as [[_ Hrun] | [Hfit _]];
    [exact Hrun | contradiction].
Qed.

Lemma markHelpful_storage_full_witness :
  outcome (markHelpful 1) (tight 9) = Throw QuotaExceededError
  ∧ map Review.helpful (reviews (exec (markHelpful 1) (tight 9))) = [10]
  ∧ localStorage (exec (markHelpful 1) (tight 9)) = localStorage (tight 9).
Proof.
  unfold outcome, exec. rewrite (markHelpful_storage_full 1 (tight 9)).
  - repeat split.
  - refine (bool_decide_unpack _ _). vm_compute. exact I.
  - unfold fits. vm_compute. lia.
Defined.

End Durability.

(** ** The feedback widget: what is stored *)

Module FeedbackLog.
Import JS JSON Notifications FeedbackWidget JSONText Feedback JSONRoundTrip.

Lemma plain_feedback fb : plain (toJSON fb).
Proof.
unfold toJSON. constructor.
- refine (bool_decide_unpack _ _). vm_compute. exact I.
- simpl. repeat constructor.
- simpl. repeat constructor.
Qed.

Lemma saved_text_stored ls text self :
text ≠ [] →
Storage.getItem storage_key ls = Some text →
saved_text (set_localStorage ls self) = text.
Proof.
intros Hne Hget. unfold saved_text. simpl. rewrite Hget.
destruct text; [congruence | reflexivity].
Qed.

Lemma stringify_array_nonempty l : stringify (JArr l) ≠ [].
Proof. discriminate. Qed.

(** What one submit does, the stored text being that of an array. *)
Lemma submitFeedback_run c pathname self l :
parse (saved_text self) = Normal (JArr l) →
let text := stringify (JArr (l ++ [toJSON (feedback_of (feedback_form self) c pathname)])) in
let m := <[storage_key := text]> (Storage.entries (localStorage self)) in
if decide (Storage.usage m ≤ Storage.quota (localStorage self))%nat then
  submitFeedback c pathname self
  = (Normal tt,
     {| localStorage := {| Storage.entries := m;
                           Storage.quota := Storage.quota (localStorage self) |};
        panel_active := false;
        feedback_form := form_reset;
        notifications :=
          notifications self ++ [(js "Thank you for your feedback!", js "success")] |})
else submitFeedback c pathname self = (Throw QuotaExceededError, self).
Proof.
intros Hparse text m. unfold submitFeedback, mbind, method_bind, bind, get.
fold (saved_text self). rewrite Hparse.
unfold zoom, Storage.setItem. fold (feedback_of (feedback_form self) c pathname).
fold text. fold m.
destruct (decide _); [reflexivity|]. destruct self; reflexivity.
Qed.

(** X11: as long as no handler throws, the stored text is the JSON text
  of an array which holds, after what it held at first, the feedbacks
  that were submitted, each as the form was filled, in the order they
  were sent. *)
Theorem feedback_is_logged (self : t) (es : list event) (l : list value) :
parse (saved_text self) = Normal (JArr l) →
Forall plain l →
outcome (react_all es) self = Normal tt →
parse (saved_text (exec (react_all es) self))
= Normal (JArr (l ++ map toJSON (sent (feedback_form self) es))).
Proof.
revert self l. induction es as [|e es IH]; intros self l Hparse Hl Hout.
- simpl. rewrite app_nil_r. exact Hparse.
- unfold outcome, exec in *. simpl react_all in *.
  unfold mbind, method_bind, bind in *.
  destruct e as [f| | | |c pathname]; simpl react in *;
    [exact (IH (set_feedback_form f self) l Hparse Hl Hout)
    |exact (IH (set_panel_active negb self) l Hparse Hl Hout)
    |exact (IH (set_panel_active (λ _, false) self) l Hparse Hl Hout)
    |exact (IH (set_feedback_form form_reset (set_panel_active (λ _, false) self))
              l Hparse Hl Hout)
    |].
  pose proof (submitFeedback_run c pathname self l Hparse) as Hrun.
  cbv zeta in Hrun. unfold form_submit in *.
  destruct (decide _) as [Hfit|Hfull]; rewrite Hrun in *; [|discriminate Hout].
  match type of Hout with (react_all es ?s).1 = _ => set (self1 := s) in * end.
  simpl sent. simpl map.
  replace (l ++ toJSON (feedback_of (feedback_form self) c pathname)
             :: map toJSON (sent form_reset es))
    with ((l ++ [toJSON (feedback_of (feedback_form self) c pathname)])
          ++ map toJSON (sent (feedback_form self1) es))
    by (rewrite <- app_assoc; reflexivity).
  assert (Hplain : Forall plain (l ++ [toJSON (feedback_of (feedback_form self) c pathname)])).
  { apply Forall_app. split; [exact Hl|]. constructor; [apply plain_feedback | constructor]. }
  apply (IH self1 _); [|exact Hplain | exact Hout].
  unfold saved_text, Storage.getItem, self1. simpl Storage.entries.
  rewrite lookup_insert_eq.
  exact (parse_stringify (JArr _) (plain_arr _ Hplain)).
Qed.

Lemma feedback_is_logged_witness :
parse (saved_text
         (exec (react_all [Trigger; Fill bug_report; Submit Catalog.noon (js "/");
                           Trigger; Fill praise; Submit Catalog.noon (js "/bags")])
            blank))
= Normal (JArr [toJSON (feedback_of bug_report Catalog.noon (js "/"));
                toJSON (feedback_of praise Catalog.noon (js "/bags"))]).
Proof.
apply (feedback_is_logged blank
         [Trigger; Fill bug_report; Submit Catalog.noon (js "/");
          Trigger; Fill praise; Submit Catalog.noon (js "/bags")] []).
- vm_compute. reflexivity.
- constructor.
- vm_compute. reflexivity.
Defined.

Lemma submitFeedback_blocked c pathname self :
(∀ l, parse (saved_text self) ≠ Normal (JArr l)) →
submitFeedback c pathname self = (Throw SyntaxError, self)
∨ submitFeedback c pathname self = (Throw TypeError, self).
Proof.
intros Hnot. unfold submitFeedback, mbind, method_bind, bind, get, throw.
fold (saved_text self).
destruct (Persistence.parse_outcomes (saved_text self)) as [-> | [v Hv]];
  [left; reflexivity|].
rewrite Hv. destruct v; try (right; reflexivity).
exfalso. exact (Hnot _ Hv).
Qed.

Lemma react_storage e self :
(∀ l, parse (saved_text self) ≠ Normal (JArr l)) →
localStorage (exec (react e) self) = localStorage self
∧ notifications (exec (react e) self) = notifications self.
Proof.
intros Hnot. destruct e as [f| | | |c pathname]; try (split; reflexivity).
simpl react. unfold form_submit, exec.
destruct (submitFeedback_blocked c pathname self Hnot) as [-> | ->];
  split; reflexivity.
Qed.

(** X12: when the stored text is not the JSON text of an array, the
  widget is stuck: whatever the user does, every submit ends on a
  SyntaxError or a TypeError, nothing is stored and no notification is
  shown. *)
Theorem corrupted_store_blocks (self : t) (es : list event) :
(∀ l, parse (saved_text self) ≠ Normal (JArr l)) →
let self' := after self es in
localStorage self' = localStorage self
∧ notifications self' = notifications self
∧ ∀ c pathname,
    submitFeedback c pathname self' = (Throw SyntaxError, self')
    ∨ submitFeedback c pathname self' = (Throw TypeError, self').
Proof.
intros Hnot self'. subst self'. unfold after.
induction es as [|e es IH] using rev_ind.
- simpl. split; [reflexivity|]. split; [reflexivity|].
  intros c pathname. apply submitFeedback_blocked, Hnot.
- rewrite foldl_app. simpl foldl.
  set (self1 := foldl (λ self e, exec (react e) self) self es) in *.
  destruct IH as (Hls & Hns & _).
  assert (Hnot1 : ∀ l, parse (saved_text self1) ≠ Normal (JArr l))
    by (unfold saved_text in *; rewrite Hls; exact Hnot).
  destruct (react_storage e self1 Hnot1) as [Hls' Hns'].
  split; [congruence|]. split; [congruence|].
  intros c pathname. apply submitFeedback_blocked.
  unfold saved_text in *. rewrite Hls'. exact Hnot1.
Qed.

Lemma corrupted_store_blocks_witness :
localStorage (after spoilt [Fill praise; Submit Catalog.noon (js "/")])
= localStorage spoilt
∧ notifications (after spoilt [Fill praise; Submit Catalog.noon (js "/")]) = [].
Proof.
destruct (corrupted_store_blocks spoilt
            [Fill praise; Submit Catalog.noon (js "/")])
  as (Hls & Hns & _).
- intros l. vm_compute. discriminate.
- split; [exact Hls | exact Hns].
Defined.

End FeedbackLog.

(** ** The star widget *)

Module StarRatingFacts.
Import JS Numerals JSFacts StarRating StarEvents.

Section Callback.
Context {E : Type}.
Implicit Types (self : @t E) (w : @t E * E) (env : E).

Lemma render_shows_rating self : shows_rating (render self).
Proof.
unfold shows_rating, render. simpl. rewrite !map_map. simpl.
repeat split; reflexivity.
Qed.

Lemma render_deaf self : deaf (render self).
Proof.
unfold deaf, render. simpl. apply Forall_map, Forall_forall. reflexivity.
Qed.

Lemma highlight_from_fields i rating (l : list star) :
map dataset_rating (highlight_from i rating l) = map dataset_rating l
∧ map active (highlight_from i rating l) = map active l
∧ map listening (highlight_from i rating l) = map listening l.
Proof.
revert i. induction l as [|s l IH]; intros i; simpl; [auto|].
destruct (IH (i + 1)) as (-> & -> & ->). auto.
Qed.

Lemma highlightStars_shows_rating rating self :
shows_rating self → shows_rating (highlightStars rating self).
Proof.
intros (Hd & Ha & Ht). unfold shows_rating, highlightStars. simpl.
destruct (highlight_from_fields 0 rating (stars self)) as (-> & -> & _). auto.
Qed.

Lemma deaf_listening (l : list star) :
Forall (λ s, listening s = false) l ↔ map listening l = map (λ _, false) l.
Proof.
induction l as [|s l IH]; simpl; [split; [reflexivity | constructor]|].
rewrite Forall_cons, IH. split; [intros [-> ->]; reflexivity|].
intros [= -> ->]. auto.
Qed.

Lemma highlightStars_deaf rating self : deaf self → deaf (highlightStars rating self).
Proof.
unfold deaf, highlightStars. simpl. rewrite !deaf_listening.
destruct (highlight_from_fields 0 rating (stars self)) as (_ & _ & ->).
intros ->. clear. generalize 0. induction (stars self) as [|s l IH]; intros i;
simpl; [reflexivity|]. f_equal. apply IH.
Qed.

Lemma bindEvents_shows_rating self : shows_rating self → shows_rating (bindEvents self).
Proof.
intros (Hd & Ha & Ht). unfold shows_rating, bindEvents. simpl.
rewrite !map_map. simpl. auto.
Qed.

Lemma setRating_shows_rating rating w : shows_rating (setRating rating w).1.
Proof.
destruct w as [self env]. unfold setRating.
destruct (onRate _); apply render_shows_rating.
Qed.

Lemma setRating_deaf rating w : deaf (setRating rating w).1.
Proof.
destruct w as [self env]. unfold setRating.
destruct (onRate _); apply render_deaf.
Qed.

Lemma constructor_shows_rating (o : @given E) : shows_rating (constructor o).
Proof.
unfold constructor, init. destruct (negb _);
[apply bindEvents_shows_rating|]; apply render_shows_rating.
Qed.

Lemma react_shows_rating e w : shows_rating w.1 → shows_rating (react e w).1.
Proof.
destruct w as [self env]. intros Hself. destruct e as [k|k|];
unfold react, star_mouseenter, star_click, container_mouseleave; cbn [fst snd].
- destruct (stars self !! k) as [s|]; [|exact Hself].
destruct (listening s); [|exact Hself].
apply highlightStars_shows_rating, Hself.
- destruct (stars self !! k) as [s|]; [|exact Hself].
destruct (listening s); [|exact Hself].
exact (setRating_shows_rating _ (self, env)).
- destruct (container_listening self); [|exact Hself].
apply highlightStars_shows_rating, Hself.
Qed.

(** Options are never written after the constructor. *)
Lemma react_options e w : this_options (react e w).1 = this_options w.1.
Proof.
destruct w as [self env]. destruct e as [k|k|];
unfold react, star_mouseenter, star_click, container_mouseleave; cbn [fst snd].
- destruct (stars self !! k) as [s|]; [|reflexivity].
destruct (listening s); reflexivity.
- destruct (stars self !! k) as [s|]; [|reflexivity].
destruct (listening s); [|reflexivity]. unfold setRating.
destruct (onRate _); reflexivity.
- destruct (container_listening self); reflexivity.
Qed.

Lemma after_options w es : this_options (after w es).1 = this_options w.1.
Proof.
unfold after. induction es as [|e es IH] using rev_ind; [reflexivity|].
rewrite foldl_app. simpl. rewrite react_options. exact IH.
Qed.

(** On deaf stars the events on stars are lost, and the stars stay
deaf. *)
Lemma react_deaf e w :
deaf w.1 →
deaf (react e w).1
∧ currentRating (react e w).1 = currentRating w.1
∧ (react e w).2 = w.2.
Proof.
destruct w as [self env]. cbn [fst snd]. intros Hdeaf.
assert (Hl : ∀ k s, stars self !! k = Some s → listening s = false)
by (apply Forall_lookup; exact Hdeaf).
destruct e as [k|k|];
unfold react, star_mouseenter, star_click, container_mouseleave.
- destruct (stars self !! k) as [s|] eqn:Hk; [rewrite (Hl k s Hk)|];
  cbn [fst snd]; auto.
- destruct (stars self !! k) as [s|] eqn:Hk; [rewrite (Hl k s Hk)|];
  cbn [fst snd]; auto.
- destruct (container_listening self); cbn [fst snd]; auto.
split; [apply highlightStars_deaf, Hdeaf | auto].
Qed.

Lemma after_deaf w es :
deaf w.1 →
currentRating (after w es).1 = currentRating w.1 ∧ (after w es).2 = w.2.
Proof.
intros Hdeaf. unfold after.
assert (H : deaf (foldl (λ w e, react e w) w es).1
          ∧ currentRating (foldl (λ w e, react e w) w es).1 = currentRating w.1
          ∧ (foldl (λ w e, react e w) w es).2 = w.2); [|tauto].
induction es as [|e es IH] using rev_ind; [auto|].
rewrite foldl_app. simpl. destruct IH as (Hd & Hc & He).
destruct (react_deaf e _ Hd) as (Hd' & Hc' & He').
repeat split; [exact Hd' | congruence | congruence].
Qed.

Lemma count_lit c n :
length (filter (λ b : bool, b = true) (map (λ i, i <=? c) (seqZ 1 n)))
= Z.to_nat (Z.max 0 (Z.min c n)).
Proof.
destruct (Z.le_gt_cases n 0) as [Hn|Hn]; [rewrite seqZ_nil by exact Hn; simpl; lia|].
rewrite <- (Z2Nat.id n) by lia. generalize (Z.to_nat n). clear. intros m.
induction m as [|m IH]; [simpl; lia|].
rewrite seqZ_S, map_app, filter_app, length_app, IH. simpl map.
rewrite filter_cons, filter_nil.
destruct (Z.leb_spec (1 + Z.of_nat m) c);
destruct (decide _); try congruence; simpl; lia.
Qed.

Lemma filter_active (l : list star) :
length (filter (λ s, active s = true) l)
= length (filter (λ b : bool, b = true) (map active l)).
Proof.
induction l as [|s l IH]; [reflexivity|].
simpl map. rewrite !filter_cons. destruct (decide _); simpl; rewrite IH; reflexivity.
Qed.

(** X13: whatever the events, a star widget shows its rating: it has
as many stars as [maxStars] (5 when the option is not given, or is 0),
numbered from 1; a star is lit exactly when its number is at most the
rating, which makes the rating itself when it lies between 0 and
[maxStars]; and the text beside the stars is that of the rating. *)
Theorem stars_show_rating (o : @given E) (env : E) (es : list event) (n c : Z) :
let self := (after (constructor o, env) es).1 in
number_or (given_maxStars o) (Num 5) = Num n →
currentRating self = Num c →
length (stars self) = Z.to_nat n
∧ (∀ k s, stars self !! k = Some s →
   dataset_rating s = Z_toString (Z.of_nat k + 1)
   ∧ (active s = true ↔ Z.of_nat k + 1 <= c))
∧ length (filter (λ s, active s = true) (stars self))
= Z.to_nat (Z.max 0 (Z.min c n))
∧ rating_text self = getRatingText self.
Proof.
intros self Hn Hc.
assert (Hself : shows_rating self).
{ subst self. clear. unfold after. induction es as [|e es IH] using rev_ind.
- apply constructor_shows_rating.
- rewrite foldl_app. apply react_shows_rating, IH. }
assert (Hmax : maxStars (this_options self) = Num n).
{ subst self. rewrite after_options. unfold constructor, init. simpl.
destruct (negb _); exact Hn. }
destruct Hself as (Hd & Ha & Ht). rewrite Hmax, Hc in *. simpl loop_indices in *.
assert (Hlen : length (stars self) = Z.to_nat n).
{ rewrite <- (length_map dataset_rating), Hd, length_map. apply length_seqZ. }
split; [exact Hlen|]. split; [|split; [|exact Ht]].
- intros k s Hk.
assert (Hi : seqZ 1 n !! k = Some (1 + Z.of_nat k)).
{ apply lookup_seqZ_lt. apply lookup_lt_Some in Hk. lia. }
assert (Hdk : dataset_rating <$> stars self !! k
              = Z_toString <$> seqZ 1 n !! k)
  by (rewrite <- !list_lookup_fmap; exact (f_equal (λ l, l !! k) Hd)).
assert (Hak : active <$> stars self !! k
              = (λ i, i <=? c) <$> seqZ 1 n !! k)
  by (rewrite <- !list_lookup_fmap; exact (f_equal (λ l, l !! k) Ha)).
rewrite Hk, Hi in Hdk, Hak. simpl in Hdk, Hak.
injection Hdk as ->. injection Hak as ->.
rewrite (Z.add_comm 1). split; [reflexivity|]. apply Z.leb_le.
- rewrite filter_active, Ha. apply count_lit.
Qed.

(** A click on a star that listens sets the rating its number tells. *)
Lemma first_click (o : @given E) env k n :
default false (given_readonly o) = false →
number_or (given_maxStars o) (Num 5) = Num n →
Z.of_nat k < n → n < 10 ^ 21 →
star_click k (constructor o, env)
= setRating (Num (Z.of_nat k + 1)) (constructor o, env).
Proof.
intros Hro Hn Hk Hbound. unfold star_click, constructor, init. simpl.
rewrite Hro, Hn. simpl. rewrite !list_lookup_fmap.
rewrite lookup_seqZ_lt by exact Hk. simpl.
rewrite parseInt_toString by lia. rewrite (Z.add_comm 1). reflexivity.
Qed.

(** X14: the stars are clickable once.  The first click on a star of
a widget that is not read-only sets the rating to the number of that
star and calls [onRate] with it; [render] then replaces the stars by
new ones, which have no listener: whatever the user does afterwards,
the rating stays what the first click made it and [onRate] is not
called again. *)
Theorem first_click_is_final (o : @given E) (env : E) (k : nat) (n : Z)
(es : list event) :
default false (given_readonly o) = false →
number_or (given_maxStars o) (Num 5) = Num n →
Z.of_nat k < n → n < 10 ^ 21 →
let w1 := star_click k (constructor o, env) in
currentRating w1.1 = Num (Z.of_nat k + 1)
∧ w1.2 = from_option (λ callback, callback (Num (Z.of_nat k + 1)) env) env
         (given_onRate o)
∧ currentRating (after w1 es).1 = Num (Z.of_nat k + 1)
∧ (after w1 es).2 = w1.2.
Proof.
intros Hro Hn Hk Hbound w1. subst w1.
rewrite (first_click o env k n Hro Hn Hk Hbound).
destruct (after_deaf (setRating (Num (Z.of_nat k + 1)) (constructor o, env)) es
          (setRating_deaf _ _)) as [Hrating Henv].
rewrite Hrating, Henv.
unfold setRating, constructor, init. simpl. rewrite Hro. simpl.
destruct (given_onRate o); auto.
Qed.

(** X15: a read-only star widget, as the summary and the items of the
list have, is inert: no event on its stars or its container changes
anything. *)
Theorem readonly_is_inert (o : @given E) (env : E) (es : list event) :
given_readonly o = Some true →
after (constructor o, env) es = (constructor o, env).
Proof.
intros Hro. unfold after.
assert (Hdeaf : deaf (constructor o)
              ∧ container_listening (constructor o) = false).
{ unfold constructor, init. simpl. rewrite Hro. simpl.
split; [apply render_deaf | reflexivity]. }
destruct Hdeaf as [Hdeaf Hcontainer].
assert (Hl : ∀ k s, stars (constructor o) !! k = Some s → listening s = false)
by (apply Forall_lookup; exact Hdeaf).
induction es as [|e es IH] using rev_ind; [reflexivity|].
rewrite foldl_app, IH. simpl.
destruct e as [k|k|];
unfold react, star_mouseenter, star_click, container_mouseleave.
- destruct (stars (constructor o) !! k) as [s|] eqn:Hk;
  [rewrite (Hl k s Hk)|]; reflexivity.
- destruct (stars (constructor o) !! k) as [s|] eqn:Hk;
  [rewrite (Hl k s Hk)|]; reflexivity.
- rewrite Hcontainer. reflexivity.
Qed.

End Callback.

Lemma stars_show_rating_witness :
let self :=
  (after (constructor
            {| given_maxStars := None; given_initialRating := Some (Num 3);
               given_readonly := Some true; given_size := None;
               given_onRate := None |}, tt) [MouseEnter 1]).1 in
map active (stars self) = [true; true; true; false; false]
∧ length (filter (λ s, active s = true) (stars self)) = 3%nat.
Proof.
intros self. split; [reflexivity|].
exact (proj1 (proj2 (proj2
  (stars_show_rating
     {| given_maxStars := None; given_initialRating := Some (Num 3);
        given_readonly := Some true; given_size := None;
        given_onRate := None |} tt [MouseEnter 1] 5 3 eq_refl eq_refl)))).
Defined.

Lemma first_click_is_final_witness :
let w := (constructor
            {| given_maxStars := None; given_initialRating := None;
               given_readonly := None; given_size := None;
               given_onRate := Some (λ rating log, log ++ [rating]) |}, []) in
after (star_click 3 w) [Click 4; MouseLeave; Click 0]
= ((after (star_click 3 w) [Click 4; MouseLeave; Click 0]).1, [Num 4]).
Proof.
intros w.
destruct (first_click_is_final
            {| given_maxStars := None; given_initialRating := None;
               given_readonly := None; given_size := None;
               given_onRate := Some (λ rating log, log ++ [rating]) |}
            [] 3 5 [Click 4; MouseLeave; Click 0])
  as (_ & Hcalled & _ & Hlater); [reflexivity | reflexivity | lia | lia |].
fold w in Hcalled, Hlater. rewrite (surjective_pairing (after _ _)).
rewrite Hlater, Hcalled. reflexivity.
Defined.

Lemma readonly_is_inert_witness :
let w := (constructor
            {| given_maxStars := None; given_initialRating := Some (Num 4);
               given_readonly := Some true; given_size := Some (js "small");
               given_onRate := None |}, tt) in
after w [Click 0; MouseEnter 2; MouseLeave] = w.
Proof.
intros w. apply (readonly_is_inert _ tt [Click 0; MouseEnter 2; MouseLeave]).
reflexivity.
Defined.

End StarRatingFacts.

(** ** The review form and its stars *)

Module ReviewFormFacts.
Import JS Numerals JSFacts ReviewSystem Notifications Summary Catalog SummaryFacts ReviewSystemFacts ReviewCatalog StarRating ReviewForm StarEvents Modal StarRatingFacts.

Lemma showReviewForm_untouched : untouched showReviewForm.
Proof. repeat split. Qed.

Lemma rated_stays (acts : list action) (m : modal) :
deaf m.1 →
form_dataset_rating (modal_after m acts).2 = form_dataset_rating m.2.
Proof.
revert m. induction acts as [|a acts IH]; intros m Hdeaf; [reflexivity|].
simpl. unfold modal_after in IH. rewrite IH.
- destruct a as [e|title review name email recommend]; simpl; [|reflexivity].
  destruct (react_deaf e m Hdeaf) as (_ & _ & ->). reflexivity.
- destruct a as [e|title review name email recommend]; simpl; [|exact Hdeaf].
  apply (react_deaf e m Hdeaf).
Qed.

Lemma untouched_click k (m : modal) :
untouched m → (k < 5)%nat →
deaf (star_click k m).1
∧ form_dataset_rating (star_click k m).2 = Some (Z_toString (Z.of_nat k + 1)).
Proof.
intros (Hl & Hd & Hon & Hf) Hk. destruct m as [self f]. simpl in *.
assert (Hs : ∃ s, stars self !! k = Some s ∧ listening s = true
                  ∧ dataset_rating s = Z_toString (Z.of_nat k + 1)).
{ assert (Hlk : listening <$> stars self !! k = Some true).
  { rewrite <- list_lookup_fmap. change (map listening (stars self) !! k = Some true).
    rewrite Hl. do 5 (destruct k as [|k]; [reflexivity|]). lia. }
  assert (Hdk : dataset_rating <$> stars self !! k
                = Some (Z_toString (Z.of_nat k + 1))).
  { rewrite <- list_lookup_fmap.
    change (map dataset_rating (stars self) !! k = Some (Z_toString (Z.of_nat k + 1))).
    rewrite Hd. do 5 (destruct k as [|k]; [reflexivity|]). lia. }
  destruct (stars self !! k) as [s|]; [|discriminate Hlk].
  exists s. simpl in Hlk, Hdk. split; [reflexivity|]. split; congruence. }
destruct Hs as (s & Hlookup & Hlisten & Hrating).
unfold star_click. rewrite Hlookup, Hlisten, Hrating.
rewrite parseInt_toString by lia.
split; [exact (setRating_deaf (Num (Z.of_nat k + 1)) (self, f))|].
unfold setRating. simpl. rewrite Hon. reflexivity.
Qed.

Lemma untouched_act a (m : modal) :
untouched m →
match a with
| Stars (Click k) => (k < 5)%nat ∨ untouched (act a m)
| _ => untouched (act a m)
end.
Proof.
intros (Hl & Hd & Hon & Hf). destruct m as [self f]. simpl in *.
destruct a as [[k|k|]|title review name email recommend];
  unfold act, react, star_mouseenter, star_click, container_mouseleave.
- destruct (stars self !! k) as [s|]; [|repeat split; assumption].
  destruct (listening s); [|repeat split; assumption].
  unfold untouched, highlightStars. simpl.
  destruct (highlight_from_fields 0 (parseInt (Some (dataset_rating s))) (stars self))
    as (-> & _ & ->). auto.
- destruct (decide (k < 5)%nat) as [Hk|Hk]; [left; exact Hk | right].
  assert (Hnone : stars self !! k = None).
  { apply lookup_ge_None. rewrite <- (length_map listening), Hl. simpl. lia. }
  rewrite Hnone. repeat split; assumption.
- destruct (container_listening self); [|repeat split; assumption].
  unfold untouched, highlightStars. simpl.
  destruct (highlight_from_fields 0 (currentRating self) (stars self))
    as (-> & _ & ->). auto.
- repeat split; assumption.
Qed.

(** The rating the form carries when it is submitted. *)
Lemma modal_rating (acts : list action) (m : modal) :
untouched m →
form_dataset_rating (modal_after m acts).2
= (λ k, Z_toString (Z.of_nat k + 1)) <$> first_star acts.
Proof.
revert m. induction acts as [|a acts IH]; intros m Hm.
- simpl. apply Hm.
- pose proof (untouched_act a m Hm) as Hact. unfold modal_after in *. simpl foldl.
  destruct a as [[k|k|]|title review name email recommend]; simpl first_star;
    try (apply IH, Hact).
  destruct (decide (k < 5)%nat) as [Hk|Hk].
  + rewrite bool_decide_eq_true_2 by exact Hk.
    destruct (untouched_click k m Hm Hk) as [Hdeaf Hrating].
    etransitivity; [exact (rated_stays acts (star_click k m) Hdeaf) | exact Hrating].
  + rewrite bool_decide_eq_false_2 by exact Hk.
    destruct Hact as [Hlt|Hact]; [contradiction | apply IH, Hact].
Qed.

(** X16: the form of the modal is submitted with the rating of the
  first star the user clicked, a number from 1 to 5, whatever was
  clicked afterwards; and it is refused, with the request to select a
  rating, when no star was clicked. *)
Theorem first_star_is_submitted (acts : list action) (c : clock)
  (page : ReviewSystem.t) :
let f := (modal_after showReviewForm acts).2 in
match first_star acts with
| Some k =>
    (k < 5)%nat
    ∧ reviews (exec (submitReview f c) page)
      = review_of f c (Z.of_nat k + 1) :: reviews page
| None =>
    submitReview f c page
    = (Normal tt, notified "Please select a rating" "error" page)
end.
Proof.
intros f. pose proof (modal_rating acts _ showReviewForm_untouched) as Hrating.
fold f in Hrating.
destruct (first_star acts) as [k|] eqn:Hfirst; simpl in Hrating.
- assert (Hk : (k < 5)%nat).
  { clear -Hfirst. induction acts as [|a acts IH]; [discriminate|].
    destruct a as [[j|j|]|]; simpl in Hfirst; auto.
    destruct (bool_decide_reflect (j < 5)%nat); [congruence | auto]. }
  split; [exact Hk|].
  assert (Hparse : parseInt (form_dataset_rating f) = Num (Z.of_nat k + 1))
    by (rewrite Hrating; apply parseInt_toString; lia).
  destruct (submitReview_accepts f c page) as (z & _ & Ez & Hrun).
  { rewrite Hparse. simpl. destruct (Z.eqb_spec (Z.of_nat k + 1) 0); [lia | reflexivity]. }
  rewrite Hparse in Ez. injection Ez as <-.
  unfold exec. rewrite Hrun.
  fold (exec (addReview (review_of f c (Z.of_nat k + 1));;
              notify "Thank you for your review!" "success") page).
  rewrite field_bind by (intros _; apply keeps_reviews_notify).
  apply addReview_reviews.
- apply submitReview_rejects. rewrite Hrating. reflexivity.
Qed.

End ReviewFormFacts.

(** ** Escaping the text of a review *)

Module EscapeHtmlFacts.
Import JS EscapeHtml Markup.

Lemma escape_unit_cases c :
(c = 38%N ∧ escape_unit c = js "&amp;")
∨ (c = 160%N ∧ escape_unit c = js "&nbsp;")
∨ (c = 60%N ∧ escape_unit c = js "&lt;")
∨ (c = 62%N ∧ escape_unit c = js "&gt;")
∨ (c ≠ 38%N ∧ c ≠ 160%N ∧ c ≠ 60%N ∧ c ≠ 62%N ∧ escape_unit c = [c]).
Proof.
unfold escape_unit.
destruct (N.eqb_spec c 38); [left; auto|].
destruct (N.eqb_spec c 160); [right; left; auto|].
destruct (N.eqb_spec c 60); [do 2 right; left; auto|].
destruct (N.eqb_spec c 62); [do 3 right; left; auto|].
do 4 right. auto.
Qed.

Lemma unescape_escapeHtml text : unescape (escapeHtml text) = text.
Proof.
induction text as [|c text IH]; [reflexivity|].
change (escapeHtml (c :: text)) with (escape_unit c ++ escapeHtml text).
destruct (escape_unit_cases c)
  as [[-> ->]|[[-> ->]|[[-> ->]|[[-> ->]|(H1 & H2 & H3 & H4 & ->)]]]];
  try (simpl; rewrite IH; reflexivity).
simpl app. simpl unescape. destruct (N.eqb_spec c 38); [contradiction|].
rewrite IH. reflexivity.
Qed.

(** X17: [escapeHtml] gives a text without angle bracket, so that the
  name, the title and the text of a review cannot open a tag in the
  list; it loses nothing, two texts never having the same escaped
  form; and it leaves as it is a text without ampersand, no-break
  space or angle bracket. *)
Theorem escapeHtml_is_safe (text : jsstring) :
Forall (λ c, c ≠ 60%N ∧ c ≠ 62%N) (escapeHtml text)
∧ (∀ text', escapeHtml text' = escapeHtml text → text' = text)
∧ (Forall (λ c, c ≠ 38%N ∧ c ≠ 160%N ∧ c ≠ 60%N ∧ c ≠ 62%N) text →
   escapeHtml text = text)
∧ (length text <= length (escapeHtml text) <= 6 * length text)%nat.
Proof.
split; [|split; [|split]].
- induction text as [|c text IH]; [constructor|].
  change (escapeHtml (c :: text)) with (escape_unit c ++ escapeHtml text).
  apply Forall_app. split; [|exact IH].
  destruct (escape_unit_cases c)
    as [[_ ->]|[[_ ->]|[[_ ->]|[[_ ->]|(H1 & H2 & H3 & H4 & ->)]]]];
    repeat constructor; (discriminate || assumption).
- intros text' Heq.
  rewrite <- (unescape_escapeHtml text'), Heq. apply unescape_escapeHtml.
- induction 1 as [|c text (H1 & H2 & H3 & H4) _ IH]; [reflexivity|].
  change (escapeHtml (c :: text)) with (escape_unit c ++ escapeHtml text).
  rewrite IH. unfold escape_unit.
  destruct (N.eqb_spec c 38); [contradiction|].
  destruct (N.eqb_spec c 160); [contradiction|].
  destruct (N.eqb_spec c 60); [contradiction|].
  destruct (N.eqb_spec c 62); [contradiction|]. reflexivity.
- induction text as [|c text IH]; [simpl; lia|].
  change (escapeHtml (c :: text)) with (escape_unit c ++ escapeHtml text).
  rewrite length_app. simpl length at 1 4.
  destruct (escape_unit_cases c)
    as [[_ ->]|[[_ ->]|[[_ ->]|[[_ ->]|(_ & _ & _ & _ & ->)]]]];
    simpl length; lia.
Qed.

Lemma escapeHtml_is_safe_witness :
escapeHtml (js "a-b") = js "a-b"
∧ escapeHtml (js "<b>R&D</b>") = js "&lt;b&gt;R&amp;D&lt;/b&gt;".
Proof.
split; [|reflexivity].
apply (proj1 (proj2 (proj2 (escapeHtml_is_safe (js "a-b"))))).
repeat constructor; discriminate.
Defined.

End EscapeHtmlFacts.

(** ** The zoom overlay of the gallery *)

Module ImageGalleryFacts.
Import JS ImageGallery Zoom.

Lemma react_coherent overflow seen e self :
coherent overflow seen self →
coherent overflow (last_image [e] seen) (react e self).
Proof.
intros (Hg & Hz & Ho). unfold coherent.
destruct e as [[src alt|]| |[|]|key]; simpl last_image;
  unfold react, gallery_click, zoom_close_click, overlay_click, keydown;
  rewrite Hg.
- simpl. auto.
- auto.
- simpl. auto.
- simpl. auto.
- auto.
- destruct (overlay_active self) eqn:Ha; [|rewrite Ha; auto].
  unfold prevImage, nextImage.
  destruct (bool_decide (key = js "Escape")).
  + destruct (bool_decide _), (bool_decide _); simpl; auto.
  + destruct (bool_decide _), (bool_decide _); rewrite Ha; auto.
Qed.

Lemma last_image_app es e seen :
last_image (es ++ [e]) seen = last_image [e] (last_image es seen).
Proof.
revert seen. induction es as [|e' es IH]; intros seen; [reflexivity|].
destruct e' as [[src alt|]| | |]; simpl; apply IH.
Qed.

(** X18: whatever the user does in a gallery that was found, the
  overlay shows the last image that was clicked, the arrow keys never
  changing it; the page cannot be scrolled exactly while the overlay
  is open, provided it could be when it loaded; and once the overlay
  was closed the overflow of the body is the empty one, not the one the
  page had. *)
Theorem overlay_follows_clicks (overflow : jsstring) (es : list event) :
let self := after (constructor true overflow) es in
(zoom_src self, zoom_alt self) = default ([], []) (last_image es None)
∧ (overflow ≠ js "hidden" →
   (overlay_active self = true ↔ body_overflow self = js "hidden"))
∧ (overlay_active self = false → last_image es None ≠ None →
   body_overflow self = []).
Proof.
intros self.
assert (Hself : coherent overflow (last_image es None) self).
{ subst self. unfold after. induction es as [|e es IH] using rev_ind.
  - repeat split. simpl. auto.
  - rewrite foldl_app, last_image_app. apply react_coherent, IH. }
destruct Hself as (_ & Hz & Ho). split; [exact Hz|]. split.
- intros Hne. destruct (overlay_active self); [tauto|].
  split; [discriminate|]. intros Hh.
  destruct Ho as [Ho | [_ Ho]]; rewrite Ho in Hh; [discriminate Hh | congruence].
- intros Ha Hseen. rewrite Ha in Ho. destruct Ho as [Ho | [Hnone _]];
    [exact Ho | contradiction].
Qed.

Lemma overlay_follows_clicks_witness :
let self :=
  after (constructor true [])
    [GalleryClick (Img (js "a.jpg") (js "A")); KeyDown (js "ArrowRight");
     KeyDown (js "Escape")] in
zoom_src self = js "a.jpg" ∧ body_overflow self = [].
Proof.
intros self.
destruct (overlay_follows_clicks []
            [GalleryClick (Img (js "a.jpg") (js "A")); KeyDown (js "ArrowRight");
             KeyDown (js "Escape")]) as (Hz & _ & Ho).
fold self in Hz, Ho. split.
- exact (f_equal fst Hz).
- apply Ho; [reflexivity | discriminate].
Defined.

End ImageGalleryFacts.

(** ** Debounced calls *)

Module DebounceFacts.
Import JS Debounce Bursts.

Section Func.
Context {A E : Type}.
Variable func : A → E → E.
Variable wait : Z.
Implicit Types (self : t A E) (cs : list (Z * A)) (args : A).







End Func.


End DebounceFacts.

(** ** The product grid: styles, timers and the count of results *)

Module ProductGridFacts.
Import JS ProductGrid GridStyles.

Section Platform.
Variable toLowerCase : jsstring → jsstring.
Variable gt_text : number → jsstring → bool.

Lemma forEach_run cards : ∀ card self pre sts,
styles self = pre ++ sts → length pre = card → length sts = length cards →
let shows :=
map (ProductFilter.show_card toLowerCase gt_text (product_filter self)) cards in
forEach toLowerCase gt_text card cards self
= {| product_filter := product_filter self;
   styles := pre ++ zip_with restyle shows sts;
   timers :=
     {| Timers.now := Timers.now (timers self);
        Timers.next_id := (Timers.next_id (timers self) + length cards)%nat;
        Timers.pending :=
          Timers.pending (timers self)
          ++ imap (animation (Timers.now (timers self))
                     (Timers.next_id (timers self)) card) shows |};
   results_count := results_count self |}.
Proof.
induction cards as [|c cards IH]; intros card self pre sts Hstyles Hpre Hsts shows.
- destruct sts; [|discriminate Hsts]. subst shows. simpl.
rewrite Nat.add_0_r, !app_nil_r. rewrite app_nil_r in Hstyles.
destruct self as [f sty [now next pend] rc]. simpl in *. congruence.
- destruct sts as [|s sts]; [discriminate Hsts|]. simpl in Hsts.
subst shows. simpl forEach.
set (show := ProductFilter.show_card toLowerCase gt_text (product_filter self) c).
assert (Hstep : show_or_hide card show self
  = {| product_filter := product_filter self;
       styles := (pre ++ [restyle show s]) ++ sts;
       timers :=
         {| Timers.now := Timers.now (timers self);
            Timers.next_id := S (Timers.next_id (timers self));
            Timers.pending :=
              Timers.pending (timers self)
              ++ [animation (Timers.now (timers self))
                    (Timers.next_id (timers self)) card 0 show] |};
       results_count := results_count self |}).
{ unfold show_or_hide, set_style, set_timers, Timers.setTimeout, animation, restyle.
  rewrite !Nat.add_0_r.
  destruct show; simpl; rewrite Hstyles, <- Hpre;
    rewrite (alter_app_r_alt _ pre (s :: sts) (length pre)) by lia;
    rewrite Nat.sub_diag; simpl; rewrite <- app_assoc; reflexivity. }
rewrite Hstep.
match goal with
| |- forEach _ _ _ _ ?self1 = _ =>
    rewrite (IH (S card) self1 (pre ++ [restyle show s]) sts eq_refl)
      by (rewrite ?length_app; simpl; lia)
end.
cbn [product_filter styles timers results_count Timers.now Timers.next_id
     Timers.pending].
f_equal.
+ rewrite <- app_assoc. reflexivity.
+ f_equal; [simpl; lia|]. rewrite <- app_assoc. f_equal. simpl. f_equal.
  apply imap_ext. intros j b _. unfold animation. simpl.
  rewrite !Nat.add_succ_r. reflexivity.
Qed.

Lemma applyFilters_run self :
aligned self →
applyFilters toLowerCase gt_text self
= updateResultsCount
  {| product_filter := product_filter self;
     styles := zip_with restyle (decisions toLowerCase gt_text self) (styles self);
     timers :=
       {| Timers.now := Timers.now (timers self);
          Timers.next_id :=
            (Timers.next_id (timers self)
             + length (ProductFilter.cards (product_filter self)))%nat;
          Timers.pending :=
            Timers.pending (timers self)
            ++ imap (animation (Timers.now (timers self))
                       (Timers.next_id (timers self)) 0)
                 (decisions toLowerCase gt_text self) |};
     results_count := results_count self |}.
Proof.
intros Haligned. unfold applyFilters.
rewrite (forEach_run _ 0%nat self [] (styles self) eq_refl eq_refl Haligned).
reflexivity.
Qed.

Lemma count_restyled shows sts :
length shows = length sts →
length (filter (λ s, style_display s = Some display_block) (zip_with restyle shows sts))
= block_or_shown shows sts.
Proof.
unfold block_or_shown. revert sts.
induction shows as [|b shows IH]; intros [|s sts] Hlen; try discriminate Hlen;
[reflexivity|].
simpl zip_with. simpl zip. rewrite !filter_cons. simpl in Hlen.
pose proof (IH sts ltac:(lia)) as IH'.
destruct b; simpl; repeat case_decide; simpl; rewrite ?IH';
try reflexivity; try congruence; try tauto.
match goal with H : false = true ∨ _ |- _ => destruct H; [discriminate | contradiction] end.
Qed.

Lemma block_or_shown_bounds shows sts :
length shows = length sts →
(shown shows <= block_or_shown shows sts)%nat
∧ (Forall (λ s, style_display s ≠ Some display_block) sts →
 block_or_shown shows sts = shown shows).
Proof.
unfold block_or_shown, shown. revert sts.
induction shows as [|b shows IH]; intros [|s sts] Hlen; try discriminate Hlen;
[simpl; split; [lia | reflexivity]|].
simpl in Hlen. destruct (IH sts ltac:(lia)) as [IHle IHeq].
simpl zip. rewrite !filter_cons. simpl. split.
- repeat case_decide; simpl; try lia. tauto.
- intros Hsts. inversion Hsts as [|? ? Hs Hsts']; subst.
pose proof (IHeq Hsts') as IH'.
repeat case_decide; simpl; rewrite ?IH'; try reflexivity; try tauto.
Qed.

(** X20: the counter that [applyFilters] writes tells the cards that it
shows and also those that it hides but that are still displayed,
their display being set to 'none' 300 ms later only: it is never
less than the number of cards shown, it is that number when no card
had the display 'block' before, and it is more as soon as a card
that was shown is hidden.  When the page loads, no card has an
inline style and the counter says 0, whatever the page. *)
Theorem results_count_is_stale (self : t) (text : jsstring) :
aligned self → results_count self = Some text →
let shows := decisions toLowerCase gt_text self in
results_count (applyFilters toLowerCase gt_text self)
= Some (counted (block_or_shown shows (styles self)))
∧ (shown shows <= block_or_shown shows (styles self))%nat
∧ (Forall (λ s, style_display s ≠ Some display_block) (styles self) →
 block_or_shown shows (styles self) = shown shows)
∧ (∀ page, results_count (constructor page (Some text)) = Some (counted 0)).
Proof.
intros Haligned Htext shows.
assert (Hlen : length shows = length (styles self)).
{ subst shows. unfold decisions. rewrite length_map. symmetry. exact Haligned. }
split; [|split; [apply block_or_shown_bounds, Hlen
               |split; [apply block_or_shown_bounds, Hlen|]]].
- rewrite applyFilters_run by exact Haligned. unfold updateResultsCount.
cbn [results_count styles]. rewrite Htext. fold shows.
rewrite count_restyled by exact Hlen. reflexivity.
- intros page. unfold constructor, loadProducts, updateResultsCount.
cbn [results_count styles].
replace (filter _ _) with (@nil style); [reflexivity|].
induction page as [|c page IH]; [reflexivity|].
simpl map. rewrite filter_cons. simpl.
destruct (decide (None = Some display_block)); [discriminate | exact IH].
Qed.

End Platform.

(** *** The timers of the cards *)

Lemma earliest_spec {T} (l : list (Timers.timer T)) x :
Timers.earliest l = Some x →
x ∈ l ∧ Forall (λ y, Timers.due x <= Timers.due y) l.
Proof.
revert x. induction l as [|y l IH]; intros x; simpl; [discriminate|].
destruct (Timers.earliest l) as [z|] eqn:Hz.
- destruct (IH z eq_refl) as [Hin Hall].
  destruct (Z.ltb_spec (Timers.due z) (Timers.due y)); intros [= <-].
  + split; [right; exact Hin|]. constructor; [lia | exact Hall].
  + split; [left|]. constructor; [lia|].
    eapply Forall_impl; [exact Hall|]. simpl. intros; lia.
- intros [= <-]. split; [left|]. destruct l as [|w l]; [repeat constructor; lia|].
  simpl in Hz. destruct (Timers.earliest l); [destruct (_ <? _)|]; discriminate.
Qed.

Lemma earliest_None {T} (l : list (Timers.timer T)) :
Timers.earliest l = None → l = [].
Proof.
destruct l as [|y l]; [reflexivity|]. simpl.
destruct (Timers.earliest l); [destruct (_ <? _)|]; discriminate.
Qed.

Lemma same_handle {T} (l : list (Timers.timer T)) x y :
NoDup (map Timers.id l) → x ∈ l → y ∈ l → Timers.id y = Timers.id x → y = x.
Proof.
induction l as [|z l IH]; intros Hnd Hx Hy Hid; [inversion Hx|].
simpl in Hnd. apply NoDup_cons in Hnd as [Hz Hnd].
apply elem_of_cons in Hx as [->|Hx]; apply elem_of_cons in Hy as [->|Hy];
  auto.
- exfalso. apply Hz. rewrite <- Hid. apply (list_elem_of_fmap_2 Timers.id), Hy.
- exfalso. apply Hz. rewrite Hid. apply (list_elem_of_fmap_2 Timers.id), Hx.
Qed.

Lemma filter_filter_implied {X} (P Q : X → Prop) `{∀ x, Decision (P x)}
  `{∀ x, Decision (Q x)} (l : list X) :
(∀ x, x ∈ l → P x → Q x) → filter P (filter Q l) = filter P l.
Proof.
induction l as [|x l IH]; intros Himp; [reflexivity|].
rewrite !(filter_cons _ x).
assert (IH' : filter P (filter Q l) = filter P l)
  by (apply IH; intros y Hy; apply Himp; right; exact Hy).
destruct (decide (Q x)) as [Hq|Hq].
- rewrite filter_cons. destruct (decide (P x)); rewrite IH'; reflexivity.
- destruct (decide (P x)) as [Hp|Hp]; [|exact IH'].
  exfalso. apply Hq, Himp; [left | exact Hp].
Qed.

Lemma filter_shorter {X} (P : X → Prop) `{∀ x, Decision (P x)} (l : list X) x :
x ∈ l → ¬ P x → (length (filter P l) < length l)%nat.
Proof.
induction l as [|y l IH]; intros Hx Hp; [inversion Hx|].
rewrite filter_cons. pose proof (length_filter P l) as Hle.
apply elem_of_cons in Hx as [->|Hx].
- destruct (decide (P y)); [contradiction | simpl; lia].
- destruct (decide (P y)); simpl; [apply -> Nat.succ_lt_mono|]; auto.
  pose proof (IH Hx Hp). lia.
Qed.

Lemma final_style_nil card s : final_style [] card s = s.
Proof.
unfold final_style. rewrite !bool_decide_eq_false_2 by apply not_elem_of_nil.
destruct s; reflexivity.
Qed.

Lemma final_style_cons k tasks tasks' card s :
(∀ k', k' ∈ tasks' ↔ k' = k ∨ k' ∈ tasks) →
final_style tasks card (final_style [k] card s) = final_style tasks' card s.
Proof.
intros Hmem. unfold final_style. simpl.
f_equal.
- destruct (bool_decide_reflect (hide card ∈ tasks')) as [Hin|Hout].
  + apply Hmem in Hin as [<-|Hin].
    * rewrite (bool_decide_eq_true_2 (hide card ∈ [hide card])) by left.
      destruct (bool_decide _); reflexivity.
    * rewrite (bool_decide_eq_true_2 _ Hin). reflexivity.
  + rewrite (bool_decide_eq_false_2 (hide card ∈ tasks))
      by (intros Hin; apply Hout, Hmem; auto).
    rewrite bool_decide_eq_false_2; [reflexivity|].
    intros Hin%list_elem_of_singleton. apply Hout, Hmem. auto.
- destruct (bool_decide_reflect (fade_in card ∈ tasks')) as [Hin|Hout].
  + apply Hmem in Hin as [<-|Hin].
    * rewrite (bool_decide_eq_true_2 (fade_in card ∈ [fade_in card])) by left.
      destruct (bool_decide _); reflexivity.
    * rewrite (bool_decide_eq_true_2 _ Hin). reflexivity.
  + rewrite (bool_decide_eq_false_2 (fade_in card ∈ tasks))
      by (intros Hin; apply Hout, Hmem; auto).
    rewrite bool_decide_eq_false_2; [reflexivity|].
    intros Hin%list_elem_of_singleton. apply Hout, Hmem. auto.
Qed.

Lemma run_style k self i :
styles (run k self) !! i = final_style [k] i <$> styles self !! i.
Proof.
destruct k as [card|card]; unfold run, set_style; cbn [styles];
  rewrite list_lookup_alter; destruct (decide (card = i)) as [->|Hne];
  destruct (styles self !! i) as [s|]; try reflexivity; simpl; f_equal;
  unfold final_style.
- rewrite (bool_decide_eq_true_2 (fade_in i ∈ [fade_in i])) by left.
  rewrite bool_decide_eq_false_2; [reflexivity|].
  intros Hin%list_elem_of_singleton. discriminate.
- rewrite !bool_decide_eq_false_2; [destruct s; reflexivity | |];
    intros Hin%list_elem_of_singleton; congruence.
- rewrite (bool_decide_eq_true_2 (hide i ∈ [hide i])) by left.
  rewrite bool_decide_eq_false_2; [reflexivity|].
  intros Hin%list_elem_of_singleton. discriminate.
- rewrite !bool_decide_eq_false_2; [destruct s; reflexivity | |];
    intros Hin%list_elem_of_singleton; congruence.
Qed.

(** One timer runs. *)
Lemma fire x self :
well_numbered self → x ∈ Timers.pending (timers self) →
let self1 := run (Timers.task x) (set_timers (Timers.started x (timers self)) self) in
Timers.pending (timers self1)
= filter (λ y, Timers.id y ≠ Timers.id x) (Timers.pending (timers self))
∧ (∀ y, y ∈ Timers.pending (timers self1)
        ↔ y ∈ Timers.pending (timers self) ∧ y ≠ x)
∧ well_numbered self1
∧ (length (Timers.pending (timers self1))
   < length (Timers.pending (timers self)))%nat
∧ (∀ i, styles self1 !! i = final_style [Timers.task x] i <$> styles self !! i)
∧ Timers.now (timers self1) = Z.max (Timers.now (timers self)) (Timers.due x)
∧ Timers.next_id (timers self1) = Timers.next_id (timers self)
∧ product_filter self1 = product_filter self
∧ results_count self1 = results_count self.
Proof.
intros [Hnd Hlt] Hx self1.
assert (Hpending : Timers.pending (timers self1)
  = filter (λ y, Timers.id y ≠ Timers.id x) (Timers.pending (timers self)))
  by (subst self1; destruct (Timers.task x); reflexivity).
split; [exact Hpending|]. split; [|split; [|split; [|split]]].
- intros y. rewrite Hpending, list_elem_of_filter. split.
  + intros [Hid Hy]. split; [exact Hy | congruence].
  + intros [Hy Hne]. split; [|exact Hy].
    intros Hid. apply Hne. exact (same_handle _ x y Hnd Hx Hy Hid).
- split.
  + rewrite Hpending. clear -Hnd.
    induction (Timers.pending (timers self)) as [|y l IH]; [constructor|].
    simpl in Hnd. apply NoDup_cons in Hnd as [Hy Hnd].
    rewrite filter_cons. destruct (decide _); [|apply IH, Hnd].
    simpl. apply NoDup_cons. split; [|apply IH, Hnd].
    intros Hin. apply Hy. apply list_elem_of_fmap in Hin as (z & -> & Hz).
    apply list_elem_of_filter in Hz as [_ Hz].
    apply (list_elem_of_fmap_2 Timers.id), Hz.
  + rewrite Hpending.
    assert (Hnext : Timers.next_id (timers self1) = Timers.next_id (timers self))
      by (subst self1; destruct (Timers.task x); reflexivity).
    rewrite Hnext. apply Forall_forall. intros y Hy.
    apply list_elem_of_filter in Hy as [_ Hy].
    rewrite Forall_forall in Hlt. apply Hlt, Hy.
- rewrite Hpending. apply (filter_shorter _ _ x Hx). intros H. apply H. reflexivity.
- intros i. subst self1. rewrite run_style. reflexivity.
- subst self1. destruct (Timers.task x); repeat split.
Qed.

Lemma at_time_spec fuel time : ∀ self,
well_numbered self →
(length (Timers.pending (timers self)) < fuel)%nat →
let self' := Timers.run_until timers set_timers run fuel time self in
Timers.pending (timers self')
= filter (λ x, time < Timers.due x) (Timers.pending (timers self))
∧ well_numbered self'
∧ (∀ i, styles self' !! i
        = final_style
            (map Timers.task
               (filter (λ x, Timers.due x <= time) (Timers.pending (timers self))))
            i
          <$> styles self !! i)
∧ Timers.now (timers self') = Z.max (Timers.now (timers self)) time
∧ Timers.next_id (timers self') = Timers.next_id (timers self)
∧ product_filter self' = product_filter self
∧ results_count self' = results_count self.
Proof.
induction fuel as [|fuel IH]; intros self Hwn Hlen; [lia|].
cbn [Timers.run_until].
destruct (Timers.earliest (Timers.pending (timers self))) as [x|] eqn:Hx.
- destruct (earliest_spec _ _ Hx) as [Hin Hmin].
  destruct (Z.leb_spec (Timers.due x) time) as [Hdue|Hdue].
  + destruct (fire x self Hwn Hin)
      as (Hp1 & Hmem1 & Hwn1 & Hlen1 & Hst1 & Hnow1 & Hnext1 & Hf1 & Hr1).
    set (self1 := run (Timers.task x)
                    (set_timers (Timers.started x (timers self)) self)) in *.
    destruct (IH self1 Hwn1 ltac:(lia))
      as (Hp & Hwn' & Hst & Hnow & Hnext & Hf & Hr).
    split; [|split; [exact Hwn'|split; [|repeat split; try congruence; lia]]].
    * rewrite Hp, Hp1. apply filter_filter_implied.
      intros y Hy Hlate Hid.
      assert (y = x) by exact (same_handle _ x y (proj1 Hwn) Hin Hy Hid).
      subst y. lia.
    * intros i. rewrite Hst, Hst1. destruct (styles self !! i) as [s|]; [|reflexivity].
      simpl. f_equal. apply final_style_cons. intros k.
      rewrite !list_elem_of_fmap. split.
      -- intros (y & -> & Hy). apply list_elem_of_filter in Hy as [Hyd Hy].
         destruct (decide (Timers.id y = Timers.id x)) as [Hid|Hid];
           [left; rewrite (same_handle _ x y (proj1 Hwn) Hin Hy Hid); reflexivity|].
         right. exists y. split; [reflexivity|]. apply list_elem_of_filter.
         split; [exact Hyd | apply Hmem1; split; [exact Hy | congruence]].
      -- intros [->|(y & -> & Hy)].
         ++ exists x. split; [reflexivity|]. apply list_elem_of_filter. auto.
         ++ apply list_elem_of_filter in Hy as [Hyd Hy]. apply Hmem1 in Hy as [Hy _].
            exists y. split; [reflexivity|]. apply list_elem_of_filter. auto.
  + assert (Hall : Forall (λ y, time < Timers.due y) (Timers.pending (timers self)))
      by (eapply Forall_impl; [exact Hmin|]; simpl; intros; lia).
    cbn [timers set_timers Timers.elapsed Timers.pending Timers.now Timers.next_id
         styles product_filter results_count].
    split; [|split; [exact Hwn|split; [|repeat split]]].
    * symmetry. clear -Hall. induction Hall as [|y l Hy _ IH]; [reflexivity|].
      rewrite filter_cons. destruct (decide _); [f_equal; exact IH | lia].
    * intros i.
      replace (filter (λ x0, Timers.due x0 <= time) (Timers.pending (timers self)))
        with (@nil (Timers.timer task)).
      -- simpl. destruct (styles self !! i); simpl; rewrite ?final_style_nil; reflexivity.
      -- clear -Hall. induction Hall as [|y l Hy _ IH]; [reflexivity|].
         rewrite filter_cons. destruct (decide _); [lia | exact IH].
- apply earliest_None in Hx.
  cbn [timers set_timers Timers.elapsed Timers.pending Timers.now Timers.next_id
       styles product_filter results_count].
  rewrite Hx. split; [reflexivity|]. split; [exact Hwn|]. split; [|repeat split].
  intros i. simpl. destruct (styles self !! i); simpl; rewrite ?final_style_nil; reflexivity.
Qed.

Lemma settle_spec fuel : ∀ self,
well_numbered self →
(length (Timers.pending (timers self)) <= fuel)%nat →
let self' := Timers.run_all timers set_timers run fuel self in
Timers.pending (timers self') = []
∧ (∀ i, styles self' !! i
        = final_style (map Timers.task (Timers.pending (timers self))) i
          <$> styles self !! i)
∧ product_filter self' = product_filter self
∧ results_count self' = results_count self.
Proof.
induction fuel as [|fuel IH]; intros self Hwn Hlen.
- destruct (Timers.pending (timers self)) eqn:Hp; [|simpl in Hlen; lia].
  cbn [Timers.run_all]. rewrite Hp. repeat split.
  intros i. simpl. destruct (styles self !! i); simpl; rewrite ?final_style_nil; reflexivity.
- cbn [Timers.run_all].
  destruct (Timers.earliest (Timers.pending (timers self))) as [x|] eqn:Hx.
  + destruct (earliest_spec _ _ Hx) as [Hin _].
    destruct (fire x self Hwn Hin)
      as (Hp1 & Hmem1 & Hwn1 & Hlen1 & Hst1 & _ & _ & Hf1 & Hr1).
    set (self1 := run (Timers.task x)
                    (set_timers (Timers.started x (timers self)) self)) in *.
    destruct (IH self1 Hwn1 ltac:(lia)) as (Hp & Hst & Hf & Hr).
    split; [exact Hp|]. split; [|split; congruence].
    intros i. rewrite Hst, Hst1. destruct (styles self !! i) as [s|]; [|reflexivity].
    simpl. f_equal. apply final_style_cons. intros k.
    rewrite !list_elem_of_fmap. split.
    * intros (y & -> & Hy).
      destruct (decide (Timers.id y = Timers.id x)) as [Hid|Hid];
        [left; rewrite (same_handle _ x y (proj1 Hwn) Hin Hy Hid); reflexivity|].
      right. exists y. split; [reflexivity|].
      apply Hmem1; split; [exact Hy | congruence].
    * intros [->|(y & -> & Hy)]; [eauto|].
      apply Hmem1 in Hy as [Hy _]. eauto.
  + apply earliest_None in Hx. split; [exact Hx|]. rewrite Hx.
    split; [|split; reflexivity].
    intros i. simpl. destruct (styles self !! i); simpl; rewrite ?final_style_nil; reflexivity.
Qed.

Lemma same_length {X} (f : nat → X → X) (l l' : list X) :
(∀ i, l' !! i = f i <$> l !! i) → length l' = length l.
Proof.
intros H. apply Nat.le_antisymm.
- destruct (decide (length l' <= length l)%nat) as [|Hgt]; [assumption|].
  assert (Hsome : is_Some (l' !! length l)) by (apply lookup_lt_is_Some; lia).
  rewrite H, lookup_ge_None_2 in Hsome by lia. destruct Hsome; discriminate.
- destruct (decide (length l <= length l')%nat) as [|Hgt]; [assumption|].
  assert (Hsome : is_Some (l !! length l')) by (apply lookup_lt_is_Some; lia).
  assert (Hnone : l' !! length l' = None) by (apply lookup_ge_None_2; lia).
  rewrite H in Hnone. destruct Hsome as [x Hx]. rewrite Hx in Hnone. discriminate.
Qed.

Lemma animation_tasks now next (shows : list bool) k :
k ∈ map Timers.task (imap (animation now next 0) shows)
↔ ∃ (j : nat) (b : bool),
    shows !! j = Some b ∧ k = if b then fade_in j else hide j.
Proof.
etransitivity;
  [exact (list_elem_of_fmap Timers.task (imap (animation now next 0) shows) k)|].
split.
- intros (x & -> & Hx). apply elem_of_lookup_imap in Hx as (j & b & -> & Hj).
  exists j, b. split; [exact Hj|]. unfold animation. simpl. reflexivity.
- intros (j & b & Hj & ->). exists (animation now next 0 j b).
  split; [reflexivity|]. apply elem_of_lookup_imap. eauto.
Qed.

Section Platform.
Variable toLowerCase : jsstring → jsstring.
Variable gt_text : number → jsstring → bool.

(** What [applyFilters] leaves, for the timers. *)
Lemma applyFilters_spec self :
aligned self → well_numbered self →
let self' := applyFilters toLowerCase gt_text self in
let shows := decisions toLowerCase gt_text self in
Timers.pending (timers self')
= Timers.pending (timers self)
++ imap (animation (Timers.now (timers self)) (Timers.next_id (timers self)) 0) shows
∧ well_numbered self'
∧ aligned self'
∧ styles self' = zip_with restyle shows (styles self)
∧ product_filter self' = product_filter self
∧ Timers.now (timers self') = Timers.now (timers self).
Proof.
intros Haligned [Hnd Hlt] self' shows. subst self'.
rewrite applyFilters_run by exact Haligned. fold shows.
unfold updateResultsCount. cbn [timers styles product_filter Timers.pending
Timers.now Timers.next_id].
split; [reflexivity|]. split; [|split; [|repeat split]].
- split; cbn [timers Timers.pending Timers.next_id].
+ rewrite map_app. apply NoDup_app. split; [exact Hnd|]. split.
  * intros n Hold Hnew.
    apply (list_elem_of_fmap_1 Timers.id) in Hold as (x & -> & Hx).
    apply (list_elem_of_fmap_1 Timers.id) in Hnew as (y & Hid & Hy).
    apply elem_of_lookup_imap in Hy as (j & b & -> & _).
    rewrite Forall_forall in Hlt. specialize (Hlt x Hx).
    unfold animation in Hid. simpl in Hid. lia.
  * apply NoDup_alt. intros i j n Hi Hj.
    pose proof (list_lookup_fmap Timers.id
      (imap (animation (Timers.now (timers self)) (Timers.next_id (timers self)) 0)
         shows)) as Hlookup.
    unfold fmap at 1 in Hlookup. simpl in Hlookup.
    change (list_fmap _ _ ?f ?l) with (map f l) in Hlookup.
    rewrite Hlookup, list_lookup_imap in Hi, Hj.
    destruct (shows !! i); [|discriminate Hi].
    destruct (shows !! j); [|discriminate Hj].
    simpl in Hi, Hj. injection Hi as <-. injection Hj as Hj. lia.
+ apply Forall_app. split.
  * eapply Forall_impl; [exact Hlt|]. simpl. intros; lia.
  * apply Forall_forall. intros x Hx.
    apply elem_of_lookup_imap in Hx as (j & b & -> & Hj).
    apply lookup_lt_Some in Hj. unfold animation. simpl.
    subst shows. unfold decisions in Hj. rewrite length_map in Hj. lia.
- unfold aligned. cbn [styles product_filter].
rewrite length_zip_with. subst shows. unfold decisions. rewrite length_map.
unfold aligned in Haligned. lia.
Qed.

(** X21: when the timers of the earlier filterings have run, that is
when at least 300 ms have passed since the filter last changed, the
animation of [applyFilters] ends as the filter decides: once its
timers have run, a card the filter shows has the display 'block' and
the opacity 1, a card it hides the display 'none' and the opacity 0,
and no timer is left. *)
Theorem animation_ends_as_decided (self : t) (time : Z) (i : nat)
(c : ProductFilter.card) :
aligned self → well_numbered self →
Forall (λ x, Timers.due x <= time) (Timers.pending (timers self)) →
ProductFilter.cards (product_filter self) !! i = Some c →
let show := ProductFilter.show_card toLowerCase gt_text (product_filter self) c in
let self' := settle (applyFilters toLowerCase gt_text (at_time time self)) in
styles self' !! i
= Some {| style_display := Some (if show then display_block else display_none);
        style_opacity := Some show |}
∧ Timers.pending (timers self') = [].
Proof.
intros Haligned Hwn Hdue Hc show self'.
destruct (at_time_spec (S (length (Timers.pending (timers self)))) time self Hwn
          ltac:(lia)) as (Hp0 & Hwn0 & Hst0 & _ & _ & Hf0 & _).
fold (at_time time self) in *. set (self0 := at_time time self) in *.
assert (Hquiet : Timers.pending (timers self0) = []).
{ rewrite Hp0. clear -Hdue. induction Hdue as [|x l Hx _ IH]; [reflexivity|].
rewrite filter_cons. destruct (decide _); [lia | exact IH]. }
assert (Haligned0 : aligned self0).
{ unfold aligned. rewrite Hf0, (same_length _ _ _ Hst0). exact Haligned. }
destruct (applyFilters_spec self0 Haligned0 Hwn0)
as (Hp1 & Hwn1 & Haligned1 & Hst1 & Hf1 & _).
set (self1 := applyFilters toLowerCase gt_text self0) in *.
destruct (settle_spec (length (Timers.pending (timers self1))) self1 Hwn1
          ltac:(lia)) as (Hp2 & Hst2 & _).
fold (settle self1) in *. subst self'. split; [|exact Hp2].
rewrite Hst2, Hp1, Hquiet, Hst1, lookup_zip_with. simpl app.
assert (Hshow : decisions toLowerCase gt_text self0 !! i = Some show).
{ unfold decisions. rewrite Hf0.
pose proof (list_lookup_fmap
  (ProductFilter.show_card toLowerCase gt_text (product_filter self))
  (ProductFilter.cards (product_filter self)) i) as Hlookup.
rewrite Hc in Hlookup. exact Hlookup. }
rewrite Hshow. simpl.
destruct (styles self0 !! i) as [s0|] eqn:Hs0.
2:{ apply lookup_ge_None in Hs0. apply lookup_lt_Some in Hc.
  unfold aligned in Haligned0. rewrite Hf0 in Haligned0. lia. }
simpl. f_equal. unfold final_style.
assert (Hhide : hide i ∈ map Timers.task
        (imap (animation (Timers.now (timers self0)) (Timers.next_id (timers self0)) 0)
           (decisions toLowerCase gt_text self0)) ↔ show = false).
{ rewrite animation_tasks. split.
- intros (j & b & Hj & Hk). destruct b; [discriminate Hk|]. injection Hk as <-.
  congruence.
- intros Hfalse. exists i, false. split; [congruence | reflexivity]. }
assert (Hfade : fade_in i ∈ map Timers.task
        (imap (animation (Timers.now (timers self0)) (Timers.next_id (timers self0)) 0)
           (decisions toLowerCase gt_text self0)) ↔ show = true).
{ rewrite animation_tasks. split.
- intros (j & b & Hj & Hk). destruct b; [|discriminate Hk]. injection Hk as <-.
  congruence.
- intros Htrue. exists i, true. split; [congruence | reflexivity]. }
destruct show.
- rewrite (bool_decide_eq_true_2 _ (proj2 Hfade eq_refl)).
rewrite bool_decide_eq_false_2 by (intros H; apply Hhide in H; discriminate).
reflexivity.
- rewrite (bool_decide_eq_true_2 _ (proj2 Hhide eq_refl)).
rewrite bool_decide_eq_false_2 by (intros H; apply Hfade in H; discriminate).
reflexivity.
Qed.

(** X22: changing the filter again less than 300 ms after it hid a
card leaves that card hidden even when the new filter shows it: the
timer of the first filtering, which is not cleared, sets the display
to 'none' after the second filtering has set it to 'block'.  Once the
timers have run the card has the display 'none', with the opacity 1. *)
Theorem quick_refilter_leaves_card_hidden (self : t) (f2 : ProductFilter.t)
(t1 t2 : Z) (i : nat) (c c2 : ProductFilter.card) :
aligned self → well_numbered self →
Forall (λ x, Timers.due x <= t1) (Timers.pending (timers self)) →
Timers.now (timers self) <= t1 →
t1 <= t2 < t1 + 300 →
ProductFilter.cards (product_filter self) !! i = Some c →
ProductFilter.show_card toLowerCase gt_text (product_filter self) c = false →
length (ProductFilter.cards f2) = length (ProductFilter.cards (product_filter self)) →
ProductFilter.cards f2 !! i = Some c2 →
ProductFilter.show_card toLowerCase gt_text f2 c2 = true →
let self1 := applyFilters toLowerCase gt_text (at_time t1 self) in
let self2 :=
settle (applyFilters toLowerCase gt_text (set_filter f2 (at_time t2 self1))) in
∃ s, styles self2 !! i = Some s
   ∧ style_display s = Some display_none
   ∧ style_opacity s = Some true.
Proof.
intros Haligned Hwn Hdue Hnow Ht Hc Hhidden Hlen Hc2 Hshown self1 self2.
(* the page at [t1] *)
destruct (at_time_spec (S (length (Timers.pending (timers self)))) t1 self Hwn
          ltac:(lia)) as (Hp0 & Hwn0 & Hst0 & Hnow0 & _ & Hf0 & _).
fold (at_time t1 self) in *. set (self0 := at_time t1 self) in *.
assert (Hquiet : Timers.pending (timers self0) = []).
{ rewrite Hp0. clear -Hdue. induction Hdue as [|x l Hx _ IH]; [reflexivity|].
rewrite filter_cons. destruct (decide _); [lia | exact IH]. }
assert (Haligned0 : aligned self0).
{ unfold aligned. rewrite Hf0, (same_length _ _ _ Hst0). exact Haligned. }
(* the first filtering *)
destruct (applyFilters_spec self0 Haligned0 Hwn0)
as (Hp1 & Hwn1 & Haligned1 & Hst1 & Hf1 & Hnow1).
fold self1 in Hp1, Hwn1, Haligned1, Hst1, Hf1, Hnow1.
assert (Hshow1 : decisions toLowerCase gt_text self0 !! i = Some false).
{ unfold decisions. rewrite Hf0.
pose proof (list_lookup_fmap
  (ProductFilter.show_card toLowerCase gt_text (product_filter self))
  (ProductFilter.cards (product_filter self)) i) as Hlookup.
rewrite Hc in Hlookup. simpl in Hlookup. rewrite Hhidden in Hlookup.
exact Hlookup. }
assert (Htimer : animation (Timers.now (timers self0)) (Timers.next_id (timers self0))
                 0 i false ∈ Timers.pending (timers self1)).
{ rewrite Hp1, Hquiet. simpl app. apply elem_of_lookup_imap. eauto. }
(* the page at [t2] *)
destruct (at_time_spec (S (length (Timers.pending (timers self1)))) t2 self1 Hwn1
          ltac:(lia)) as (Hp2 & Hwn2 & Hst2 & _ & _ & Hf2 & _).
fold (at_time t2 self1) in *. set (self1' := at_time t2 self1) in *.
assert (Htimer2 : animation (Timers.now (timers self0)) (Timers.next_id (timers self0))
                  0 i false ∈ Timers.pending (timers self1')).
{ rewrite Hp2. apply list_elem_of_filter. split; [|exact Htimer].
unfold animation. simpl. lia. }
(* the second filtering *)
set (self1'' := set_filter f2 self1').
assert (Haligned2 : aligned self1'').
{ unfold aligned, self1''. simpl. rewrite (same_length _ _ _ Hst2).
unfold aligned in Haligned1. rewrite Haligned1, Hf1, Hf0. symmetry. exact Hlen. }
destruct (applyFilters_spec self1'' Haligned2 Hwn2)
as (Hp3 & Hwn3 & Haligned3 & Hst3 & Hf3 & _).
set (self3 := applyFilters toLowerCase gt_text self1'') in *.
assert (Hshow2 : decisions toLowerCase gt_text self1'' !! i = Some true).
{ unfold decisions, self1''. simpl.
pose proof (list_lookup_fmap (ProductFilter.show_card toLowerCase gt_text f2)
  (ProductFilter.cards f2) i) as Hlookup.
rewrite Hc2 in Hlookup. simpl in Hlookup. rewrite Hshown in Hlookup.
exact Hlookup. }
destruct (settle_spec (length (Timers.pending (timers self3))) self3 Hwn3
          ltac:(lia)) as (_ & Hst4 & _).
fold (settle self3) in Hst4. fold self2 in Hst4.
assert (Hs3 : is_Some (styles self3 !! i)).
{ apply lookup_lt_is_Some. unfold aligned in Haligned3. rewrite Haligned3.
rewrite Hf3. unfold self1''. simpl. apply lookup_lt_Some in Hc2. exact Hc2. }
destruct Hs3 as [s3 Hs3]. eexists. rewrite Hst4, Hs3. split; [reflexivity|].
unfold final_style. cbn [style_display style_opacity]. split.
- rewrite bool_decide_eq_true_2; [reflexivity|].
rewrite Hp3. rewrite map_app. apply elem_of_app. left.
apply (list_elem_of_fmap_2 Timers.task) in Htimer2. exact Htimer2.
- rewrite bool_decide_eq_true_2; [reflexivity|].
rewrite Hp3. rewrite map_app. apply elem_of_app. right.
apply animation_tasks. exists i, true. split; [exact Hshow2 | reflexivity].
Qed.

End Platform.

Lemma results_count_is_stale_witness :
results_count totes_only = Some (js "1 products found")
∧ results_count
    (handleFilterClick ProductFilter.latin1_toLowerCase ProductFilter.gt_numeral
       (category_button "wallet") totes_only)
  = Some (js "2 products found").
Proof.
split; [reflexivity|].
exact (proj1 (results_count_is_stale ProductFilter.latin1_toLowerCase
                ProductFilter.gt_numeral (set_filter wallets_filter totes_only)
                (js "1 products found") eq_refl eq_refl)).
Defined.

Lemma animation_ends_as_decided_witness :
let self := set_filter wallets_filter totes_only in
let c := {| ProductFilter.dataset_category := Some (js "tote");
                     ProductFilter.dataset_material := Some (js "leather");
                     ProductFilter.dataset_price := Some (js "50");
                     ProductFilter.product_title := js "Tote";
                     ProductFilter.product_description := js "A bag";
                     ProductFilter.displayed := false |} in
let show := ProductFilter.show_card ProductFilter.latin1_toLowerCase
                     ProductFilter.gt_numeral (product_filter self) c in
styles (settle (applyFilters ProductFilter.latin1_toLowerCase
                     ProductFilter.gt_numeral (at_time 400 self))) !! 0%nat
= Some {| style_display := Some (if show then display_block else display_none);
          style_opacity := Some show |}.
Proof.
intros self c show.
refine (proj1 (animation_ends_as_decided ProductFilter.latin1_toLowerCase
                  ProductFilter.gt_numeral self 400 0 c _ _ _ _)).
- vm_compute; reflexivity.
- split; [refine (bool_decide_unpack _ _); vm_compute; exact I|].
  repeat constructor.
- repeat constructor; vm_compute; discriminate.
- vm_compute; reflexivity.
Defined.

Lemma quick_refilter_witness :
∃ s, styles (settle (applyFilters ProductFilter.latin1_toLowerCase
                       ProductFilter.gt_numeral
                       (set_filter wallets_filter
                          (at_time 100
                             (applyFilters ProductFilter.latin1_toLowerCase
                                ProductFilter.gt_numeral
                                (at_time 0
                                   (set_filter (product_filter totes_only) shop)))))))
     !! 1%nat = Some s
     ∧ style_display s = Some display_none
     ∧ style_opacity s = Some true.
Proof.
refine (quick_refilter_leaves_card_hidden ProductFilter.latin1_toLowerCase
          ProductFilter.gt_numeral
          (set_filter (product_filter totes_only) shop) wallets_filter 0 100 1
          {| ProductFilter.dataset_category := Some (js "wallet");
             ProductFilter.dataset_material := Some (js "leather");
             ProductFilter.dataset_price := Some (js "20");
             ProductFilter.product_title := js "Wallet";
             ProductFilter.product_description := js "A wallet";
             ProductFilter.displayed := false |}
          {| ProductFilter.dataset_category := Some (js "wallet");
             ProductFilter.dataset_material := Some (js "leather");
             ProductFilter.dataset_price := Some (js "20");
             ProductFilter.product_title := js "Wallet";
             ProductFilter.product_description := js "A wallet";
             ProductFilter.displayed := true |}
          eq_refl _ _ _ _ eq_refl eq_refl eq_refl eq_refl eq_refl).
- split; constructor.
- constructor.
- simpl. lia.
- lia.
Defined.

End ProductGridFacts.

(** ** Notifications leave their container *)

Module NotificationFacts.
Import JS NotificationSystem Bursts Alerts ProductGridFacts.

Lemma ages_refl e : ages e e.
Proof. repeat split; auto. Qed.

Lemma ages_trans e1 e2 e3 : ages e1 e2 → ages e2 e3 → ages e1 e3.
Proof.
intros (Hm & Hc & Hs & Hh & Hp) (Hm' & Hc' & Hs' & Hh' & Hp').
repeat split; auto; congruence.
Qed.

Lemma grows_refl l : grows l l.
Proof. intros n e Hn. exists e. split; [exact Hn | apply ages_refl]. Qed.

Lemma grows_trans l1 l2 l3 : grows l1 l2 → grows l2 l3 → grows l1 l3.
Proof.
intros H12 H23 n e Hn. destruct (H12 n e Hn) as (e2 & Hn2 & Ha).
destruct (H23 n e2 Hn2) as (e3 & Hn3 & Ha'). exists e3.
split; [exact Hn3 | exact (ages_trans _ _ _ Ha Ha')].
Qed.

Lemma grows_alter f k l : (∀ e, ages e (f e)) → grows l (alter f k l).
Proof.
intros Hf n e Hn. rewrite list_lookup_alter.
destruct (decide (k = n)) as [->|Hk].
- rewrite Hn. exists (f e). split; [reflexivity | apply Hf].
- exists e. split; [exact Hn | apply ages_refl].
Qed.

Lemma grows_app l l' : grows l (l ++ l').
Proof.
intros n e Hn. exists e. split; [|apply ages_refl].
apply lookup_app_l_Some. exact Hn.
Qed.

Lemma ages_add_show e : ages e (classList_add_show e).
Proof. repeat split; auto. Qed.

Lemma ages_add_hide e : ages e (classList_add_hide e).
Proof. repeat split; auto. Qed.

Lemma ages_remove_from_parent e : ages e (remove_from_parent e).
Proof. unfold remove_from_parent. destruct (parentNode e) eqn:Hp; repeat split; auto. Qed.

(** *** The timers *)

Lemma setTimeout_numbered {T} (f : T) delay (q : Timers.t T) :
numbered q → numbered (Timers.setTimeout f delay q).2.
Proof.
intros [Hnd Hlt]. split; simpl.
- rewrite map_app. apply NoDup_app. split; [exact Hnd|]. split.
  + intros n Hold Hnew. apply list_elem_of_singleton in Hnew as ->.
    apply (list_elem_of_fmap_1 Timers.id) in Hold as (x & Hid & Hx).
    rewrite Forall_forall in Hlt. specialize (Hlt x Hx). simpl in Hid. lia.
  + apply NoDup_singleton.
- apply Forall_app. split.
  + eapply Forall_impl; [exact Hlt|]. simpl. intros; lia.
  + repeat constructor.
Qed.

Lemma setTimeout_punctual {T} (f : T) delay (q : Timers.t T) :
punctual q → punctual (Timers.setTimeout f delay q).2.
Proof.
intros Hp. unfold punctual. simpl. apply Forall_app. split; [exact Hp|].
repeat constructor. simpl. lia.
Qed.

Lemma started_pending {T} (x : Timers.timer T) (q : Timers.t T) y :
numbered q → x ∈ Timers.pending q →
y ∈ Timers.pending (Timers.started x q) ↔ y ∈ Timers.pending q ∧ y ≠ x.
Proof.
intros [Hnd _] Hx. simpl. rewrite list_elem_of_filter. split.
- intros [Hid Hy]. split; [exact Hy|]. intros ->. apply Hid. reflexivity.
- intros [Hy Hne]. split; [|exact Hy]. intros Hid. apply Hne.
  exact (same_handle _ _ _ Hnd Hx Hy Hid).
Qed.

Lemma started_numbered {T} (x : Timers.timer T) (q : Timers.t T) :
numbered q → numbered (Timers.started x q).
Proof.
intros [Hnd Hlt]. split; simpl.
- clear Hlt. induction (Timers.pending q) as [|y l IH]; [constructor|].
  simpl in Hnd. apply NoDup_cons in Hnd as [Hy Hnd].
  rewrite filter_cons. destruct (decide _); [|exact (IH Hnd)].
  simpl. apply NoDup_cons. split; [|exact (IH Hnd)].
  intros Hin. apply Hy.
  apply (list_elem_of_fmap_1 Timers.id) in Hin as (z & Hid & Hz).
  apply list_elem_of_filter in Hz as [_ Hz]. rewrite Hid.
  apply (list_elem_of_fmap_2 Timers.id), Hz.
- rewrite Forall_forall in Hlt. apply Forall_forall. intros y Hy.
  apply list_elem_of_filter in Hy as [_ Hy]. exact (Hlt y Hy).
Qed.

Lemma started_punctual {T} (x : Timers.timer T) (q : Timers.t T) :
punctual q → Timers.earliest (Timers.pending q) = Some x →
punctual (Timers.started x q) ∧ Timers.now (Timers.started x q) = Timers.due x.
Proof.
intros Hp Hx. destruct (earliest_spec _ _ Hx) as [Hin Hall].
unfold punctual in *. rewrite Forall_forall in Hp, Hall.
pose proof (Hp x Hin) as Hnow. simpl. split; [|lia].
apply Forall_forall. intros y Hy. apply list_elem_of_filter in Hy as [_ Hy].
specialize (Hall y Hy). lia.
Qed.

Lemma started_load (x : Timers.timer task) (q : Timers.t task) :
x ∈ Timers.pending q →
(load (Timers.pending (Timers.started x q)) + weight x <= load (Timers.pending q))%nat.
Proof.
simpl. unfold load. induction (Timers.pending q) as [|y l IH]; intros Hx;
  [inversion Hx|].
assert (Hle : (sum_list (map weight (filter (λ y, Timers.id y ≠ Timers.id x) l))
               <= sum_list (map weight l))%nat).
{ clear. induction l as [|z l IH]; [simpl; lia|].
  rewrite filter_cons. destruct (decide _); simpl; lia. }
rewrite filter_cons. apply elem_of_cons in Hx as [<-|Hx].
- destruct (decide _) as [Hne|_]; [contradiction|]. simpl. lia.
- specialize (IH Hx). destruct (decide _); simpl; lia.
Qed.

Lemma load_app (l l' : list (Timers.timer task)) :
load (l ++ l') = (load l + load l')%nat.
Proof. unfold load. induction l as [|x l IH]; simpl; [reflexivity | lia]. Qed.

Lemma load_bound (l : list (Timers.timer task)) : (load l <= 2 * length l)%nat.
Proof.
unfold load. induction l as [|x l IH]; simpl; [lia|].
unfold weight at 1. destruct (Timers.task x); lia.
Qed.

(** *** One step of [remove], of [show], of a timer *)

Lemma remove_spec n self :
sound self →
sound (remove n self)
∧ grows (created self) (created (remove n self))
∧ length (created (remove n self)) = length (created self)
∧ Timers.now (timers (remove n self)) = Timers.now (timers self)
∧ Timers.pending (timers (remove n self))
  = Timers.pending (timers self)
    ++ [{| Timers.id := Timers.next_id (timers self);
           Timers.due := Timers.now (timers self) + 300;
           Timers.task := detach n |}].
Proof.
intros [Hn Hp]. unfold remove. cbv zeta. split; [split|split; [|split; [|split]]].
- exact (setTimeout_numbered (detach n) 300 _ Hn).
- exact (setTimeout_punctual (detach n) 300 _ Hp).
- apply grows_alter, ages_add_hide.
- apply length_alter.
- reflexivity.
- reflexivity.
Qed.

Lemma leaves_by_later n D self self' :
grows (created self) (created self') →
(∀ x, x ∈ Timers.pending (timers self) → covers n D x →
      x ∈ Timers.pending (timers self')
      ∨ (∃ y, y ∈ Timers.pending (timers self') ∧ covers n D y)
      ∨ (∀ e', created self' !! n = Some e' → parentNode e' = false)) →
leaves_by n D self → leaves_by n D self'.
Proof.
intros Hgrows Hpending (e & He & Hleaves).
destruct (Hgrows n e He) as (e' & He' & Hages). exists e'. split; [exact He'|].
intros Hin'. destruct (parentNode e) eqn:Hin.
- destruct (Hleaves eq_refl) as (x & Hx & Hcovers).
  destruct (Hpending x Hx Hcovers) as [Hx'|[(y & Hy & Hcy)|Hout]].
  + exists x. split; assumption.
  + exists y. split; assumption.
  + rewrite (Hout e' He') in Hin'. discriminate.
- destruct Hages as (_ & _ & _ & _ & Hout). rewrite (Hout Hin) in Hin'.
  discriminate.
Qed.

Lemma leaving_later self self' :
length (created self') = length (created self) →
(∀ n D, leaves_by n D self → leaves_by n D self') →
leaving self → leaving self'.
Proof.
intros Hlen Hleaves Hall n Hn. rewrite Hlen in Hn.
destruct (Hall n Hn) as [D HD]. exists D. apply Hleaves, HD.
Qed.

Lemma remove_leaves k n D self :
sound self → leaves_by n D self → leaves_by n D (remove k self).
Proof.
intros Hs. destruct (remove_spec k self Hs) as (_ & Hgrows & _ & _ & Hp).
apply leaves_by_later; [exact Hgrows|].
intros x Hx _. left. rewrite Hp. apply elem_of_app. left. exact Hx.
Qed.

Lemma show_spec text type duration self :
sound self →
let self' := show text type duration self in
sound self'
∧ grows (created self) (created self')
∧ Timers.now (timers self') = Timers.now (timers self)
∧ (∀ n D, leaves_by n D self → leaves_by n D self')
∧ (∀ D, Timers.now (timers self) + Z.max 0 (default 5000 duration) + 300 <= D →
        leaves_by (length (created self)) D self')
∧ (∃ e, created self' !! length (created self) = Some e ∧ message e = text)
∧ length (created self') = S (length (created self)).
Proof.
intros [Hn Hp] self'. subst self'. unfold show. cbv zeta.
split; [split|split; [|split; [|split; [|split; [|split]]]]].
- exact (setTimeout_numbered (auto_remove _) _ _
           (setTimeout_numbered (add_show _) 100 _ Hn)).
- exact (setTimeout_punctual (auto_remove _) _ _
           (setTimeout_punctual (add_show _) 100 _ Hp)).
- apply grows_app.
- reflexivity.
- intros n D. apply leaves_by_later; simpl; [apply grows_app|].
  intros x Hx _. left. apply elem_of_app. left. apply elem_of_app. left. exact Hx.
- intros D HD. eexists. simpl. split.
  + rewrite lookup_app_r by lia. rewrite Nat.sub_diag. reflexivity.
  + intros _. eexists. split.
    * apply elem_of_app. right. left.
    * left. simpl. split; [reflexivity | lia].
- eexists. cbn [created set_timers set_created]. split.
  + rewrite lookup_app_r by lia. rewrite Nat.sub_diag. reflexivity.
  + reflexivity.
- cbn [created set_timers set_created]. rewrite length_app. simpl. lia.
Qed.

Lemma close_click_spec k self :
sound self →
let self' := close_click k self in
sound self'
∧ grows (created self) (created self')
∧ length (created self') = length (created self)
∧ Timers.now (timers self') = Timers.now (timers self)
∧ (∀ n D, leaves_by n D self → leaves_by n D self')
∧ (∀ D, (k < length (created self))%nat →
        Timers.now (timers self) + 300 <= D → leaves_by k D self').
Proof.
intros Hs self'. subst self'. unfold close_click.
destruct (created self !! k) as [e|] eqn:He.
- destruct (remove_spec k self Hs) as (Hs' & Hgrows & Hlen & Hnow & Hp).
  split; [exact Hs'|]. split; [exact Hgrows|]. split; [exact Hlen|].
  split; [exact Hnow|]. split.
  + intros n D. apply remove_leaves. exact Hs.
  + intros D _ HD. destruct (Hgrows k e He) as (e' & He' & _).
    exists e'. split; [exact He'|]. intros _. eexists. split.
    * rewrite Hp. apply elem_of_app. right. left.
    * right. simpl. split; [reflexivity | lia].
- split; [exact Hs|]. split; [apply grows_refl|]. split; [reflexivity|].
  split; [reflexivity|]. split; [auto|].
  intros D Hk _. apply lookup_ge_None in He. lia.
Qed.

(** The timer that is due first runs. *)
Lemma fires x self :
sound self → Timers.earliest (Timers.pending (timers self)) = Some x →
let self' := run (Timers.task x) (set_timers (Timers.started x (timers self)) self) in
sound self'
∧ grows (created self) (created self')
∧ length (created self') = length (created self)
∧ Timers.now (timers self') = Timers.due x
∧ (load (Timers.pending (timers self')) < load (Timers.pending (timers self)))%nat
∧ (∀ n D, leaves_by n D self → leaves_by n D self').
Proof.
intros [Hn Hp] Hx self'.
destruct (earliest_spec _ _ Hx) as [Hin _].
pose proof (started_numbered x _ Hn) as Hn1.
destruct (started_punctual x _ Hp Hx) as [Hp1 Hnow1].
pose proof (started_load x _ Hin) as Hload.
pose proof (λ y, started_pending x (timers self) y Hn Hin) as Hpending.
set (self1 := set_timers (Timers.started x (timers self)) self) in *.
assert (Hs1 : sound self1) by (split; assumption).
subst self'. unfold weight in Hload.
destruct (Timers.task x) as [k|k|k] eqn:Htask; cbn [run].
- (* the class 'show' *)
  split; [exact Hs1|]. split; [apply grows_alter, ages_add_show|].
  split; [apply length_alter|].
  split; [exact Hnow1|]. split; [simpl in *; lia|].
  intros n D. apply leaves_by_later; [apply grows_alter, ages_add_show|].
  intros y Hy [[Hty _]|[Hty _]]; left; apply Hpending; (split; [exact Hy|]);
    intros ->; congruence.
- (* the automatic removal *)
  destruct (remove_spec k self1 Hs1) as (Hs' & Hgrows & Hlen & Hnow & Hp').
  split; [exact Hs'|]. split; [exact Hgrows|]. split; [exact Hlen|].
  split; [rewrite Hnow; exact Hnow1|]. split.
  { rewrite Hp', load_app. change (timers self1) with (Timers.started x (timers self)).
    change (load [_]) with 1%nat. lia. }
  intros n D. apply leaves_by_later; [exact Hgrows|].
  intros y Hy Hcovers. destruct (decide (Timers.id y = Timers.id x)) as [Hid|Hid].
  + assert (y = x) as -> by exact (same_handle _ _ _ (proj1 Hn) Hin Hy Hid).
    right. left. destruct Hcovers as [[Hty HD]|[Hty _]]; [|congruence].
    assert (k = n) as -> by congruence.
    eexists. split; [rewrite Hp'; apply elem_of_app; right; left|].
    right. split; [reflexivity|]. cbn [Timers.due].
    change (timers self1) with (Timers.started x (timers self)).
    rewrite Hnow1. exact HD.
  + left. rewrite Hp'. apply elem_of_app. left. apply Hpending.
    split; [exact Hy|]. intros ->. apply Hid. reflexivity.
- (* the removal from the container *)
  split; [exact Hs1|]. split; [apply grows_alter, ages_remove_from_parent|].
  split; [apply length_alter|].
  split; [exact Hnow1|]. split; [simpl in *; lia|].
  intros n D. apply leaves_by_later; [apply grows_alter, ages_remove_from_parent|].
  intros y Hy Hcovers. destruct (decide (Timers.id y = Timers.id x)) as [Hid|Hid].
  + assert (y = x) as -> by exact (same_handle _ _ _ (proj1 Hn) Hin Hy Hid).
    right. right. destruct Hcovers as [[Hty _]|[Hty _]]; [congruence|].
    assert (k = n) as -> by congruence.
    intros e'. simpl. rewrite list_lookup_alter.
    destruct (decide (n = n)) as [_|Hne]; [|contradiction].
    destruct (created self !! n) as [e|]; simpl; [|discriminate].
    intros [= <-]. unfold remove_from_parent.
    destruct (parentNode e) eqn:He; [reflexivity | exact He].
  + left. apply Hpending. split; [exact Hy|]. intros ->. apply Hid. reflexivity.
Qed.

(** *** The event loop *)

Lemma run_until_spec fuel time : ∀ self,
sound self → (load (Timers.pending (timers self)) < fuel)%nat →
let self' := Timers.run_until timers set_timers run fuel time self in
sound self'
∧ grows (created self) (created self')
∧ length (created self') = length (created self)
∧ Timers.now (timers self') = Z.max (Timers.now (timers self)) time
∧ Forall (λ x, time < Timers.due x) (Timers.pending (timers self'))
∧ (∀ n D, leaves_by n D self → leaves_by n D self').
Proof.
induction fuel as [|fuel IH]; intros self Hs Hfuel; [lia|].
cbn [Timers.run_until].
destruct (Timers.earliest (Timers.pending (timers self))) as [x|] eqn:Hx.
- destruct (earliest_spec _ _ Hx) as [Hin Hall].
  destruct (Z.leb_spec (Timers.due x) time) as [Hdue|Hdue].
  + destruct (fires x self Hs Hx)
      as (Hs1 & Hgrows1 & Hlen1 & Hnow1 & Hload1 & Hleaves1).
    set (self1 := run (Timers.task x) (set_timers (Timers.started x (timers self)) self))
      in *.
    destruct (IH self1 Hs1 ltac:(lia))
      as (Hs' & Hgrows' & Hlen' & Hnow' & Hdue' & Hleaves').
    split; [exact Hs'|]. split; [exact (grows_trans _ _ _ Hgrows1 Hgrows')|].
    split; [congruence|]. split.
    { rewrite Hnow', Hnow1. destruct Hs as [_ Hp]. unfold punctual in Hp.
      rewrite Forall_forall in Hp. specialize (Hp x Hin). lia. }
    split; [exact Hdue'|]. intros n D Hl. apply Hleaves', Hleaves1, Hl.
  + destruct Hs as [Hn Hp]. simpl. split; [split|].
    * exact Hn.
    * unfold punctual in *. simpl. rewrite Forall_forall in Hp, Hall.
      apply Forall_forall. intros y Hy. specialize (Hp y Hy).
      specialize (Hall y Hy). lia.
    * split; [apply grows_refl|]. split; [reflexivity|]. split; [reflexivity|].
      split.
      -- rewrite Forall_forall in Hall. apply Forall_forall. intros y Hy.
         specialize (Hall y Hy). lia.
      -- intros n D Hl. exact Hl.
- apply earliest_None in Hx. destruct Hs as [Hn Hp]. simpl.
  split; [split|].
  + exact Hn.
  + unfold punctual. simpl. rewrite Hx. constructor.
  + split; [apply grows_refl|]. split; [reflexivity|]. split; [reflexivity|].
    split.
    * rewrite Hx. constructor.
    * intros n D Hl. exact Hl.
Qed.

Lemma run_all_spec fuel : ∀ self,
sound self → (load (Timers.pending (timers self)) <= fuel)%nat →
let self' := Timers.run_all timers set_timers run fuel self in
grows (created self) (created self')
∧ length (created self') = length (created self)
∧ Timers.pending (timers self') = []
∧ (∀ n D, leaves_by n D self → leaves_by n D self').
Proof.
induction fuel as [|fuel IH]; intros self Hs Hfuel.
- cbn [Timers.run_all]. split; [apply grows_refl|]. split; [reflexivity|].
  split; [|auto].
  destruct (Timers.pending (timers self)) as [|x l]; [reflexivity|].
  unfold load in Hfuel. simpl in Hfuel. unfold weight in Hfuel.
  destruct (Timers.task x); lia.
- cbn [Timers.run_all].
  destruct (Timers.earliest (Timers.pending (timers self))) as [x|] eqn:Hx.
  + destruct (fires x self Hs Hx)
      as (Hs1 & Hgrows1 & Hlen1 & Hnow1 & Hload1 & Hleaves1).
    set (self1 := run (Timers.task x) (set_timers (Timers.started x (timers self)) self))
      in *.
    destruct (IH self1 Hs1 ltac:(lia)) as (Hgrows' & Hlen' & Hp' & Hleaves').
    split; [exact (grows_trans _ _ _ Hgrows1 Hgrows')|]. split; [congruence|].
    split; [exact Hp'|].
    intros n D Hl. apply Hleaves', Hleaves1, Hl.
  + apply earliest_None in Hx. split; [apply grows_refl|].
    split; [reflexivity|]. split; [exact Hx | auto].
Qed.

Lemma notifications_at_time time self :
sound self →
sound (at_time time self)
∧ grows (created self) (created (at_time time self))
∧ length (created (at_time time self)) = length (created self)
∧ Timers.now (timers (at_time time self)) = Z.max (Timers.now (timers self)) time
∧ Forall (λ x, time < Timers.due x) (Timers.pending (timers (at_time time self)))
∧ (∀ n D, leaves_by n D self → leaves_by n D (at_time time self)).
Proof.
intros Hs. apply run_until_spec; [exact Hs|].
pose proof (load_bound (Timers.pending (timers self))). lia.
Qed.

Lemma react_spec time ev self :
sound self → Timers.now (timers self) <= time →
sound (react ev (at_time time self))
∧ grows (created self) (created (react ev (at_time time self)))
∧ Timers.now (timers (react ev (at_time time self))) = time
∧ (∀ n D, leaves_by n D self → leaves_by n D (react ev (at_time time self)))
∧ (leaving self → leaving (react ev (at_time time self))).
Proof.
intros Hs Hnow.
destruct (notifications_at_time time self Hs) as (Hs1 & Hgrows1 & Hlen1 & Hnow1 & _ & Hleaves1).
pose proof (leaving_later self _ Hlen1 Hleaves1) as Hall1.
destruct ev as [text type duration|k]; cbn [react].
- destruct (show_spec text type duration _ Hs1)
    as (Hs' & Hgrows' & Hnow' & Hleaves' & Hnew & _ & Hlen').
  split; [exact Hs'|]. split; [exact (grows_trans _ _ _ Hgrows1 Hgrows')|].
  split; [rewrite Hnow', Hnow1; lia|].
  split; [intros n D Hl; apply Hleaves', Hleaves1, Hl|].
  intros Hall n Hn. rewrite Hlen' in Hn.
  destruct (decide (n = length (created (at_time time self)))) as [->|Hne].
  + eexists. apply Hnew. reflexivity.
  + destruct (Hall1 Hall n ltac:(lia)) as [D HD]. exists D. apply Hleaves', HD.
- destruct (close_click_spec k _ Hs1)
    as (Hs' & Hgrows' & Hlen' & Hnow' & Hleaves' & _).
  split; [exact Hs'|]. split; [exact (grows_trans _ _ _ Hgrows1 Hgrows')|].
  split; [rewrite Hnow', Hnow1; lia|].
  split; [intros n D Hl; apply Hleaves', Hleaves1, Hl|].
  intros Hall. apply (leaving_later (at_time time self)); auto.
Qed.

Lemma play_spec evs : ∀ self,
sound self → in_order (Timers.now (timers self)) evs →
sound (play evs self)
∧ grows (created self) (created (play evs self))
∧ (∀ n D, leaves_by n D self → leaves_by n D (play evs self))
∧ (leaving self → leaving (play evs self)).
Proof.
induction evs as [|[time ev] evs IH]; intros self Hs Horder.
- split; [exact Hs|]. split; [apply grows_refl | auto].
- destruct Horder as [Hnow Horder]. simpl in Hnow, Horder.
  destruct (react_spec time ev self Hs Hnow)
    as (Hs1 & Hgrows1 & Hnow1 & Hleaves1 & Hall1).
  rewrite <- Hnow1 in Horder.
  destruct (IH _ Hs1 Horder) as (Hs' & Hgrows' & Hleaves' & Hall').
  split; [exact Hs'|]. split; [exact (grows_trans _ _ _ Hgrows1 Hgrows')|].
  split; [intros n D Hl; apply Hleaves', Hleaves1, Hl|].
  intros Hall. apply Hall', Hall1, Hall.
Qed.

Lemma play_app evs1 evs2 self : play (evs1 ++ evs2) self = play evs2 (play evs1 self).
Proof. apply foldl_app. Qed.

Lemma play_now evs1 : ∀ evs2 self,
sound self → in_order (Timers.now (timers self)) (evs1 ++ evs2) →
in_order (Timers.now (timers self)) evs1
∧ in_order (Timers.now (timers (play evs1 self))) evs2.
Proof.
induction evs1 as [|[time ev] evs1 IH]; intros evs2 self Hs Horder.
- split; [exact I | exact Horder].
- destruct Horder as [Hnow Horder]. simpl in Hnow, Horder.
  destruct (react_spec time ev self Hs Hnow) as (Hs1 & _ & Hnow1 & _).
  rewrite <- Hnow1 in Horder.
  destruct (IH evs2 _ Hs1 Horder) as [H1 H2].
  rewrite Hnow1 in H1. split; [split; assumption | exact H2].
Qed.

Lemma constructor_sound : sound constructor.
Proof. repeat split; constructor. Qed.

(** The notification [n] is out of the container at [time] when a timer
  was to take it out by then. *)
Lemma left_by n time self :
sound self → leaves_by n time self →
∃ e, created (at_time time self) !! n = Some e ∧ parentNode e = false.
Proof.
intros Hs Hl.
destruct (notifications_at_time time self Hs) as (_ & _ & _ & _ & Hdue & Hleaves).
destruct (Hleaves n time Hl) as (e & He & Hin). exists e. split; [exact He|].
destruct (parentNode e); [|reflexivity].
destruct (Hin eq_refl) as (x & Hx & Hcovers).
rewrite Forall_forall in Hdue. specialize (Hdue x Hx).
destruct Hcovers as [[_ HD]|[_ HD]]; lia.
Qed.

(** X23: a notification is out of its container 300 ms after the time
  given to [show] (5000 ms by default, 0 for a negative one) has
  passed, whatever was shown or clicked before and after; the
  notification is the one with the message, at the position of its
  creation. *)
Theorem notification_leaves (evs1 evs2 : list (Z * event)) (time : Z)
  (text : jsstring) (type : option jsstring) (duration : option Z) (T : Z) :
in_order 0 (evs1 ++ (time, Show text type duration) :: evs2) →
time + Z.max 0 (default 5000 duration) + 300 <= T →
∃ e, created (at_time T (history (evs1 ++ (time, Show text type duration) :: evs2)))
       !! length (created (history evs1)) = Some e
     ∧ message e = text
     ∧ parentNode e = false.
Proof.
intros Horder HT. unfold history. rewrite play_app.
destruct (play_now evs1 _ constructor constructor_sound Horder) as [Horder1 Horder2].
destruct (play_spec evs1 constructor constructor_sound Horder1) as (Hs0 & _).
set (self0 := play evs1 constructor) in *.
destruct Horder2 as [Hnow Horder2]. simpl in Hnow, Horder2.
cbn [play foldl fst snd react]. 
destruct (notifications_at_time time self0 Hs0) as (Hs1 & _ & Hlen1 & Hnow1 & _).
destruct (show_spec text type duration _ Hs1)
  as (Hs2 & _ & Hnow2 & _ & Hnew & (e2 & He2 & Hmessage) & _).
rewrite Hlen1 in Hnew, He2.
set (self2 := show text type duration (at_time time self0)) in *.
fold (play evs2 self2).
assert (Hnow2' : Timers.now (timers self2) = time) by lia.
rewrite <- Hnow2' in Horder2.
destruct (play_spec evs2 self2 Hs2 Horder2) as (Hs3 & Hgrows3 & Hleaves3 & _).
destruct (left_by (length (created self0)) T _ Hs3) as (e & He & Hout).
{ apply Hleaves3, Hnew. lia. }
exists e. split; [exact He|]. split; [|exact Hout].
destruct (Hgrows3 _ _ He2) as (e3 & He3 & Hages3).
destruct (notifications_at_time T _ Hs3) as (_ & Hgrows4 & _).
destruct (Hgrows4 _ _ He3) as (e4 & He4 & Hages4).
rewrite He in He4. injection He4 as <-.
destruct Hages4 as [-> _]. destruct Hages3 as [-> _]. exact Hmessage.
Qed.

(** X24: a notification is out of its container 300 ms after a click on
  its close button, whatever was shown or clicked before and after. *)
Theorem close_click_removes (evs1 evs2 : list (Z * event)) (time : Z) (n : nat)
  (T : Z) :
in_order 0 (evs1 ++ (time, CloseClick n) :: evs2) →
(n < length (created (history evs1)))%nat →
time + 300 <= T →
∃ e, created (at_time T (history (evs1 ++ (time, CloseClick n) :: evs2))) !! n
     = Some e
     ∧ parentNode e = false.
Proof.
intros Horder Hn HT. unfold history in *. rewrite play_app.
destruct (play_now evs1 _ constructor constructor_sound Horder) as [Horder1 Horder2].
destruct (play_spec evs1 constructor constructor_sound Horder1) as (Hs0 & _).
set (self0 := play evs1 constructor) in *.
destruct Horder2 as [Hnow Horder2]. simpl in Hnow, Horder2.
cbn [play foldl fst snd react].
destruct (notifications_at_time time self0 Hs0) as (Hs1 & _ & Hlen1 & Hnow1 & _).
destruct (close_click_spec n _ Hs1) as (Hs2 & _ & _ & Hnow2 & _ & Hnew).
set (self2 := close_click n (at_time time self0)) in *.
fold (play evs2 self2).
assert (Hnow2' : Timers.now (timers self2) = time) by lia.
rewrite <- Hnow2' in Horder2.
destruct (play_spec evs2 self2 Hs2 Horder2) as (Hs3 & _ & Hleaves3 & _).
apply (left_by n T _ Hs3). apply Hleaves3, Hnew; lia.
Qed.

(** X25: once its timers have run the container is empty and no timer
  is left, whatever was shown and clicked; every notification keeps
  its message. *)
Theorem container_empties (evs : list (Z * event)) :
in_order 0 evs →
children (settle (history evs)) = []
∧ Timers.pending (timers (settle (history evs))) = []
∧ map message (created (settle (history evs))) = map message (created (history evs)).
Proof.
intros Horder. unfold history.
destruct (play_spec evs constructor constructor_sound Horder) as (Hs & _ & _ & Hall).
set (self := play evs constructor) in *.
destruct (run_all_spec (2 * length (Timers.pending (timers self))) self Hs
            (load_bound _)) as (Hgrows & Hlen & Hp & Hleaves).
fold (settle self) in Hgrows, Hlen, Hp, Hleaves.
assert (Hleaving : leaving self).
{ apply Hall. intros n Hn. simpl in Hn. lia. }
split; [|split; [exact Hp|]].
- unfold children.
  assert (Hout : Forall (λ e, parentNode e = false) (created (settle self))).
  { apply Forall_lookup. intros n e He.
    assert (Hn : (n < length (created self))%nat)
      by (rewrite <- Hlen; exact (lookup_lt_Some _ _ _ He)).
    destruct (Hleaving n Hn) as [D HD].
    destruct (Hleaves n D HD) as (e' & He' & Hin).
    rewrite He in He'. injection He' as <-.
    destruct (parentNode e); [|reflexivity].
    destruct (Hin eq_refl) as (x & Hx & _). rewrite Hp in Hx. inversion Hx. }
  clear -Hout. induction Hout as [|e l He _ IH]; [reflexivity|].
  rewrite filter_cons. destruct (decide _) as [Hin|_]; [congruence | exact IH].
- apply list_eq. intros n. rewrite !list_lookup_fmap.
  destruct (created self !! n) as [e|] eqn:He.
  + destruct (Hgrows n e He) as (e' & -> & [Hm _]). simpl. rewrite Hm. reflexivity.
  + apply lookup_ge_None in He. rewrite <- Hlen in He.
    apply lookup_ge_None in He. rewrite He. reflexivity.
Qed.

Lemma notification_leaves_witness :
∃ e, created (at_time 5300 (history two_notifications)) !! 1%nat = Some e
     ∧ message e = js "Failed"
     ∧ parentNode e = false.
Proof.
refine (notification_leaves
          [(0, Show (js "Saved") None None); (1000, CloseClick 0)] []
          2000 (js "Failed") (Some (js "error")) (Some 3000) 5300 _ _).
- simpl. lia.
- simpl. lia.
Defined.

Lemma close_click_removes_witness :
∃ e, created (at_time 2500 (history two_notifications)) !! 0%nat = Some e
     ∧ parentNode e = false.
Proof.
refine (close_click_removes [(0, Show (js "Saved") None None)]
          [(2000, Show (js "Failed") (Some (js "error")) (Some 3000))]
          1000 0 2500 _ _ _).
- simpl. lia.
- vm_compute. constructor.
- lia.
Defined.

Lemma container_empties_witness :
children (settle (history two_notifications)) = []
∧ Timers.pending (timers (settle (history two_notifications))) = []
∧ map message (created (settle (history two_notifications)))
  = map message (created (history two_notifications)).
Proof.
refine (container_empties two_notifications _). simpl. lia.
Defined.

End NotificationFacts.
